(** * Result and argument decoders of codex-cli ([utils/parsers.ts],
      [utils/debug-logger.ts]): a shallow embedding and its properties.

    The development has four layers:
    - [JSStr]: JavaScript strings as sequences of UTF-16 code units, with
      the string methods the decoders call;
    - [JSNum], [JSON]: the Number type as IEEE-754 binary64 and the two
      platform built-ins [JSON.parse] and [JSON.stringify];
    - an effect monad (console lines and fire-and-forget file tasks, an
      environment holding the [DEBUG] switch, exceptions);
    - the functions of [debug-logger.ts] and [parsers.ts], written in that
      monad statement by statement. *)

From Stdlib Require Import ZArith NArith List String Ascii Bool Lia.
From Stdlib Require Import Floats.SpecFloat.
Import ListNotations.

Local Open Scope Z_scope.

(** ** JavaScript strings *)

Module JSStr.

(** A string is its sequence of UTF-16 code units. *)
Definition jsstring := list N.

(** The code units of a literal written in the source (ASCII only). *)
Definition lit (s : string) : jsstring :=
  List.map N_of_ascii (list_ascii_of_string s).

(** The same, for a literal that contains quotation marks: in the
    argument an apostrophe (39) stands for a quotation mark (34). *)
Definition qlit (s : string) : jsstring :=
  List.map (fun c => if N.eqb c 39 then 34%N else c) (lit s).

Definition eqb (a b : jsstring) : bool :=
  if list_eq_dec N.eq_dec a b then true else false.

(** [s.length] *)
Definition length (s : jsstring) : Z := Z.of_nat (List.length s).

(** [s.indexOf(c)] for a one-unit search string: index of the first
    occurrence, [-1] when there is none. *)
Fixpoint indexOf_from (c : N) (s : jsstring) (i : Z) : Z :=
  match s with
  | [] => -1
  | x :: r => if N.eqb x c then i else indexOf_from c r (i + 1)
  end.

Definition indexOf (s : jsstring) (c : N) : Z := indexOf_from c s 0.

(** [s.lastIndexOf(c)]: index of the last occurrence, [-1] when there is
    none. [i] is the index of the head of [s]. *)
Fixpoint lastIndexOf_from (c : N) (s : jsstring) (i : Z) : Z :=
  match s with
  | [] => -1
  | x :: r =>
      let later := lastIndexOf_from c r (i + 1) in
      if later =? -1 then (if N.eqb x c then i else -1) else later
  end.

Definition lastIndexOf (s : jsstring) (c : N) : Z := lastIndexOf_from c s 0.

(** [s.includes(c)] *)
Definition includes (s : jsstring) (c : N) : bool :=
  existsb (N.eqb c) s.

(** [s.endsWith(c)] for a one-unit search string. *)
Definition endsWith (s : jsstring) (c : N) : bool :=
  match rev s with
  | x :: _ => N.eqb x c
  | [] => false
  end.

(** [s.substring(a, b)]: both arguments are clamped to [0 .. s.length]
    and swapped when [a > b]. *)
Definition clamp (len x : Z) : Z := Z.min (Z.max x 0) len.

Definition substring (s : jsstring) (a b : Z) : jsstring :=
  let a' := clamp (length s) a in
  let b' := clamp (length s) b in
  let lo := Z.min a' b' in
  let hi := Z.max a' b' in
  firstn (Z.to_nat (hi - lo)) (skipn (Z.to_nat lo) s).

(** [s.substring(a)] *)
Definition substring_from (s : jsstring) (a : Z) : jsstring :=
  substring s a (length s).

(** Number of occurrences of a unit: [(s.match(/c/g) || []).length]. *)
Definition count (c : N) (s : jsstring) : Z :=
  Z.of_nat (List.length (filter (N.eqb c) s)).

(** The units the decoders look for. *)
Definition OPEN_BRACE : N := 123%N.
Definition CLOSE_BRACE : N := 125%N.
Definition OPEN_BRACKET : N := 91%N.
Definition CLOSE_BRACKET : N := 93%N.
Definition QUOTE : N := 34%N.
Definition BACKSLASH : N := 92%N.
Definition NEWLINE : N := 10%N.

End JSStr.

Import JSStr.

(** ** The Number type *)

Module JSNum.

(** A Number is an IEEE-754 binary64 value. *)
Definition number := spec_float.

Definition prec : Z := 53.
Definition emax : Z := 1024.

Definition eqb (x y : number) : bool :=
  match x, y with
  | S754_zero a, S754_zero b => Bool.eqb a b
  | S754_infinity a, S754_infinity b => Bool.eqb a b
  | S754_nan, S754_nan => true
  | S754_finite a m e, S754_finite b m' e' =>
      Bool.eqb a b && Pos.eqb m m' && Z.eqb e e'
  | _, _ => false
  end.

(** The Number value for the decimal [m * 10^e10] with sign [neg]
    ([0 <= m]): the nearest binary64 value, ties to even, as in
    StringToNumber (ECMA-262, 7.1.4.1.1). *)
Definition of_decimal (neg : bool) (m e10 : Z) : number :=
  match m with
  | Zpos p =>
      if 0 <=? e10
      then binary_round prec emax neg (Z.to_pos (m * 10 ^ e10)) 0
      else SFdiv prec emax (S754_finite neg p 0)
                 (S754_finite false (Z.to_pos (10 ^ (- e10))) 0)
  | _ => S754_zero neg
  end.

Definition of_Z (z : Z) : number := of_decimal (z <? 0) (Z.abs z) 0.

(** The value is a mathematical integer. *)
Definition is_integer (x : number) : bool :=
  match x with
  | S754_zero _ => true
  | S754_finite _ m e => (0 <=? e) || (Zpos m mod 2 ^ (- e) =? 0)
  | _ => false
  end.

(** [x < 0] *)
Definition is_negative (x : number) : bool :=
  match x with
  | S754_finite true _ _ | S754_infinity true => true
  | _ => false
  end.

(** The Numbers that stand for a real number: the finite binary64 values
    (mantissa and exponent in canonical form), with the one zero [+0]. *)
Definition is_real (x : number) : bool :=
  match x with
  | S754_zero s => negb s
  | S754_finite _ m e => bounded prec emax m e
  | _ => false
  end.

Definition is_finite (x : number) : bool :=
  match x with
  | S754_zero _ | S754_finite _ _ _ => true
  | _ => false
  end.

(** *** Number::toString (ECMA-262, 6.1.6.1.20), radix 10 *)

(** The [k] low decimal digits of [s], most significant first, as code
    units. *)
Fixpoint digits_n (k : nat) (s : Z) : jsstring :=
  match k with
  | O => []
  | S k' => Z.to_N (48 + (s / 10 ^ Z.of_nat k') mod 10) :: digits_n k' s
  end.

(** The number of decimal digits of [z] (1 for 0); each step divides by
    ten, so the binary logarithm bounds the number of steps. *)
Fixpoint count_digits (fuel : nat) (z : Z) : nat :=
  match fuel with
  | O => 1
  | S f => if z <? 10 then 1%nat else S (count_digits f (z / 10))
  end.

Definition ndigits (z : Z) : nat := count_digits (Z.to_nat (Z.log2 z)) z.

(** Decimal digits of a non-negative integer. *)
Definition digits_of (z : Z) : jsstring := digits_n (ndigits z) z.

(** The exact value of the positive finite number [m * 2^e], as a
    fraction. *)
Definition frac_of (m : positive) (e : Z) : Z * Z :=
  if 0 <=? e then (Zpos m * 2 ^ e, 1) else (Zpos m, 2 ^ (- e)).

(** [10^j <= num/den] *)
Definition pow10_le (j num den : Z) : bool :=
  if 0 <=? j then 10 ^ j * den <=? num else den <=? num * 10 ^ (- j).

(** The [n] with [10^(n-1) <= num/den < 10^n]; the binary logarithms
    bracket it within one of the first guess. *)
Definition decimal_exponent (num den : Z) : Z :=
  let g := ((Z.log2 num - Z.log2 den) * 30103) / 100000 in
  match find (fun n => pow10_le (n - 1) num den && negb (pow10_le n num den))
             [g - 1; g; g + 1; g + 2] with
  | Some n => n
  | None => g
  end.

(** The candidates with [k] digits next to [num/den], below and above:
    [(s, n, twice the distance to the value, in units of 1/B)]. *)
Definition candidates (num den n k : Z) : list (Z * Z * Z * Z) :=
  let '(A, B) := if 0 <=? k - n then (num * 10 ^ (k - n), den)
                 else (num, den * 10 ^ (n - k)) in
  let lo := A / B in
  let r := A mod B in
  let hi := if lo + 1 =? 10 ^ k then (10 ^ (k - 1), n + 1) else (lo + 1, n) in
  [ (lo, n, 2 * r, B) ; (fst hi, snd hi, 2 * (B - r), B) ].

(** The better of two candidates: the closer one, the even one on a tie. *)
Definition better (c1 c2 : Z * Z * Z * Z) : Z * Z * Z * Z :=
  let '(s1, _, d1, _) := c1 in
  let '(_, _, d2, _) := c2 in
  if d1 <? d2 then c1
  else if d2 <? d1 then c2
  else if Z.even s1 then c1 else c2.

(** [s] has exactly [k] digits and [s * 10^(n-k)] is [x]: the Number
    value of that decimal is [x]. *)
Definition represents (x : number) (s n k : Z) : bool :=
  (1 <=? k) && (10 ^ (k - 1) <=? s) && (s <? 10 ^ k) &&
  eqb (of_decimal false s (n - k)) x.

Definition pick_candidate (x : number) (num den n k : Z) : option (Z * Z) :=
  let ok := filter (fun c => let '(s, n', _, _) := c in represents x s n' k)
                   (candidates num den n k) in
  match ok with
  | [] => None
  | [c] => let '(s, n', _, _) := c in Some (s, n')
  | c1 :: c2 :: _ => let '(s, n', _, _) := better c1 c2 in Some (s, n')
  end.

(** The digits of the exact decimal expansion of [m * 2^e]: every binary
    fraction has one. *)
Definition exact_decimal (m : positive) (e : Z) : Z * Z * Z :=
  let '(s, e10) := if 0 <=? e then (Zpos m * 2 ^ e, 0)
                   else (Zpos m * 5 ^ (- e), e) in
  let k := Z.of_nat (ndigits s) in
  (s, k + e10, k).

(** The shortest digit string [s] (with [k] digits) and exponent [n] such
    that [s * 10^(n-k)] is [x], for [k] in [ks]. Seventeen digits always
    suffice for a binary64 value; the exact expansion stands after them so
    that the result represents [x] in every case without that fact. *)
Fixpoint shortest (x : number) (m : positive) (e : Z) (num den n : Z)
  (ks : list Z) : Z * Z * Z :=
  match ks with
  | [] => exact_decimal m e
  | k :: ks' =>
      match pick_candidate x num den n k with
      | Some (s, n') => (s, n', k)
      | None => shortest x m e num den n ks'
      end
  end.

Definition zeros (n : Z) : jsstring := repeat 48%N (Z.to_nat n).

(** The [k] digits of [s] laid out with a decimal point or an exponent. *)
Definition layout (s n k : Z) : jsstring :=
  let ds := digits_n (Z.to_nat k) s in
  if (k <=? n) && (n <=? 21) then ds ++ zeros (n - k)
  else if (0 <? n) && (n <=? 21) then
    firstn (Z.to_nat n) ds ++ lit "." ++ skipn (Z.to_nat n) ds
  else if (-6 <? n) && (n <=? 0) then lit "0." ++ zeros (- n) ++ ds
  else
    let e := n - 1 in
    let sign := if e <? 0 then lit "-" else lit "+" in
    let mant := if k =? 1 then ds
                else firstn 1 ds ++ lit "." ++ skipn 1 ds in
    mant ++ lit "e" ++ sign ++ digits_of (Z.abs e).

(** The digits and the exponent [Number::toString] writes for the
    positive finite number [m * 2^e]. *)
Definition shortest_digits (m : positive) (e : Z) : Z * Z * Z :=
  let '(num, den) := frac_of m e in
  shortest (S754_finite false m e) m e num den (decimal_exponent num den)
           [1;2;3;4;5;6;7;8;9;10;11;12;13;14;15;16;17].

Definition NumberToString (x : number) : jsstring :=
  match x with
  | S754_nan => lit "NaN"
  | S754_zero _ => lit "0"
  | S754_infinity s => (if s then lit "-" else []) ++ lit "Infinity"
  | S754_finite s m e =>
      let '(d, n, k) := shortest_digits m e in
      (if s then lit "-" else []) ++ layout d n k
  end.

End JSNum.

(** ** Values, errors *)

#[local] Set Warnings "-register-all".

Inductive JSValue : Type :=
| JUndefined
| JNull
| JBool (b : bool)
| JNumber (x : JSNum.number)
| JString (s : jsstring)
| JArray (items : list JSValue)
| JObject (props : list (jsstring * JSValue)).

(** The errors the decoders can meet: [JSON.parse] throws a SyntaxError,
    destructuring [null] and a failed ToPrimitive throw a TypeError. An
    error is kept by its kind; its message and stack are text of the
    engine. *)
Inductive JSError : Type :=
| SyntaxError
| TypeError.

(** A computation that returns or throws. *)
Inductive Exc (A : Type) : Type :=
| Ok (a : A)
| Throw (e : JSError).
Arguments Ok {A} a.
Arguments Throw {A} e.

(** Own properties of an object, in creation order. [prop_set] is
    CreateDataProperty: a repeated key keeps its place and takes the new
    value. *)
Fixpoint prop_get (props : list (jsstring * JSValue)) (k : jsstring)
  : option JSValue :=
  match props with
  | [] => None
  | (k', v) :: r => if JSStr.eqb k' k then Some v else prop_get r k
  end.

Fixpoint prop_set (props : list (jsstring * JSValue)) (k : jsstring)
  (v : JSValue) : list (jsstring * JSValue) :=
  match props with
  | [] => [(k, v)]
  | (k', v') :: r =>
      if JSStr.eqb k' k then (k', v) :: r else (k', v') :: prop_set r k v
  end.

(** ** JSON.parse (ECMA-262, 25.5.1; grammar of ECMA-404) *)

Module JSON.

(** Result of a parser on a prefix of the text: a value and the rest of
    the text, a syntax error, or the recursion bound reached (which
    [parse_value_fuel] below excludes for the bound [parse] uses). *)
Inductive PRes (A : Type) : Type :=
| POk (a : A) (rest : jsstring)
| PErr
| PFuel.
Arguments POk {A} a rest.
Arguments PErr {A}.
Arguments PFuel {A}.

(** JSON white space: tab, line feed, carriage return, space. *)
Definition is_ws (c : N) : bool :=
  N.eqb c 9 || N.eqb c 10 || N.eqb c 13 || N.eqb c 32.

Fixpoint skip_ws (s : jsstring) : jsstring :=
  match s with
  | c :: r => if is_ws c then skip_ws r else s
  | [] => []
  end.

Definition is_digit (c : N) : bool := (N.leb 48 c && N.leb c 57)%N.

Definition digit_val (c : N) : Z := Z.of_N c - 48.

(** Value of a hexadecimal digit. *)
Definition hex_val (c : N) : option N :=
  if (N.leb 48 c && N.leb c 57)%N then Some (c - 48)%N
  else if (N.leb 65 c && N.leb c 70)%N then Some (c - 55)%N
  else if (N.leb 97 c && N.leb c 102)%N then Some (c - 87)%N
  else None.

Definition hex4 (a b c d : N) : option N :=
  match hex_val a, hex_val b, hex_val c, hex_val d with
  | Some x, Some y, Some z, Some w =>
      Some (((x * 16 + y) * 16 + z) * 16 + w)%N
  | _, _, _, _ => None
  end.

(** The unit a one-character escape stands for. *)
Definition simple_escape (c : N) : option N :=
  if N.eqb c 34 then Some 34%N          (* quotation mark *)
  else if N.eqb c 92 then Some 92%N     (* reverse solidus *)
  else if N.eqb c 47 then Some 47%N     (* solidus *)
  else if N.eqb c 98 then Some 8%N      (* b: backspace *)
  else if N.eqb c 102 then Some 12%N    (* f: form feed *)
  else if N.eqb c 110 then Some 10%N    (* n: line feed *)
  else if N.eqb c 114 then Some 13%N    (* r: carriage return *)
  else if N.eqb c 116 then Some 9%N     (* t: tab *)
  else None.

(** The characters of a string literal after its opening quote, up to and
    including the closing quote. *)
Fixpoint parse_string_body (s : jsstring) : option (jsstring * jsstring) :=
  match s with
  | [] => None
  | c :: r =>
      if N.eqb c QUOTE then Some ([], r)
      else if N.eqb c BACKSLASH then
        match r with
        | [] => None
        | e :: r1 =>
            if N.eqb e 117 then                       (* u and four hex digits *)
              match r1 with
              | h1 :: h2 :: h3 :: h4 :: r2 =>
                  match hex4 h1 h2 h3 h4 with
                  | Some u =>
                      match parse_string_body r2 with
                      | Some (str, rest) => Some (u :: str, rest)
                      | None => None
                      end
                  | None => None
                  end
              | _ => None
              end
            else
              match simple_escape e with
              | Some u =>
                  match parse_string_body r1 with
                  | Some (str, rest) => Some (u :: str, rest)
                  | None => None
                  end
              | None => None
              end
        end
      else if N.ltb c 32 then None
      else
        match parse_string_body r with
        | Some (str, rest) => Some (c :: str, rest)
        | None => None
        end
  end.

(** A maximal run of digits: its value read after [acc], how many there
    are, and the rest. *)
Fixpoint take_digits (s : jsstring) (acc : Z) (n : Z) : Z * Z * jsstring :=
  match s with
  | c :: r => if is_digit c then take_digits r (acc * 10 + digit_val c) (n + 1)
              else (acc, n, s)
  | [] => (acc, n, [])
  end.

(** The integer part: [0], or a non-zero digit followed by digits. *)
Definition parse_int_part (s : jsstring) : option (Z * jsstring) :=
  match s with
  | c :: r =>
      if N.eqb c 48 then Some (0, r)
      else if is_digit c then
        let '(v, _, rest) := take_digits r (digit_val c) 1 in Some (v, rest)
      else None
  | [] => None
  end.

(** The optional fraction: mantissa extended by the fraction digits, and
    their number. *)
Definition parse_frac_part (m : Z) (s : jsstring) : option (Z * Z * jsstring) :=
  match s with
  | c :: r =>
      if N.eqb c 46 then
        let '(v, n, rest) := take_digits r m 0 in
        if n =? 0 then None else Some (v, n, rest)
      else Some (m, 0, s)
  | [] => Some (m, 0, [])
  end.

(** The optional exponent. *)
Definition parse_exp_part (s : jsstring) : option (Z * jsstring) :=
  match s with
  | c :: r =>
      if N.eqb c 101 || N.eqb c 69 then
        let '(neg, r1) :=
          match r with
          | sgn :: r' => if N.eqb sgn 45 then (true, r')
                         else if N.eqb sgn 43 then (false, r')
                         else (false, r)
          | [] => (false, r)
          end in
        let '(v, n, rest) := take_digits r1 0 0 in
        if n =? 0 then None else Some (if neg then - v else v, rest)
      else Some (0, s)
  | [] => Some (0, [])
  end.

(** A number literal; its value is the nearest Number. *)
Definition parse_number (s : jsstring) : option (JSNum.number * jsstring) :=
  let '(neg, s1) :=
    match s with
    | c :: r => if N.eqb c 45 then (true, r) else (false, s)
    | [] => (false, s)
    end in
  match parse_int_part s1 with
  | None => None
  | Some (i, s2) =>
      match parse_frac_part i s2 with
      | None => None
      | Some (m, nfrac, s3) =>
          match parse_exp_part s3 with
          | None => None
          | Some (e, s4) => Some (JSNum.of_decimal neg m (e - nfrac), s4)
          end
      end
  end.

(** A fixed word ([true], [false], [null]). *)
Fixpoint expect (word s : jsstring) : option jsstring :=
  match word, s with
  | [], _ => Some s
  | w :: word', c :: r => if N.eqb w c then expect word' r else None
  | _ :: _, [] => None
  end.

Fixpoint parse_value (fuel : nat) (s : jsstring) {struct fuel} : PRes JSValue :=
  match fuel with
  | O => PFuel
  | S f =>
      match skip_ws s with
      | [] => PErr
      | c :: r =>
          if N.eqb c OPEN_BRACE then
            match skip_ws r with
            | c' :: r' =>
                if N.eqb c' CLOSE_BRACE then POk (JObject []) r'
                else parse_members f [] (c' :: r')
            | [] => PErr
            end
          else if N.eqb c OPEN_BRACKET then
            match skip_ws r with
            | c' :: r' =>
                if N.eqb c' CLOSE_BRACKET then POk (JArray []) r'
                else parse_elements f [] (c' :: r')
            | [] => PErr
            end
          else if N.eqb c QUOTE then
            match parse_string_body r with
            | Some (str, rest) => POk (JString str) rest
            | None => PErr
            end
          else if N.eqb c 116 then
            match expect (lit "rue") r with
            | Some rest => POk (JBool true) rest | None => PErr end
          else if N.eqb c 102 then
            match expect (lit "alse") r with
            | Some rest => POk (JBool false) rest | None => PErr end
          else if N.eqb c 110 then
            match expect (lit "ull") r with
            | Some rest => POk JNull rest | None => PErr end
          else
            match parse_number (c :: r) with
            | Some (x, rest) => POk (JNumber x) rest
            | None => PErr
            end
      end
  end

(** The elements of an array after [acc] (reversed), up to the closing
    bracket. *)
with parse_elements (fuel : nat) (acc : list JSValue) (s : jsstring)
  {struct fuel} : PRes JSValue :=
  match fuel with
  | O => PFuel
  | S f =>
      match parse_value f s with
      | POk v rest =>
          match skip_ws rest with
          | c :: r =>
              if N.eqb c 44 then parse_elements f (v :: acc) r
              else if N.eqb c CLOSE_BRACKET then POk (JArray (rev (v :: acc))) r
              else PErr
          | [] => PErr
          end
      | PErr => PErr
      | PFuel => PFuel
      end
  end

(** The members of an object after the properties [acc], up to the
    closing brace. *)
with parse_members (fuel : nat) (acc : list (jsstring * JSValue))
  (s : jsstring) {struct fuel} : PRes JSValue :=
  match fuel with
  | O => PFuel
  | S f =>
      match skip_ws s with
      | c :: r =>
          if N.eqb c QUOTE then
            match parse_string_body r with
            | Some (key, rest) =>
                match skip_ws rest with
                | c1 :: r1 =>
                    if N.eqb c1 58 then
                      match parse_value f r1 with
                      | POk v rest' =>
                          match skip_ws rest' with
                          | c2 :: r2 =>
                              if N.eqb c2 44
                              then parse_members f (prop_set acc key v) r2
                              else if N.eqb c2 CLOSE_BRACE
                              then POk (JObject (prop_set acc key v)) r2
                              else PErr
                          | [] => PErr
                          end
                      | PErr => PErr
                      | PFuel => PFuel
                      end
                    else PErr
                | [] => PErr
                end
            | None => PErr
            end
          else PErr
      | [] => PErr
      end
  end.

(** [JSON.parse(text)] with no reviver: the whole text is one value
    between optional white space. Twice the length of the text bounds the
    recursion: the bound is never reached ([parse_value_fuel]). *)
Definition parse (text : jsstring) : Exc JSValue :=
  match parse_value (S (2 * List.length text)) text with
  | POk v rest =>
      match skip_ws rest with
      | [] => Ok v
      | _ :: _ => Throw SyntaxError
      end
  | _ => Throw SyntaxError
  end.

(** *** JSON.stringify (ECMA-262, 25.5.2), no replacer, no indentation *)

Definition hex_digit (d : N) : N := if N.ltb d 10 then (48 + d)%N else (87 + d)%N.

(** UnicodeEscape: a reverse solidus, [u] and four lowercase hex digits. *)
Definition unicode_escape (c : N) : jsstring :=
  [ BACKSLASH; 117%N;
    hex_digit (c / 4096 mod 16); hex_digit (c / 256 mod 16);
    hex_digit (c / 16 mod 16); hex_digit (c mod 16) ]%N.

Definition is_high_surrogate (c : N) : bool := (N.leb 55296 c && N.leb c 56319)%N.
Definition is_low_surrogate (c : N) : bool := (N.leb 56320 c && N.leb c 57343)%N.

(** A code unit that is not part of a surrogate pair. *)
Definition quote_unit (c : N) : jsstring :=
  if N.eqb c 8 then [BACKSLASH; 98%N]
  else if N.eqb c 9 then [BACKSLASH; 116%N]
  else if N.eqb c 10 then [BACKSLASH; 110%N]
  else if N.eqb c 12 then [BACKSLASH; 102%N]
  else if N.eqb c 13 then [BACKSLASH; 114%N]
  else if N.eqb c 34 then [BACKSLASH; 34%N]
  else if N.eqb c 92 then [BACKSLASH; 92%N]
  else if N.ltb c 32 || is_high_surrogate c || is_low_surrogate c
  then unicode_escape c
  else [c].

(** QuoteJSONString without the surrounding quotes: the string is read by
    code points, so a well-formed surrogate pair is kept as it is. *)
Fixpoint quote_body (s : jsstring) : jsstring :=
  match s with
  | [] => []
  | c :: r =>
      if is_high_surrogate c then
        match r with
        | d :: r' =>
            if is_low_surrogate d then c :: d :: quote_body r'
            else quote_unit c ++ quote_body r
        | [] => quote_unit c
        end
      else quote_unit c ++ quote_body r
  end.

Definition quote (s : jsstring) : jsstring := QUOTE :: quote_body s ++ [QUOTE].

(** SerializeJSONProperty: [None] stands for [undefined] (the value has no
    JSON text). Properties are written in creation order. *)
Fixpoint serialize (v : JSValue) : option jsstring :=
  match v with
  | JUndefined => None
  | JNull => Some (lit "null")
  | JBool true => Some (lit "true")
  | JBool false => Some (lit "false")
  | JNumber x =>
      Some (if JSNum.is_finite x then JSNum.NumberToString x else lit "null")
  | JString s => Some (quote s)
  | JArray items =>
      let fix elements (l : list JSValue) (first : bool) : jsstring :=
        match l with
        | [] => []
        | x :: r =>
            (if first then [] else lit ",") ++
            (match serialize x with Some t => t | None => lit "null" end) ++
            elements r false
        end in
      Some (lit "[" ++ elements items true ++ lit "]")
  | JObject props =>
      let fix members (l : list (jsstring * JSValue)) (first : bool)
        : jsstring :=
        match l with
        | [] => []
        | (k, x) :: r =>
            match serialize x with
            | Some t =>
                (if first then [] else lit ",") ++ quote k ++ lit ":" ++ t ++
                members r false
            | None => members r first
            end
        end in
      Some (lit "{" ++ members props true ++ lit "}")
  end.

End JSON.

(** ** Operators on values *)

(** [typeof v] *)
Inductive JSType : Type :=
| TUndefined | TObject | TBoolean | TNumber | TString.

Definition typeof (v : JSValue) : JSType :=
  match v with
  | JUndefined => TUndefined
  | JNull | JArray _ | JObject _ => TObject
  | JBool _ => TBoolean
  | JNumber _ => TNumber
  | JString _ => TString
  end.

(** [v.k] for a key [k] that no prototype defines (the decoders read
    [output], [metadata], [cmd], [command], [timeout], [workdir]): the own
    property of an object, [undefined] otherwise. Reading a property of
    [null] or [undefined] throws. *)
Definition get_property (v : JSValue) (k : jsstring) : Exc JSValue :=
  match v with
  | JUndefined | JNull => Throw TypeError
  | JObject props =>
      match prop_get props k with
      | Some x => Ok x
      | None => Ok JUndefined
      end
  | _ => Ok JUndefined
  end.

(** [k in v] for such a key and [v] an object or an array. *)
Definition has_property (v : JSValue) (k : jsstring) : bool :=
  match v with
  | JObject props =>
      match prop_get props k with Some _ => true | None => false end
  | _ => false
  end.

(** ToString (ECMA-262, 7.1.17) of a value [JSON.parse] can return, or
    [undefined]. An array is joined with commas; a plain object gives
    [[object Object]] unless an own [toString] property, which is never
    callable here, hides [Object.prototype.toString]: then no method
    yields a primitive and ToPrimitive throws. *)
Fixpoint ToString (v : JSValue) : Exc jsstring :=
  match v with
  | JUndefined => Ok (lit "undefined")
  | JNull => Ok (lit "null")
  | JBool true => Ok (lit "true")
  | JBool false => Ok (lit "false")
  | JNumber x => Ok (JSNum.NumberToString x)
  | JString s => Ok s
  | JArray items =>
      (fix join (l : list JSValue) : Exc jsstring :=
         match l with
         | [] => Ok []
         | x :: r =>
             match match x with
                   | JUndefined | JNull => Ok []
                   | _ => ToString x
                   end with
             | Throw e => Throw e
             | Ok a =>
                 match join r with
                 | Throw e => Throw e
                 | Ok b =>
                     Ok (a ++ match r with [] => [] | _ :: _ => lit "," end ++ b)
                 end
             end
         end) items
  | JObject props =>
      match prop_get props (lit "toString") with
      | Some _ => Throw TypeError
      | None => Ok (lit "[object Object]")
      end
  end.

(** [v + s] for a string [s]: the left operand is converted (for the
    values above ToPrimitive followed by ToString gives [ToString]) and
    the two strings are concatenated. *)
Definition add_string (v : JSValue) (s : jsstring) : Exc JSValue :=
  match ToString v with
  | Ok t => Ok (JString (t ++ s))
  | Throw e => Throw e
  end.

(** ** Effects

    A call can write console lines ([log] of node:console) and start
    asynchronous file-writing functions without awaiting them
    ([void f(...)]). The trace of a call lists both in program order; what
    a started function does to the file system is given by [run_task].
    Wall-clock time stamps (record fields and file-name suffixes) are left
    out of the records. *)

(** [jsonSample] / [outputPreview]: the text, or its first and last 500
    units when it is longer than 1000. *)
Inductive Sample : Type :=
| Whole (s : jsstring)
| HeadTail (start stop : jsstring).

Record StructureAnalysis : Type := {
  openBraces : Z;
  closeBraces : Z;
  openBrackets : Z;
  closeBrackets : Z;
  quotes : Z
}.

Record ParseAttemptData : Type := {
  pa_success : bool;
  pa_jsonLength : Z;
  pa_error : option JSError;
  pa_jsonSample : Sample;
  pa_structureAnalysis : StructureAnalysis
}.

Record CommandData : Type := {
  cd_command : jsstring;
  cd_outputLength : Z;
  cd_exitCode : JSNum.number;
  cd_duration : JSNum.number;
  cd_outputPreview : Sample
}.

Record SizeInfo : Type := {
  bytes : Z;
  kb : JSNum.number;
  tokens : Z
}.

Inductive Issue : Type :=
| IssueTooLarge          (* Output exceeds 100KB - may hit API token limits *)
| IssueTruncated         (* JSON appears to be truncated - missing closing braces *)
| IssueUnbalanced (braceCount closeBraceCount : Z)
| IssueControlChars (n : Z).

Record AnalysisData : Type := {
  ad_functionName : jsstring;
  ad_argumentsLength : Z;
  ad_outputLength : Z;
  ad_potential_issues : list Issue;
  ad_size_arguments : SizeInfo;
  ad_size_output : SizeInfo
}.

Inductive LogData : Type :=
| DCommand (d : CommandData)
| DParseAttempt (d : ParseAttemptData)
| DAnalysis (d : AnalysisData).

(** [errorInfo] of [parseToolCallOutput]. *)
Record ErrorInfo : Type := {
  ei_error : JSError;
  ei_rawOutput : jsstring;
  ei_outputLength : Z;
  ei_outputStart : jsstring;
  ei_outputEnd : jsstring;
  ei_openBrace : Z;
  ei_closeBrace : Z;
  ei_possibleTruncation : bool
}.

(** A file of the log store: directory, name prefix, extension. *)
Record LogFile : Type := {
  lf_dir : jsstring;
  lf_prefix : jsstring;
  lf_ext : jsstring
}.

(** The console lines of the two source files, with the values they
    interpolate. *)
Inductive LogLine : Type :=
(* parsers.ts *)
| LErrorDetailsWritten (f : LogFile)
| LFailedToWriteErrorLog
| LAttemptingToParse (toolCallOutput : jsstring)
| LStandardParsingFailed
| LDetectedTruncated
| LRecoveredByClosingBrace
| LClosingBraceFailed
| LAttemptingToExtract
| LExtracted
| LFailedToExtract (err : JSError)
| LJsonParseError (err : JSError)
| LRawOutputLength (n : Z)
| LPossibleTruncation
| LFailedToParseArguments (toolCallArguments : jsstring)
(* debug-logger.ts *)
| LDebugCommandExecuted (command : jsstring)
| LDebugExitCode (exitCode duration : JSNum.number) (outputLength : Z)
| LDebugJsonParse (success : bool)
| LDebugJsonLength (n : Z)
| LDebugParseError (err : JSError)
| LDebugStructure (a : StructureAnalysis)
| LDebugAnalysisFor (functionName : jsstring)
| LDebugSizes (argumentsLength outputLength : Z)
| LDebugIssuesDetected
| LDebugIssue (i : Issue)
| LDebugLogWritten (f : LogFile)
| LDebugFailedToWriteLog
| LDebugRawWritten (f : LogFile)
| LDebugFailedToWriteRaw.

(** The asynchronous functions a call can start. *)
Inductive Task : Type :=
| TWriteToLogFile (prefix : jsstring) (data : LogData)
| TWriteRawContent (prefix : jsstring) (content : jsstring)
| TWriteErrorLog (errorData : ErrorInfo).

Inductive Effect : Type :=
| Console (line : LogLine)
| Spawn (task : Task).

(** The process environment: [process.env["DEBUG"]], [None] when unset. *)
Record Env : Type := {
  env_DEBUG : option jsstring
}.

(** Truthiness of an environment entry: set and not the empty string. *)
Definition truthy (v : option jsstring) : bool :=
  match v with
  | Some (_ :: _) => true
  | _ => false
  end.

(** A computation reads the environment, leaves a trace, and returns or
    throws. *)
Definition M (A : Type) : Type := Env -> list Effect * Exc A.

Definition ret {A} (a : A) : M A := fun _ => ([], Ok a).

Definition bind {A B} (m : M A) (k : A -> M B) : M B :=
  fun env =>
    match m env with
    | (t, Ok a) => let '(t', r) := k a env in (t ++ t', r)
    | (t, Throw e) => (t, Throw e)
    end.

Definition throw {A} (e : JSError) : M A := fun _ => ([], Throw e).

(** [try { m } catch (e) { h e }] *)
Definition try_catch {A} (m : M A) (h : JSError -> M A) : M A :=
  fun env =>
    match m env with
    | (t, Ok a) => (t, Ok a)
    | (t, Throw e) => let '(t', r) := h e env in (t ++ t', r)
    end.

Definition lift {A} (x : Exc A) : M A := fun _ => ([], x).

Definition log (line : LogLine) : M unit := fun _ => ([Console line], Ok tt).

Definition spawn (task : Task) : M unit := fun _ => ([Spawn task], Ok tt).

Definition getenv_DEBUG : M (option jsstring) :=
  fun env => ([], Ok (env_DEBUG env)).

Definition when (b : bool) (m : M unit) : M unit := if b then m else ret tt.

Declare Scope js_scope.
Delimit Scope js_scope with js.
Notation "x <- m ;; k" := (bind m (fun x => k))
  (at level 61, m at next level, right associativity) : js_scope.
Notation "m ;; k" := (bind m (fun _ => k))
  (at level 61, right associativity) : js_scope.
Notation "' pat <- m ;; k" := (bind m (fun x => match x with pat => k end))
  (at level 61, pat pattern, m at next level, right associativity) : js_scope.
Local Open Scope js_scope.

(** What the file system is asked to do, and the console lines, in the
    order they happen. *)
Inductive IO : Type :=
| IoConsole (line : LogLine)
| IoMkdir (dir : jsstring)
| IoWriteJson (f : LogFile) (data : LogData)
| IoWriteErrorJson (f : LogFile) (errorData : ErrorInfo)
| IoWriteText (f : LogFile) (content : jsstring).

(** How the file system answers one asynchronous function. *)
Inductive FsOutcome : Type :=
| FsOk
| MkdirFails
| WriteFails.

(** ** debug-logger.ts *)

Module DebugLogger.

Definition LOG_DIR : jsstring := lit "debug-logs".

(** The text or its head and tail (lines 23-28 and 53-58). *)
Definition sample (s : jsstring) : Sample :=
  if 1000 <? JSStr.length s
  then HeadTail (substring s 0 500) (substring_from s (JSStr.length s - 500))
  else Whole s.

(** [command.join(' ')] *)
Fixpoint join_space (l : list jsstring) : jsstring :=
  match l with
  | [] => []
  | [x] => x
  | x :: r => x ++ lit " " ++ join_space r
  end.

(** [writeToLogFile(prefix, data)] (lines 163-177), as the I/O it performs. *)
Definition writeToLogFile (prefix : jsstring) (data : LogData)
  (fs : FsOutcome) : list IO :=
  let logFile := {| lf_dir := LOG_DIR; lf_prefix := prefix; lf_ext := lit ".json" |} in
  match fs with
  | MkdirFails => [IoMkdir LOG_DIR; IoConsole LDebugFailedToWriteLog]
  | WriteFails =>
      [IoMkdir LOG_DIR; IoWriteJson logFile data; IoConsole LDebugFailedToWriteLog]
  | FsOk =>
      [IoMkdir LOG_DIR; IoWriteJson logFile data; IoConsole (LDebugLogWritten logFile)]
  end.

(** [writeRawContent(prefix, content)] (lines 182-196). *)
Definition writeRawContent (prefix : jsstring) (content : jsstring)
  (fs : FsOutcome) : list IO :=
  let rawFile := {| lf_dir := LOG_DIR; lf_prefix := prefix; lf_ext := lit ".txt" |} in
  match fs with
  | MkdirFails => [IoMkdir LOG_DIR; IoConsole LDebugFailedToWriteRaw]
  | WriteFails =>
      [IoMkdir LOG_DIR; IoWriteText rawFile content; IoConsole LDebugFailedToWriteRaw]
  | FsOk =>
      [IoMkdir LOG_DIR; IoWriteText rawFile content; IoConsole (LDebugRawWritten rawFile)]
  end.

(** [logCommandExecution(command, output, exitCode, duration)]
    (lines 14-36). *)
Definition logCommandExecution (command : list jsstring) (output : jsstring)
  (exitCode duration : JSNum.number) : M unit :=
  dbg <- getenv_DEBUG ;;
  if negb (truthy dbg) then ret tt
  else
    let logData := {|
      cd_command := join_space command;
      cd_outputLength := JSStr.length output;
      cd_exitCode := exitCode;
      cd_duration := duration;
      cd_outputPreview := sample output |} in
    log (LDebugCommandExecuted (join_space command)) ;;
    log (LDebugExitCode exitCode duration (JSStr.length output)) ;;
    spawn (TWriteToLogFile (lit "command-output") (DCommand logData)).

(** [logJsonParseAttempt(jsonString, success, error?)] (lines 41-85). *)
Definition logJsonParseAttempt (jsonString : jsstring) (success : bool)
  (error : option JSError) : M unit :=
  dbg <- getenv_DEBUG ;;
  if negb (truthy dbg) then ret tt
  else
    let structureAnalysis := {|
      openBraces := JSStr.count OPEN_BRACE jsonString;
      closeBraces := JSStr.count CLOSE_BRACE jsonString;
      openBrackets := JSStr.count OPEN_BRACKET jsonString;
      closeBrackets := JSStr.count CLOSE_BRACKET jsonString;
      quotes := JSStr.count QUOTE jsonString |} in
    let logData := {|
      pa_success := success;
      pa_jsonLength := JSStr.length jsonString;
      pa_error := error;
      pa_jsonSample := sample jsonString;
      pa_structureAnalysis := structureAnalysis |} in
    log (LDebugJsonParse success) ;;
    log (LDebugJsonLength (JSStr.length jsonString)) ;;
    match success, error with
    | false, Some e => log (LDebugParseError e)
    | _, _ => ret tt
    end ;;
    log (LDebugStructure structureAnalysis) ;;
    spawn (TWriteToLogFile
             (if success then lit "json-parse-success" else lit "json-parse-error")
             (DParseAttempt logData)) ;;
    when (negb success) (spawn (TWriteRawContent (lit "failed-json-raw") jsonString)).

(** Length of the UTF-8 encoding ([new TextEncoder().encode(str).length]):
    a surrogate pair takes four bytes, a lone surrogate is encoded as
    U+FFFD. *)
Fixpoint utf8_length (s : jsstring) : Z :=
  match s with
  | [] => 0
  | c :: r =>
      if N.ltb c 128 then 1 + utf8_length r
      else if N.ltb c 2048 then 2 + utf8_length r
      else if JSON.is_high_surrogate c then
        match r with
        | d :: r' =>
            if JSON.is_low_surrogate d then 4 + utf8_length r'
            else 3 + utf8_length r
        | [] => 3
        end
      else 3 + utf8_length r
  end.

(** [getSizeInfo(str)] (lines 148-158). [Math.round(bytes / 1024 * 100)]
    is exact in binary64 and equals [(50 * bytes + 256) / 512]. *)
Definition getSizeInfo (str : jsstring) : SizeInfo :=
  let bytes := utf8_length str in
  {| bytes := bytes;
     kb := JSNum.of_decimal false ((50 * bytes + 256) / 512) (-2);
     tokens := (JSStr.length str + 3) / 4 |}.

(** Units matched by [/[\x00-\x1F\x7F-\x9F]/]. *)
Definition is_control (c : N) : bool :=
  N.leb c 31 || (N.leb 127 c && N.leb c 159).

(** [analyzeToolCallOutput(functionName, argsString, output)]
    (lines 90-143). *)
Definition analyzeToolCallOutput (functionName argsString output : jsstring)
  : M unit :=
  dbg <- getenv_DEBUG ;;
  if negb (truthy dbg) then ret tt
  else
    let braceCount := JSStr.count OPEN_BRACE output in
    let closeBraceCount := JSStr.count CLOSE_BRACE output in
    let controlChars := Z.of_nat (List.length (filter is_control output)) in
    let potential_issues :=
      (if 100000 <? JSStr.length output then [IssueTooLarge] else []) ++
      (if negb (indexOf output OPEN_BRACE =? -1) &&
          (lastIndexOf output CLOSE_BRACE <? lastIndexOf output OPEN_BRACE)
       then [IssueTruncated] else []) ++
      (if negb (braceCount =? closeBraceCount)
       then [IssueUnbalanced braceCount closeBraceCount] else []) ++
      (if 0 <? controlChars then [IssueControlChars controlChars] else []) in
    let logData := {|
      ad_functionName := functionName;
      ad_argumentsLength := JSStr.length argsString;
      ad_outputLength := JSStr.length output;
      ad_potential_issues := potential_issues;
      ad_size_arguments := getSizeInfo argsString;
      ad_size_output := getSizeInfo output |} in
    log (LDebugAnalysisFor functionName) ;;
    log (LDebugSizes (JSStr.length argsString) (JSStr.length output)) ;;
    when (negb (match potential_issues with [] => true | _ => false end))
         (log LDebugIssuesDetected ;;
          fold_right (fun issue k => log (LDebugIssue issue) ;; k) (ret tt)
                     potential_issues) ;;
    spawn (TWriteToLogFile (lit "tool-call-analysis") (DAnalysis logData)) ;;
    when (negb (match potential_issues with [] => true | _ => false end))
         (spawn (TWriteRawContent (lit "problematic-tool-output") output)).

End DebugLogger.

(** ** parsers.ts *)

(** [writeErrorLog(errorData)] (lines 18-38), as the I/O it performs. It
    does not look at the environment. *)
Definition writeErrorLog (errorData : ErrorInfo) (fs : FsOutcome) : list IO :=
  let logFile := {| lf_dir := lit "logs";
                    lf_prefix := lit "json-parse-error";
                    lf_ext := lit ".log" |} in
  match fs with
  | MkdirFails => [IoMkdir (lit "logs"); IoConsole LFailedToWriteErrorLog]
  | WriteFails =>
      [IoMkdir (lit "logs"); IoWriteErrorJson logFile errorData;
       IoConsole LFailedToWriteErrorLog]
  | FsOk =>
      [IoMkdir (lit "logs"); IoWriteErrorJson logFile errorData;
       IoConsole (LErrorDetailsWritten logFile)]
  end.

(** The I/O of a started function. *)
Definition run_task (fs : FsOutcome) (t : Task) : list IO :=
  match t with
  | TWriteToLogFile prefix data => DebugLogger.writeToLogFile prefix data fs
  | TWriteRawContent prefix content => DebugLogger.writeRawContent prefix content fs
  | TWriteErrorLog errorData => writeErrorLog errorData fs
  end.

(** All the I/O a trace stands for: console lines at once, each started
    function's operations where it was started. *)
Definition trace_io (fs : FsOutcome) (t : list Effect) : list IO :=
  flat_map (fun e => match e with
                     | Console line => [IoConsole line]
                     | Spawn task => run_task fs task
                     end) t.

(** The files a trace writes. *)
Definition is_file_write (io : IO) : bool :=
  match io with
  | IoWriteJson _ _ | IoWriteErrorJson _ _ | IoWriteText _ _ => true
  | _ => false
  end.

(** The value [parseToolCallOutput] returns. The declared type is
    [{ output: string; metadata: ExecOutputMetadata }]; the fields hold
    whatever the parsed text held, so they are values. *)
Record ToolResult : Type := {
  output : JSValue;
  metadata : JSValue
}.

(** The literals of lines 79, 122, 171 and 172. *)
Definition NOTE_FIXED : jsstring :=
  NEWLINE :: lit "[Note: Response was truncated and automatically fixed]".
Definition NOTE_RECOVERED : jsstring :=
  NEWLINE :: lit "[Note: Response was truncated but a valid portion was recovered]".
Definition MSG_TRUNCATED : jsstring :=
  lit "Response appears to be truncated due to token limits. Try a smaller command output or check logs for details.".
Definition MSG_FAILED : jsstring :=
  lit "Failed to parse JSON result. Check logs for details.".

(** [{ exit_code: 1, duration_seconds: 0 }] (lines 176-179). *)
Definition FAILURE_METADATA : JSValue :=
  JObject [ (lit "exit_code", JNumber (JSNum.of_Z 1));
            (lit "duration_seconds", JNumber (JSNum.of_Z 0)) ].

(** [const { output, metadata } = v]: throws on [null]. *)
Definition destructure_output_metadata (v : JSValue)
  : Exc (JSValue * JSValue) :=
  match get_property v (lit "output") with
  | Throw e => Throw e
  | Ok o =>
      match get_property v (lit "metadata") with
      | Throw e => Throw e
      | Ok m => Ok (o, m)
      end
  end.

(** Lines 97-106: the inner loop over [j], on the text after index [i].
    [true] when [openCount] comes back to zero. *)
Fixpoint has_matching_close (rest : jsstring) (openCount : Z) : bool :=
  match rest with
  | [] => false
  | c :: r =>
      let openCount := if N.eqb c OPEN_BRACE then openCount + 1 else openCount in
      let openCount := if N.eqb c CLOSE_BRACE then openCount - 1 else openCount in
      if openCount =? 0 then true else has_matching_close r openCount
  end.

(** Lines 93-108: the loop over [i], on the text from index [i] on;
    [start] is assigned at every open brace that has a matching close
    brace. *)
Fixpoint find_start (s : jsstring) (i lastOpenBrace start : Z) : Z :=
  match s with
  | [] => start
  | c :: r =>
      if i <=? lastOpenBrace then
        let start :=
          if N.eqb c OPEN_BRACE && has_matching_close r 1 then i else start in
        find_start r (i + 1) lastOpenBrace start
      else start
  end.

(** Line 111. *)
Definition possibleJson (toolCallOutput : jsstring) : jsstring :=
  let lastOpenBrace := lastIndexOf toolCallOutput OPEN_BRACE in
  let lastCloseBrace := lastIndexOf toolCallOutput CLOSE_BRACE in
  let start := find_start toolCallOutput 0 lastOpenBrace 0 in
  substring toolCallOutput start (lastCloseBrace + 1).

(** Line 69: the test before the close-brace patch. *)
Definition truncated_guard (toolCallOutput : jsstring) : bool :=
  let lastOpenBrace := lastIndexOf toolCallOutput OPEN_BRACE in
  let lastCloseBrace := lastIndexOf toolCallOutput CLOSE_BRACE in
  negb (lastOpenBrace =? -1) &&
  ((lastCloseBrace =? -1) || (lastCloseBrace <? lastOpenBrace)).

(** Line 89: the test before the extraction. *)
Definition extract_guard (toolCallOutput : jsstring) : bool :=
  let lastOpenBrace := lastIndexOf toolCallOutput OPEN_BRACE in
  let lastCloseBrace := lastIndexOf toolCallOutput CLOSE_BRACE in
  negb (lastOpenBrace =? -1) && negb (lastCloseBrace =? -1) &&
  (lastOpenBrace <? lastCloseBrace).

(** Lines 51-55: the standard parse. *)
Definition direct_decode (toolCallOutput : jsstring) : M ToolResult :=
  parsed <- lift (JSON.parse toolCallOutput) ;;
  '(output, metadata) <- lift (destructure_output_metadata parsed) ;;
  DebugLogger.logJsonParseAttempt toolCallOutput true None ;;
  ret {| output := output; metadata := metadata |}.

(** Lines 70-85: the body of the first recovery. [Some r] when it returns
    [r] from the function, [None] when control goes on. *)
Definition close_brace_patch (toolCallOutput : jsstring)
  : M (option ToolResult) :=
  log LDetectedTruncated ;;
  let fixedJson := toolCallOutput ++ [CLOSE_BRACE] in
  try_catch
    (parsed <- lift (JSON.parse fixedJson) ;;
     '(output, metadata) <- lift (destructure_output_metadata parsed) ;;
     log LRecoveredByClosingBrace ;;
     DebugLogger.logJsonParseAttempt fixedJson true None ;;
     annotated <- lift (add_string output NOTE_FIXED) ;;
     ret (Some {| output := annotated; metadata := metadata |}))
    (fun fixErr =>
       log LClosingBraceFailed ;;
       DebugLogger.logJsonParseAttempt fixedJson false (Some fixErr) ;;
       ret None).

(** Lines 90-129: the body of the second recovery. *)
Definition extract_object (toolCallOutput : jsstring)
  : M (option ToolResult) :=
  log LAttemptingToExtract ;;
  let possibleJson := possibleJson toolCallOutput in
  try_catch
    (parsedObj <- lift (JSON.parse possibleJson) ;;
     DebugLogger.logJsonParseAttempt possibleJson true None ;;
     if match typeof parsedObj with TObject => true | _ => false end &&
        negb (match parsedObj with JNull => true | _ => false end) &&
        has_property parsedObj (lit "output") &&
        has_property parsedObj (lit "metadata")
     then
       log LExtracted ;;
       o <- lift (get_property parsedObj (lit "output")) ;;
       annotated <- lift (add_string o NOTE_RECOVERED) ;;
       m <- lift (get_property parsedObj (lit "metadata")) ;;
       ret (Some {| output := annotated; metadata := m |})
     else ret None)
    (fun extractErr =>
       log (LFailedToExtract extractErr) ;;
       DebugLogger.logJsonParseAttempt possibleJson false (Some extractErr) ;;
       ret None).

(** Lines 154-156. *)
Definition possibleTruncation (toolCallOutput : jsstring) : bool :=
  (0 <? JSStr.length toolCallOutput) &&
  negb (endsWith toolCallOutput CLOSE_BRACE) &&
  includes toolCallOutput OPEN_BRACE.

(** Lines 136-181: the handler of the outer [catch]. *)
Definition fallback (toolCallOutput : jsstring) (err : JSError) : M ToolResult :=
  let errorInfo := {|
    ei_error := err;
    ei_rawOutput := toolCallOutput;
    ei_outputLength := JSStr.length toolCallOutput;
    ei_outputStart := substring toolCallOutput 0 500;
    ei_outputEnd :=
      if 500 <? JSStr.length toolCallOutput
      then substring_from toolCallOutput (JSStr.length toolCallOutput - 500)
      else [];
    ei_openBrace := indexOf toolCallOutput OPEN_BRACE;
    ei_closeBrace := lastIndexOf toolCallOutput CLOSE_BRACE;
    ei_possibleTruncation := possibleTruncation toolCallOutput |} in
  log (LJsonParseError err) ;;
  log (LRawOutputLength (JSStr.length toolCallOutput)) ;;
  when (ei_possibleTruncation errorInfo) (log LPossibleTruncation) ;;
  spawn (TWriteErrorLog errorInfo) ;;
  let errorMessage :=
    if ei_possibleTruncation errorInfo then MSG_TRUNCATED else MSG_FAILED in
  ret {| output := JString errorMessage; metadata := FAILURE_METADATA |}.

(** Lines 56-135: the handler of the inner [catch]; it ends by throwing
    [parseErr] again unless a recovery returned. *)
Definition recover (toolCallOutput : jsstring) (parseErr : JSError)
  : M ToolResult :=
  DebugLogger.logJsonParseAttempt toolCallOutput false (Some parseErr) ;;
  recovered <-
    (if 0 <? JSStr.length toolCallOutput then
       log LStandardParsingFailed ;;
       patched <-
         (if truncated_guard toolCallOutput
          then close_brace_patch toolCallOutput
          else ret None) ;;
       match patched with
       | Some r => ret (Some r)
       | None =>
           if extract_guard toolCallOutput
           then extract_object toolCallOutput
           else ret None
       end
     else ret None) ;;
  match recovered with
  | Some r => ret r
  | None => throw parseErr
  end.

(** Lines 44-135: the body of the outer [try]. *)
Definition decode_stages (toolCallOutput : jsstring) : M ToolResult :=
  dbg <- getenv_DEBUG ;;
  when (truthy dbg) (log (LAttemptingToParse toolCallOutput)) ;;
  try_catch (direct_decode toolCallOutput) (recover toolCallOutput).

(** [parseToolCallOutput(toolCallOutput)] (lines 40-182). *)
Definition parseToolCallOutput (toolCallOutput : jsstring) : M ToolResult :=
  try_catch (decode_stages toolCallOutput) (fallback toolCallOutput).

(** [ExecInput] of the sandbox interface, as [parseToolCallArguments]
    fills it. *)
Record ExecInput : Type := {
  cmd : list jsstring;
  workdir : option jsstring;
  timeoutInMillis : option JSNum.number
}.

(** [toStringArray(obj)] (lines 247-254). *)
Definition toStringArray (obj : JSValue) : option (list jsstring) :=
  match obj with
  | JArray items =>
      if forallb (fun item => match typeof item with TString => true | _ => false end)
                 items
      then Some (flat_map (fun item => match item with
                                       | JString s => [s]
                                       | _ => []
                                       end) items)
      else None
  | _ => None
  end.

(** [parseToolCallArguments(toolCallArguments)] (lines 217-245). *)
Definition parseToolCallArguments (toolCallArguments : jsstring)
  : M (option ExecInput) :=
  parsed <-
    try_catch
      (json <- lift (JSON.parse toolCallArguments) ;; ret (Some json))
      (fun err => log (LFailedToParseArguments toolCallArguments) ;; ret None) ;;
  match parsed with
  | None => ret None
  | Some json =>
      if negb (match typeof json with TObject => true | _ => false end) ||
         match json with JNull | JUndefined => true | _ => false end
      then ret None
      else
        cmd <- lift (get_property json (lit "cmd")) ;;
        command <- lift (get_property json (lit "command")) ;;
        let commandArray :=
          match toStringArray cmd with
          | Some a => Some a
          | None => toStringArray command
          end in
        match commandArray with
        | None => ret None
        | Some commandArray =>
            timeout <- lift (get_property json (lit "timeout")) ;;
            workdir <- lift (get_property json (lit "workdir")) ;;
            ret (Some {|
              cmd := commandArray;
              workdir := match workdir with JString s => Some s | _ => None end;
              timeoutInMillis := match timeout with JNumber x => Some x | _ => None end
            |})
        end
  end.

(** ** Definitions used to state the properties *)

(** The value the outer handler returns (lines 170-180). *)
Definition fallback_result (toolCallOutput : jsstring) : ToolResult :=
  {| output := JString (if possibleTruncation toolCallOutput
                        then MSG_TRUNCATED else MSG_FAILED);
     metadata := FAILURE_METADATA |}.

(** A numeric field of a metadata object. *)
Definition metadata_number (m : JSValue) (k : jsstring) : option JSNum.number :=
  match m with
  | JObject props =>
      match prop_get props k with
      | Some (JNumber x) => Some x
      | _ => None
      end
  | _ => None
  end.

Definition exit_code (r : ToolResult) : option JSNum.number :=
  metadata_number (metadata r) (lit "exit_code").

Definition duration_seconds (r : ToolResult) : option JSNum.number :=
  metadata_number (metadata r) (lit "duration_seconds").

(** The object [{ output: o, metadata: { exit_code: a, duration_seconds: b } }]. *)
Definition tool_result_value (o : jsstring) (a b : JSNum.number) : JSValue :=
  JObject [ (lit "output", JString o);
            (lit "metadata",
             JObject [ (lit "exit_code", JNumber a);
                       (lit "duration_seconds", JNumber b) ]) ].

(** The text [JSON.stringify] writes for that object
    ([serialize_tool_result]). *)
Definition tool_result_text (o : jsstring) (a b : JSNum.number) : jsstring :=
  qlit "{'output':" ++ JSON.quote o ++
  qlit ",'metadata':{'exit_code':" ++ JSNum.NumberToString a ++
  qlit ",'duration_seconds':" ++ JSNum.NumberToString b ++ lit "}}".

(** The text of a Number reads back as the same Number. *)
Definition reads_back (x : JSNum.number) : Prop :=
  JSON.parse (JSNum.NumberToString x) = Ok (JNumber x).

(** What a parser may answer on a text: not the recursion bound, and a
    strictly shorter rest. *)
Definition progresses (res : JSON.PRes JSValue) (s : jsstring) : Prop :=
  res <> JSON.PFuel /\
  forall v rest, res = JSON.POk v rest -> (List.length rest < List.length s)%nat.

(** A unit that ends a number literal: not a digit, a point or an
    exponent mark. *)
Definition ends_number (c : N) : Prop :=
  JSON.is_digit c = false /\ N.eqb c 46 = false /\ N.eqb c 101 = false /\
  N.eqb c 69 = false.

(** The switch of the diagnostic recorder. *)
Definition debug_enabled (env : Env) : bool := truthy (env_DEBUG env).

(** Specification 4.1, step 3, in its own words: the earliest open
    delimiter whose depth count returns to zero at or before the last
    close delimiter. [s] is the text from index [i] on. *)
Fixpoint spec_earliest_start (s : jsstring) (i lastCloseBrace : Z) : option Z :=
  match s with
  | [] => None
  | c :: r =>
      if N.eqb c OPEN_BRACE &&
         has_matching_close (firstn (Z.to_nat (lastCloseBrace - i)) r) 1
      then Some i
      else spec_earliest_start r (i + 1) lastCloseBrace
  end.

Definition spec_candidate (toolCallOutput : jsstring) : option jsstring :=
  let lastCloseBrace := lastIndexOf toolCallOutput CLOSE_BRACE in
  match spec_earliest_start toolCallOutput 0 lastCloseBrace with
  | Some start => Some (substring toolCallOutput start (lastCloseBrace + 1))
  | None => None
  end.

(** A payload whose braces are not nested: a sequence of top-level
    objects, each open brace closed before the next one opens. [inside]
    says whether an object is open at the head of [s]. *)
Fixpoint unnested (s : jsstring) (inside : bool) : bool :=
  match s with
  | [] => true
  | c :: r =>
      if N.eqb c OPEN_BRACE then negb inside && unnested r true
      else if N.eqb c CLOSE_BRACE then inside && unnested r false
      else unnested r inside
  end.

Definition top_level_objects (toolCallOutput : jsstring) : bool :=
  unnested toolCallOutput false.

(** Specification 4.1, step 1, in its own words: an object with the
    required fields [output] (text) and [metadata] (an object with an
    integer [exit_code] and a real [duration_seconds]). *)
Definition spec_required_fields (v : JSValue) : bool :=
  match v with
  | JObject props =>
      match prop_get props (lit "output"), prop_get props (lit "metadata") with
      | Some (JString _), Some (JObject m) =>
          match prop_get m (lit "exit_code"), prop_get m (lit "duration_seconds") with
          | Some (JNumber a), Some (JNumber b) =>
              JSNum.is_integer a && JSNum.is_finite b
          | _, _ => false
          end
      | _, _ => false
      end
  | _ => false
  end.

(** Specification 3, CommandDescriptor, in its own words: [cmd] is not
    empty and [timeout_ms], when present, is a non-negative integer. *)
Definition spec_descriptor_invariant (d : ExecInput) : Prop :=
  cmd d <> [] /\
  match timeoutInMillis d with
  | Some x => JSNum.is_integer x = true /\ JSNum.is_negative x = false
  | None => True
  end.

(** The tasks a trace starts. *)
Definition spawned (t : list Effect) : list Task :=
  flat_map (fun e => match e with Spawn task => [task] | Console _ => [] end) t.

(** The payloads of the claims. *)
Definition PAYLOAD_MISSING_BRACE : jsstring :=
  qlit "{'output':'hello','metadata':{'exit_code':0,'duration_seconds':1.5}".
Definition PAYLOAD_TRAILING_GARBAGE : jsstring :=
  qlit "{'output':'a','metadata':{'exit_code':0,'duration_seconds':0}}TRAILING_GARBAGE{".
Definition PAYLOAD_NO_FIELDS : jsstring := qlit "{'a':1".

Definition DEBUG_OFF : Env := {| env_DEBUG := None |}.
Definition DEBUG_ON : Env := {| env_DEBUG := Some (lit "1") |}.

(** *** The outcome of the decoder without its trace

    The next four definitions restate the outcome of [direct_decode],
    [close_brace_patch], [extract_object] and [decode_stages]; the lemmas
    [direct_decode_outcome], [close_brace_patch_outcome],
    [extract_object_outcome] and [decode_stages_outcome] prove that they
    are the outcomes, in every environment. *)

Definition direct_result (toolCallOutput : jsstring) : Exc ToolResult :=
  match JSON.parse toolCallOutput with
  | Throw e => Throw e
  | Ok parsed =>
      match destructure_output_metadata parsed with
      | Throw e => Throw e
      | Ok (o, m) => Ok {| output := o; metadata := m |}
      end
  end.

Definition patch_result (toolCallOutput : jsstring) : option ToolResult :=
  match JSON.parse (toolCallOutput ++ [CLOSE_BRACE]) with
  | Throw _ => None
  | Ok parsed =>
      match destructure_output_metadata parsed with
      | Throw _ => None
      | Ok (o, m) =>
          match add_string o NOTE_FIXED with
          | Throw _ => None
          | Ok annotated => Some {| output := annotated; metadata := m |}
          end
      end
  end.

Definition extract_result (toolCallOutput : jsstring) : option ToolResult :=
  match JSON.parse (possibleJson toolCallOutput) with
  | Throw _ => None
  | Ok parsedObj =>
      if has_property parsedObj (lit "output") &&
         has_property parsedObj (lit "metadata")
      then
        match get_property parsedObj (lit "output") with
        | Throw _ => None
        | Ok o =>
            match add_string o NOTE_RECOVERED with
            | Throw _ => None
            | Ok annotated =>
                match get_property parsedObj (lit "metadata") with
                | Throw _ => None
                | Ok m => Some {| output := annotated; metadata := m |}
                end
            end
        end
      else None
  end.

(** The outcome of [parseToolCallArguments] without its trace
    ([parseToolCallArguments_outcome]). [field] reads a property of an
    object or an array. *)
Definition is_container (v : JSValue) : bool :=
  match v with
  | JObject _ | JArray _ => true
  | _ => false
  end.

Definition field (v : JSValue) (k : jsstring) : JSValue :=
  match get_property v k with
  | Ok x => x
  | Throw _ => JUndefined
  end.

Definition arguments_result (toolCallArguments : jsstring) : option ExecInput :=
  match JSON.parse toolCallArguments with
  | Throw _ => None
  | Ok json =>
      if is_container json then
        match (match toStringArray (field json (lit "cmd")) with
               | Some a => Some a
               | None => toStringArray (field json (lit "command"))
               end) with
        | None => None
        | Some commandArray =>
            Some {| cmd := commandArray;
                    workdir := match field json (lit "workdir") with
                               | JString s => Some s
                               | _ => None
                               end;
                    timeoutInMillis := match field json (lit "timeout") with
                                       | JNumber x => Some x
                                       | _ => None
                                       end |}
        end
      else None
  end.

(** The stage that produced the result of a call (the four cases of the
    recovery chain). *)
Inductive RecoveryOutcome : Type :=
| Direct (r : ToolResult)
| PatchedClose (r : ToolResult)
| ExtractedObject (r : ToolResult)
| Exhausted (parseErr : JSError).

Definition recovery_outcome (toolCallOutput : jsstring) : RecoveryOutcome :=
  match direct_result toolCallOutput with
  | Ok r => Direct r
  | Throw parseErr =>
      if 0 <? JSStr.length toolCallOutput then
        match (if truncated_guard toolCallOutput
               then patch_result toolCallOutput else None) with
        | Some r => PatchedClose r
        | None =>
            match (if extract_guard toolCallOutput
                   then extract_result toolCallOutput else None) with
            | Some r => ExtractedObject r
            | None => Exhausted parseErr
            end
        end
      else Exhausted parseErr
  end.

Definition stages_result (toolCallOutput : jsstring) : Exc ToolResult :=
  match recovery_outcome toolCallOutput with
  | Direct r | PatchedClose r | ExtractedObject r => Ok r
  | Exhausted parseErr => Throw parseErr
  end.

(** The result of [parseToolCallOutput]. *)
Definition decode_result (toolCallOutput : jsstring) : ToolResult :=
  match stages_result toolCallOutput with
  | Ok r => r
  | Throw _ => fallback_result toolCallOutput
  end.

From Stdlib Require Import Sorting.Sorted Sorting.Permutation.

(** ** Definitions used to state the further properties *)

(** [v] is a plain object (not [null], not an array). *)
Definition is_object (v : JSValue) : bool :=
  match v with
  | JObject _ => true
  | _ => false
  end.

(** [s.charAt(i)] for an integer [i]: the unit at that index, the empty
    string when there is none. *)
Definition charAt (s : jsstring) (i : Z) : jsstring :=
  if (0 <=? i) && (i <? JSStr.length s)
  then firstn 1 (skipn (Z.to_nat i) s)
  else [].

(** [JSON.stringify(v)] for an object [v] (an object always has a JSON
    text). *)
Definition stringify_object (props : list (jsstring * JSValue)) : jsstring :=
  match JSON.serialize (JObject props) with
  | Some t => t
  | None => []
  end.

(** ** debug-json-test.ts *)

Module DebugJsonTest.

(** Line 107. *)
Definition chars : jsstring :=
  lit "ABCDEFGHIJKLMNOPQRSTUVWXYZabcdefghijklmnopqrstuvwxyz0123456789".

(** Lines 111-114: [n] more units of a chunk. [rnd k] is the value of
    [Math.floor(Math.random() * chars.length)] at the [k]-th draw of the
    call. *)
Fixpoint chunk (rnd : nat -> Z) (k n : nat) : jsstring :=
  match n with
  | O => []
  | S n' => charAt chars (rnd k) ++ chunk rnd (S k) n'
  end.

(** Lines 110-116: the loop, with [k] draws made so far. Every turn adds
    a line feed at least, so [length - 100] turns are enough. *)
Fixpoint fill (rnd : nat -> Z) (turns k : nat) (longOutput : jsstring)
  (length : Z) : jsstring :=
  match turns with
  | O => longOutput
  | S t =>
      if JSStr.length longOutput <? length - 100
      then fill rnd t (k + 80) (longOutput ++ chunk rnd k 80 ++ [NEWLINE]) length
      else longOutput
  end.

Definition longOutput (rnd : nat -> Z) (length : Z) : jsstring :=
  fill rnd (Z.to_nat (length - 100)) 0 [] length.

(** [generateTestOutput(length)] (lines 104-126), for an integer
    [length]. *)
Definition generateTestOutput (rnd : nat -> Z) (length : Z) : jsstring :=
  stringify_object
    [ (lit "output", JString (longOutput rnd length));
      (lit "metadata",
       JObject [ (lit "exit_code", JNumber (JSNum.of_Z 0));
                 (lit "duration_seconds",
                  JNumber (JSNum.of_decimal false 1234 (-3))) ]) ].

(** Lines 70-75: the four places where [testCorruptedJson] cuts. *)
Definition truncatedPoints (fullJson : jsstring) : list Z :=
  [ JSStr.length fullJson - 1;
    JSStr.length fullJson - 5;
    lastIndexOf fullJson CLOSE_BRACE;
    lastIndexOf fullJson QUOTE + 1 ].

(** Line 78: the texts it passes to [parseToolCallOutput]. *)
Definition truncatedJsons (fullJson : jsstring) : list jsstring :=
  List.map (fun point => substring fullJson 0 point) (truncatedPoints fullJson).

End DebugJsonTest.

(** The text [JSON.stringify] writes between the brackets for an array of
    strings ([serialize_string_array]). *)
Definition string_elements (l : list jsstring) : jsstring :=
  match l with
  | [] => []
  | s :: r => JSON.quote s ++ flat_map (fun x => lit "," ++ JSON.quote x) r
  end.

(** The object [{ [key]: cmd, workdir, timeout }] for a command: an absent
    field is [undefined], and [JSON.stringify] leaves it out. *)
Definition exec_input_value (key : jsstring) (d : ExecInput) : JSValue :=
  JObject [ (key, JArray (List.map JString (cmd d)));
            (lit "workdir", match workdir d with
                            | Some w => JString w
                            | None => JUndefined
                            end);
            (lit "timeout", match timeoutInMillis d with
                            | Some t => JNumber t
                            | None => JUndefined
                            end) ].

(** The text of that object. *)
Definition exec_input_text (key : jsstring) (d : ExecInput) : jsstring :=
  lit "{" ++ JSON.quote key ++ lit ":[" ++ string_elements (cmd d) ++ lit "]" ++
  match workdir d with
  | Some w => qlit ",'workdir':" ++ JSON.quote w
  | None => []
  end ++
  match timeoutInMillis d with
  | Some t => qlit ",'timeout':" ++ JSNum.NumberToString t
  | None => []
  end ++ lit "}".

(** The list [logData.potential_issues] that [analyzeToolCallOutput]
    builds for an output (debug-logger.ts, lines 105-125). *)
Definition potential_issues (output : jsstring) : list Issue :=
  (if 100000 <? JSStr.length output then [IssueTooLarge] else []) ++
  (if negb (indexOf output OPEN_BRACE =? -1) &&
      (lastIndexOf output CLOSE_BRACE <? lastIndexOf output OPEN_BRACE)
   then [IssueTruncated] else []) ++
  (if negb (JSStr.count OPEN_BRACE output =? JSStr.count CLOSE_BRACE output)
   then [IssueUnbalanced (JSStr.count OPEN_BRACE output)
                         (JSStr.count CLOSE_BRACE output)] else []) ++
  (if 0 <? Z.of_nat (List.length (filter DebugLogger.is_control output))
   then [IssueControlChars
           (Z.of_nat (List.length (filter DebugLogger.is_control output)))]
   else []).

(** ** model-utils.ts *)

Module ModelUtils.

(** Line 5. *)
Definition RECOMMENDED_MODELS : list jsstring :=
  [lit "deepseek-chat"; lit "deepseek-reasoner"].

(** Lines 13-20. *)
Definition modelMap : list (jsstring * jsstring) :=
  [ (lit "o4-mini", lit "deepseek-chat");
    (lit "o3", lit "deepseek-chat");
    (lit "gpt-4", lit "deepseek-chat");
    (lit "gpt-4.1", lit "deepseek-chat");
    (lit "gpt-4o", lit "deepseek-reasoner");
    (lit "deepseek-coder", lit "deepseek-chat") ].

(** The names that an object literal inherits from [Object.prototype]
    (ECMA-262, 20.1.3 and B.2.2): reading one of them from [modelMap]
    finds a function, or the prototype itself for [__proto__]. *)
Definition OBJECT_PROTOTYPE_NAMES : list jsstring :=
  [ lit "constructor"; lit "hasOwnProperty"; lit "isPrototypeOf";
    lit "propertyIsEnumerable"; lit "toLocaleString"; lit "toString";
    lit "valueOf"; lit "__proto__"; lit "__defineGetter__";
    lit "__defineSetter__"; lit "__lookupGetter__"; lit "__lookupSetter__" ].

(** What [modelMap[name] || name] evaluates to: a string, or the
    inherited member (an object, so truthy) found under [name]. *)
Inductive Mapped : Type :=
| MName (name : jsstring)
| MInherited (name : jsstring).

Fixpoint own_entry (m : list (jsstring * jsstring)) (k : jsstring)
  : option jsstring :=
  match m with
  | [] => None
  | (k', v) :: r => if JSStr.eqb k' k then Some v else own_entry r k
  end.

(** [mapToDeepSeekModel(openaiModel)] (lines 12-22). *)
Definition mapToDeepSeekModel (openaiModel : jsstring) : Mapped :=
  match own_entry modelMap openaiModel with
  | Some (c :: v) => MName (c :: v)
  | Some [] => MName openaiModel
  | None =>
      if existsb (JSStr.eqb openaiModel) OBJECT_PROTOTYPE_NAMES
      then MInherited openaiModel
      else MName openaiModel
  end.

(** [a < b] and [a <= b] on strings: the order of the code units, which
    [Array.prototype.sort] uses without a comparator. *)
Fixpoint str_leb (a b : jsstring) : bool :=
  match a, b with
  | [], _ => true
  | _ :: _, [] => false
  | x :: a', y :: b' =>
      if N.ltb x y then true
      else if N.ltb y x then false
      else str_leb a' b'
  end.

Fixpoint insert_sorted (x : jsstring) (l : list jsstring) : list jsstring :=
  match l with
  | [] => [x]
  | y :: r => if str_leb x y then x :: l else y :: insert_sorted x r
  end.

(** [models.sort()] for an array of strings: the sorted arrangement
    (equal strings cannot be told apart, so it is unique). *)
Fixpoint sort (l : list jsstring) : list jsstring :=
  match l with
  | [] => []
  | x :: r => insert_sorted x (sort r)
  end.

(** Lines 47-52: the identifiers pushed for the listed models. *)
Definition model_ids (listed : list JSValue) : list jsstring :=
  flat_map (fun model =>
              match model with
              | JObject props =>
                  match prop_get props (lit "id") with
                  | Some (JString id) => [id]
                  | _ => []
                  end
              | _ => []
              end) listed.

(** [fetchModels()] (lines 34-61), by what it resolves to: [apiKey] is
    [DEEPSEEK_API_KEY], [listing] what creating the client and iterating
    the list of models gives (the listed values, or an exception). The
    boolean says whether [console.warn] was called. *)
Definition fetchModels (apiKey : option jsstring) (listing : Exc (list JSValue))
  : bool * list jsstring :=
  if negb (truthy apiKey) then (false, RECOMMENDED_MODELS)
  else
    match listing with
    | Throw _ => (true, RECOMMENDED_MODELS)
    | Ok listed =>
        let models := model_ids listed in
        (false,
         if 0 <? Z.of_nat (List.length models)
         then sort models else RECOMMENDED_MODELS)
    end.

(** White space and line terminators ([String.prototype.trim], ECMA-262,
    22.1.3.32). *)
Definition is_space (c : N) : bool :=
  existsb (N.eqb c)
    [9; 10; 11; 12; 13; 32; 160; 5760; 8232; 8233; 8239; 8287; 12288; 65279]%N
  || (N.leb 8192 c && N.leb c 8202).

Fixpoint trim_start (s : jsstring) : jsstring :=
  match s with
  | c :: r => if is_space c then trim_start r else s
  | [] => []
  end.

Definition trim (s : jsstring) : jsstring :=
  rev (trim_start (rev (trim_start s))).

(** [array.includes(mapped)] for an array of strings. *)
Definition includes_mapped (l : list jsstring) (m : Mapped) : bool :=
  match m with
  | MName s => existsb (JSStr.eqb s) l
  | MInherited _ => false
  end.

(** [isModelSupportedForResponses(model)] (lines 85-122), by what it
    resolves to. [model] is [None] for [undefined] or [null]; [raced] is
    what awaiting the race at lines 104-109 gives: the list of
    [getAvailableModels()], the empty list of the timer, or an
    exception. *)
Definition isModelSupportedForResponses (model : option jsstring)
  (raced : Exc (list jsstring)) : bool :=
  match model with
  | None => true
  | Some model =>
      if JSStr.eqb (trim model) [] then true
      else
        let mappedModel := mapToDeepSeekModel model in
        if includes_mapped RECOMMENDED_MODELS mappedModel then true
        else
          match raced with
          | Throw _ => true
          | Ok models =>
              if List.length models =? 0 then true
              else includes_mapped models mappedModel
          end
  end%nat.

(** The module variable [modelsPromise] (line 32), by the list it
    resolves to; [None] is [null]. *)
Definition ModelsPromise : Type := option (list jsstring).

(** [getAvailableModels()] (lines 71-76): the new value of
    [modelsPromise], the list the returned promise resolves to, and
    whether [fetchModels] was called. [listing] is what the service would
    answer now. *)
Definition getAvailableModels (apiKey : option jsstring)
  (listing : Exc (list JSValue)) (modelsPromise : ModelsPromise)
  : ModelsPromise * list jsstring * bool :=
  match modelsPromise with
  | None =>
      let models := snd (fetchModels apiKey listing) in
      (Some models, models, true)
  | Some models => (Some models, models, false)
  end.

(** [preloadModels()] (lines 63-69): the new value of [modelsPromise] and
    whether [fetchModels] was called. *)
Definition preloadModels (apiKey : option jsstring)
  (listing : Exc (list JSValue)) (modelsPromise : ModelsPromise)
  : ModelsPromise * bool :=
  match modelsPromise with
  | None =>
      let '(p, _, fetched) := getAvailableModels apiKey listing modelsPromise in
      (p, fetched)
  | Some _ => (modelsPromise, false)
  end.

(** A sequence of calls in one process, each with what the service would
    answer at that time: the lists the calls of [getAvailableModels]
    resolve to, and the number of calls of [fetchModels]. *)
Inductive Call : Type :=
| CallPreload
| CallGetAvailable.

Fixpoint run (apiKey : option jsstring)
  (calls : list (Call * Exc (list JSValue))) (modelsPromise : ModelsPromise)
  : list (list jsstring) * nat :=
  match calls with
  | [] => ([], O)
  | (CallPreload, listing) :: rest =>
      let '(p, fetched) := preloadModels apiKey listing modelsPromise in
      let '(lists, n) := run apiKey rest p in
      (lists, if fetched then S n else n)
  | (CallGetAvailable, listing) :: rest =>
      let '(p, models, fetched) :=
        getAvailableModels apiKey listing modelsPromise in
      let '(lists, n) := run apiKey rest p in
      (models :: lists, if fetched then S n else n)
  end.

End ModelUtils.

(** * Properties *)

(** ** Strings *)

Section StringFacts.

(** [lastIndexOf] answers [-1] or an index of the text. *)
Lemma lastIndexOf_from_range (c : N) (s : jsstring) (i : Z) :
  0 <= i ->
  lastIndexOf_from c s i = -1 \/
  (i <= lastIndexOf_from c s i < i + Z.of_nat (List.length s)).
Proof.
  revert i. induction s as [|x r IH]; intros i Hi; simpl.
  - now left.
  - destruct (IH (i + 1) ltac:(lia)) as [E | R].
    + rewrite E. simpl. destruct (N.eqb x c); [right | left]; lia.
    + destruct (Z.eqb_spec (lastIndexOf_from c r (i + 1)) (-1)); [lia|].
      right. lia.
Qed.

(** No occurrence exactly when the answer is [-1]. *)
Lemma lastIndexOf_from_none (c : N) (s : jsstring) (i : Z) :
  0 <= i ->
  (lastIndexOf_from c s i = -1 <-> existsb (N.eqb c) s = false).
Proof.
  revert i. induction s as [|x r IH]; intros i Hi; simpl.
  - tauto.
  - specialize (IH (i + 1) ltac:(lia)).
    pose proof (lastIndexOf_from_range c r (i + 1) ltac:(lia)) as R.
    rewrite (N.eqb_sym c x).
    destruct (Z.eqb_spec (lastIndexOf_from c r (i + 1)) (-1)) as [E | NE].
    + destruct (N.eqb x c); simpl.
      * split; [lia | discriminate].
      * split; intros _; [now apply IH | reflexivity].
    + split; [intros E; contradiction|].
      intros H. apply orb_false_iff in H. destruct H as [_ H].
      apply IH in H. contradiction.
Qed.

End StringFacts.

(** ** JSON.parse never reaches its recursion bound *)

Section ParseFuel.

Import JSON.

Lemma skip_ws_length (s : jsstring) :
  (List.length (skip_ws s) <= List.length s)%nat.
Proof.
  induction s as [|c r IH]; simpl; [lia|].
  destruct (is_ws c); simpl; lia.
Qed.

Lemma parse_string_body_length (s str rest : jsstring) :
  parse_string_body s = Some (str, rest) ->
  (List.length rest < List.length s)%nat.
Proof.
  remember (List.length s) as n eqn:Hn.
  revert s str rest Hn.
  induction n as [n IH] using lt_wf_ind.
  intros s str rest Hn H. destruct s as [|c r]; simpl in H; [discriminate|].
  simpl in Hn.
  destruct (N.eqb c QUOTE).
  { inversion H; subst. simpl. lia. }
  destruct (N.eqb c BACKSLASH).
  { destruct r as [|e r1]; [discriminate|].
    destruct (N.eqb e 117).
    - destruct r1 as [|h1 [|h2 [|h3 [|h4 r2]]]]; try discriminate.
      destruct (hex4 h1 h2 h3 h4); [|discriminate].
      destruct (parse_string_body r2) as [[str' rest']|] eqn:E; [|discriminate].
      inversion H; subst.
      pose proof (IH (List.length r2) ltac:(simpl; lia) r2 _ _ eq_refl E).
      simpl. lia.
    - destruct (simple_escape e); [|discriminate].
      destruct (parse_string_body r1) as [[str' rest']|] eqn:E; [|discriminate].
      inversion H; subst.
      pose proof (IH (List.length r1) ltac:(simpl; lia) r1 _ _ eq_refl E).
      simpl. lia. }
  destruct (N.ltb c 32); [discriminate|].
  destruct (parse_string_body r) as [[str' rest']|] eqn:E; [|discriminate].
  inversion H; subst.
  pose proof (IH (List.length r) ltac:(simpl; lia) r _ _ eq_refl E).
  simpl. lia.
Qed.

Lemma take_digits_length (s : jsstring) (acc n v k : Z) (rest : jsstring) :
  take_digits s acc n = (v, k, rest) ->
  (List.length rest <= List.length s)%nat.
Proof.
  revert acc n. induction s as [|c r IH]; intros acc n H; simpl in H.
  - inversion H; subst. simpl. lia.
  - destruct (is_digit c).
    + apply IH in H. simpl. lia.
    + inversion H; subst. lia.
Qed.

Lemma parse_int_part_length (s : jsstring) (v : Z) (rest : jsstring) :
  parse_int_part s = Some (v, rest) ->
  (List.length rest < List.length s)%nat.
Proof.
  unfold parse_int_part. destruct s as [|c r]; [discriminate|].
  destruct (N.eqb c 48).
  - intros H; inversion H; subst. simpl. lia.
  - destruct (is_digit c); [|discriminate].
    destruct (take_digits r (digit_val c) 1) as [[v' k] rest'] eqn:E.
    intros H; inversion H; subst.
    apply take_digits_length in E. simpl. lia.
Qed.

Lemma parse_frac_part_length (m : Z) (s : jsstring) (v k : Z) (rest : jsstring) :
  parse_frac_part m s = Some (v, k, rest) ->
  (List.length rest <= List.length s)%nat.
Proof.
  unfold parse_frac_part. destruct s as [|c r].
  - intros H; inversion H; subst. lia.
  - destruct (N.eqb c 46).
    + destruct (take_digits r m 0) as [[v' k'] rest'] eqn:E.
      destruct (k' =? 0); [discriminate|].
      intros H; inversion H; subst.
      apply take_digits_length in E. simpl. lia.
    + intros H; inversion H; subst. lia.
Qed.

Lemma parse_exp_part_length (s : jsstring) (v : Z) (rest : jsstring) :
  parse_exp_part s = Some (v, rest) ->
  (List.length rest <= List.length s)%nat.
Proof.
  unfold parse_exp_part. destruct s as [|c r].
  - intros H; inversion H; subst. lia.
  - destruct (N.eqb c 101 || N.eqb c 69).
    + assert (forall neg r1, (List.length r1 <= List.length r)%nat ->
                (let '(v0, n, rest0) := take_digits r1 0 0 in
                 if n =? 0 then None
                 else Some (if (neg : bool) then - v0 else v0, rest0)) = Some (v, rest) ->
                (List.length rest <= List.length (c :: r))%nat) as A.
      { intros neg r1 L.
        destruct (take_digits r1 0 0) as [[v' k'] rest'] eqn:E.
        destruct (k' =? 0); [discriminate|].
        intros H; inversion H; subst.
        apply take_digits_length in E. simpl. lia. }
      destruct r as [|sgn r']; [apply (A false); simpl; lia|].
      destruct (N.eqb sgn 45); [apply (A true); simpl; lia|].
      destruct (N.eqb sgn 43); [apply (A false); simpl; lia|].
      apply (A false); simpl; lia.
    + intros H; inversion H; subst. lia.
Qed.

Lemma parse_number_length (s : jsstring) (x : JSNum.number) (rest : jsstring) :
  parse_number s = Some (x, rest) ->
  (List.length rest < List.length s)%nat.
Proof.
  unfold parse_number.
  set (p := match s with
            | c :: r => if N.eqb c 45 then (true, r) else (false, s)
            | [] => (false, s)
            end).
  assert (List.length (snd p) <= List.length s)%nat as L.
  { subst p. destruct s as [|c r]; simpl; [lia|].
    destruct (N.eqb c 45); simpl; lia. }
  destruct p as [neg s1]. simpl in L.
  destruct (parse_int_part s1) as [[i s2]|] eqn:E1; [|discriminate].
  destruct (parse_frac_part i s2) as [[[m k] s3]|] eqn:E2; [|discriminate].
  destruct (parse_exp_part s3) as [[e s4]|] eqn:E3; [|discriminate].
  intros H; inversion H; subst.
  apply parse_int_part_length in E1.
  apply parse_frac_part_length in E2.
  apply parse_exp_part_length in E3. lia.
Qed.

Lemma expect_length (word s rest : jsstring) :
  expect word s = Some rest -> (List.length rest <= List.length s)%nat.
Proof.
  revert s. induction word as [|w word' IH]; intros s H; simpl in H.
  - inversion H; subst. lia.
  - destruct s as [|c r]; [discriminate|].
    destruct (N.eqb w c); [|discriminate].
    apply IH in H. simpl. lia.
Qed.

Lemma progresses_err (s : jsstring) : progresses PErr s.
Proof. split; [discriminate | intros v rest H; discriminate]. Qed.

Lemma progresses_ok (v : JSValue) (rest s : jsstring) :
  (List.length rest < List.length s)%nat -> progresses (POk v rest) s.
Proof.
  intros L. split; [discriminate|]. intros v' rest' H. inversion H; subst. exact L.
Qed.

Lemma progresses_weaken (res : PRes JSValue) (s s' : jsstring) :
  progresses res s -> (List.length s <= List.length s')%nat -> progresses res s'.
Proof.
  intros [A B] L. split; [exact A|]. intros v rest H. specialize (B v rest H). lia.
Qed.

#[local] Arguments expect : simpl never.

Lemma parse_progresses (fuel : nat) :
  (forall s, (2 * List.length s < fuel)%nat -> progresses (parse_value fuel s) s) /\
  (forall acc s, (2 * List.length s + 1 < fuel)%nat ->
                 progresses (parse_elements fuel acc s) s) /\
  (forall acc s, (2 * List.length s + 1 < fuel)%nat ->
                 progresses (parse_members fuel acc s) s).
Proof.
  induction fuel as [|f [IHv [IHe IHm]]].
  { repeat split; intros; lia. }
  split; [|split].
  - (* parse_value *)
    intros s L. simpl.
    pose proof (skip_ws_length s) as Ws.
    destruct (skip_ws s) as [|c r] eqn:Es; [apply progresses_err|].
    simpl in Ws.
    destruct (N.eqb c OPEN_BRACE).
    { pose proof (skip_ws_length r) as Wr.
      destruct (skip_ws r) as [|c' r'] eqn:Er; [apply progresses_err|].
      simpl in Wr.
      destruct (N.eqb c' CLOSE_BRACE); [apply progresses_ok; lia|].
      apply progresses_weaken with (s := c' :: r'); [|simpl; lia].
      apply IHm. simpl. lia. }
    destruct (N.eqb c OPEN_BRACKET).
    { pose proof (skip_ws_length r) as Wr.
      destruct (skip_ws r) as [|c' r'] eqn:Er; [apply progresses_err|].
      simpl in Wr.
      destruct (N.eqb c' CLOSE_BRACKET); [apply progresses_ok; lia|].
      apply progresses_weaken with (s := c' :: r'); [|simpl; lia].
      apply IHe. simpl. lia. }
    destruct (N.eqb c QUOTE).
    { destruct (parse_string_body r) as [[str rest]|] eqn:E; [|apply progresses_err].
      apply parse_string_body_length in E. apply progresses_ok. lia. }
    destruct (N.eqb c 116).
    { match goal with |- context [expect ?w r] =>
        destruct (expect w r) as [rest|] eqn:E end; [|apply progresses_err].
      apply expect_length in E. apply progresses_ok. lia. }
    destruct (N.eqb c 102).
    { match goal with |- context [expect ?w r] =>
        destruct (expect w r) as [rest|] eqn:E end; [|apply progresses_err].
      apply expect_length in E. apply progresses_ok. lia. }
    destruct (N.eqb c 110).
    { match goal with |- context [expect ?w r] =>
        destruct (expect w r) as [rest|] eqn:E end; [|apply progresses_err].
      apply expect_length in E. apply progresses_ok. lia. }
    destruct (parse_number (c :: r)) as [[x rest]|] eqn:E; [|apply progresses_err].
    apply parse_number_length in E. apply progresses_ok. simpl in E. lia.
  - (* parse_elements *)
    intros acc s L. simpl.
    destruct (IHv s ltac:(lia)) as [NF Sh].
    destruct (parse_value f s) as [v rest| |] eqn:E;
      [|apply progresses_err|contradiction].
    specialize (Sh v rest eq_refl).
    pose proof (skip_ws_length rest) as Wr.
    destruct (skip_ws rest) as [|c r] eqn:Er; [apply progresses_err|].
    simpl in Wr.
    destruct (N.eqb c 44).
    { apply progresses_weaken with (s := r); [|lia]. apply IHe. lia. }
    destruct (N.eqb c CLOSE_BRACKET); [apply progresses_ok; lia|].
    apply progresses_err.
  - (* parse_members *)
    intros acc s L. simpl.
    pose proof (skip_ws_length s) as Ws.
    destruct (skip_ws s) as [|c r] eqn:Es; [apply progresses_err|].
    simpl in Ws.
    destruct (N.eqb c QUOTE); [|apply progresses_err].
    destruct (parse_string_body r) as [[key rest]|] eqn:Ek; [|apply progresses_err].
    apply parse_string_body_length in Ek.
    pose proof (skip_ws_length rest) as Wr.
    destruct (skip_ws rest) as [|c1 r1] eqn:Er; [apply progresses_err|].
    simpl in Wr.
    destruct (N.eqb c1 58); [|apply progresses_err].
    destruct (IHv r1 ltac:(lia)) as [NF Sh].
    destruct (parse_value f r1) as [v rest'| |] eqn:E;
      [|apply progresses_err|contradiction].
    specialize (Sh v rest' eq_refl).
    pose proof (skip_ws_length rest') as Wr'.
    destruct (skip_ws rest') as [|c2 r2] eqn:Er'; [apply progresses_err|].
    simpl in Wr'.
    destruct (N.eqb c2 44).
    { apply progresses_weaken with (s := r2); [|lia]. apply IHm. lia. }
    destruct (N.eqb c2 CLOSE_BRACE); [apply progresses_ok; lia|].
    apply progresses_err.
Qed.

(** The bound [parse] passes is never the reason for its answer. *)
Lemma parse_value_fuel (text : jsstring) :
  parse_value (S (2 * List.length text)) text <> PFuel.
Proof.
  destruct (parse_progresses (S (2 * List.length text))) as [Hv _].
  apply Hv. lia.
Qed.

End ParseFuel.

(** ** The effect monad *)

Section MonadFacts.

Context {A B : Type}.

Lemma outcome_bind (m : M A) (k : A -> M B) (env : Env) :
  snd (bind m k env) =
  match snd (m env) with
  | Ok a => snd (k a env)
  | Throw e => Throw e
  end.
Proof.
  unfold bind. destruct (m env) as [t [a|e]]; simpl; [|reflexivity].
  destruct (k a env); reflexivity.
Qed.

Lemma trace_bind (m : M A) (k : A -> M B) (env : Env) :
  fst (bind m k env) =
  match snd (m env) with
  | Ok a => fst (m env) ++ fst (k a env)
  | Throw e => fst (m env)
  end.
Proof.
  unfold bind. destruct (m env) as [t [a|e]]; simpl; [|reflexivity].
  destruct (k a env); reflexivity.
Qed.

Lemma outcome_try_catch (m : M A) (h : JSError -> M A) (env : Env) :
  snd (try_catch m h env) =
  match snd (m env) with
  | Ok a => Ok a
  | Throw e => snd (h e env)
  end.
Proof.
  unfold try_catch. destruct (m env) as [t [a|e]]; simpl; [reflexivity|].
  destruct (h e env); reflexivity.
Qed.

Lemma trace_try_catch (m : M A) (h : JSError -> M A) (env : Env) :
  fst (try_catch m h env) =
  match snd (m env) with
  | Ok a => fst (m env)
  | Throw e => fst (m env) ++ fst (h e env)
  end.
Proof.
  unfold try_catch. destruct (m env) as [t [a|e]]; simpl; [reflexivity|].
  destruct (h e env); reflexivity.
Qed.

End MonadFacts.

(** Unfolding of the primitive computations and of sequencing, on the
    outcome side. *)
Ltac outcome_step :=
  rewrite ?outcome_bind, ?outcome_try_catch;
  cbn [snd fst lift log spawn ret throw when getenv_DEBUG].

(** ** The diagnostic recorder *)

Section RecorderFacts.

Lemma log_issues_outcome (issues : list Issue) (env : Env) :
  snd (fold_right (fun issue k => log (LDebugIssue issue) ;; k) (ret tt) issues env)
  = Ok tt.
Proof.
  induction issues as [|i r IH]; simpl; [reflexivity|].
  rewrite outcome_bind. simpl. exact IH.
Qed.

(** The entry points return normally whatever the switch says. *)
Lemma logJsonParseAttempt_outcome s success error env :
  snd (DebugLogger.logJsonParseAttempt s success error env) = Ok tt.
Proof.
  unfold DebugLogger.logJsonParseAttempt. rewrite outcome_bind. simpl.
  destruct (truthy (env_DEBUG env)); simpl; [|reflexivity].
  destruct success, error; reflexivity.
Qed.

Lemma logCommandExecution_outcome command output exitCode duration env :
  snd (DebugLogger.logCommandExecution command output exitCode duration env) = Ok tt.
Proof.
  unfold DebugLogger.logCommandExecution. rewrite outcome_bind. simpl.
  destruct (truthy (env_DEBUG env)); reflexivity.
Qed.

Lemma analyzeToolCallOutput_outcome functionName argsString output env :
  snd (DebugLogger.analyzeToolCallOutput functionName argsString output env) = Ok tt.
Proof.
  unfold DebugLogger.analyzeToolCallOutput. rewrite outcome_bind. simpl.
  destruct (truthy (env_DEBUG env)); simpl; [|reflexivity].
  rewrite !outcome_bind. simpl.
  match goal with |- context [fold_right _ _ ?l] => generalize l end.
  intros issues. destruct issues as [|i r]; simpl; [reflexivity|].
  rewrite !outcome_bind. simpl.
  rewrite log_issues_outcome. reflexivity.
Qed.

(** With the switch off they do nothing at all. *)
Lemma logJsonParseAttempt_off s success error env :
  debug_enabled env = false ->
  DebugLogger.logJsonParseAttempt s success error env = ([], Ok tt).
Proof.
  unfold debug_enabled, DebugLogger.logJsonParseAttempt, bind, getenv_DEBUG.
  intros ->. reflexivity.
Qed.

Lemma logCommandExecution_off command output exitCode duration env :
  debug_enabled env = false ->
  DebugLogger.logCommandExecution command output exitCode duration env = ([], Ok tt).
Proof.
  unfold debug_enabled, DebugLogger.logCommandExecution, bind, getenv_DEBUG.
  intros ->. reflexivity.
Qed.

Lemma analyzeToolCallOutput_off functionName argsString output env :
  debug_enabled env = false ->
  DebugLogger.analyzeToolCallOutput functionName argsString output env = ([], Ok tt).
Proof.
  unfold debug_enabled, DebugLogger.analyzeToolCallOutput, bind, getenv_DEBUG.
  intros ->. reflexivity.
Qed.

End RecorderFacts.

(** ** The result decoder: outcome of each stage *)

Section DecoderOutcome.

Variable toolCallOutput : jsstring.
Variable env : Env.

(** Lines 51-55, without the trace. *)
Lemma direct_decode_outcome :
  snd (direct_decode toolCallOutput env) = direct_result toolCallOutput.
Proof.
  unfold direct_decode, direct_result. repeat outcome_step.
  destruct (JSON.parse toolCallOutput) as [parsed|e]; [|reflexivity].
  repeat outcome_step.
  destruct (destructure_output_metadata parsed) as [[o m]|e]; [|reflexivity].
  repeat outcome_step. rewrite logJsonParseAttempt_outcome. reflexivity.
Qed.

(** Lines 70-85: the block never throws. *)
Lemma close_brace_patch_outcome :
  snd (close_brace_patch toolCallOutput env) = Ok (patch_result toolCallOutput).
Proof.
  unfold close_brace_patch, patch_result. repeat outcome_step.
  destruct (JSON.parse (toolCallOutput ++ [CLOSE_BRACE])) as [parsed|e].
  - repeat outcome_step.
    destruct (destructure_output_metadata parsed) as [[o m]|e].
    + repeat outcome_step. rewrite logJsonParseAttempt_outcome.
      repeat outcome_step.
      destruct (add_string o NOTE_FIXED) as [annotated|e]; [reflexivity|].
      repeat outcome_step. rewrite logJsonParseAttempt_outcome. reflexivity.
    + repeat outcome_step. rewrite logJsonParseAttempt_outcome. reflexivity.
  - repeat outcome_step. rewrite logJsonParseAttempt_outcome. reflexivity.
Qed.

(** Lines 90-129: the block never throws. *)
Lemma extract_object_outcome :
  snd (extract_object toolCallOutput env) = Ok (extract_result toolCallOutput).
Proof.
  unfold extract_object, extract_result. repeat outcome_step.
  destruct (JSON.parse (possibleJson toolCallOutput)) as [parsedObj|e].
  - repeat outcome_step. rewrite logJsonParseAttempt_outcome.
    assert (match typeof parsedObj with TObject => true | _ => false end &&
            negb match parsedObj with JNull => true | _ => false end &&
            has_property parsedObj (lit "output") &&
            has_property parsedObj (lit "metadata") =
            has_property parsedObj (lit "output") &&
            has_property parsedObj (lit "metadata")) as ->.
    { destruct parsedObj; reflexivity. }
    destruct (has_property parsedObj (lit "output") &&
              has_property parsedObj (lit "metadata")); [|reflexivity].
    repeat outcome_step.
    destruct (get_property parsedObj (lit "output")) as [o|e].
    + repeat outcome_step.
      destruct (add_string o NOTE_RECOVERED) as [annotated|e].
      * repeat outcome_step.
        destruct (get_property parsedObj (lit "metadata")) as [m|e]; [reflexivity|].
        repeat outcome_step. rewrite logJsonParseAttempt_outcome. reflexivity.
      * repeat outcome_step. rewrite logJsonParseAttempt_outcome. reflexivity.
    + repeat outcome_step. rewrite logJsonParseAttempt_outcome. reflexivity.
  - repeat outcome_step. rewrite logJsonParseAttempt_outcome. reflexivity.
Qed.

(** Lines 56-135. *)
Lemma recover_outcome (parseErr : JSError) :
  direct_result toolCallOutput = Throw parseErr ->
  snd (recover toolCallOutput parseErr env) = stages_result toolCallOutput.
Proof.
  intros Hd. unfold recover, stages_result, recovery_outcome. rewrite Hd.
  repeat outcome_step. rewrite logJsonParseAttempt_outcome.
  destruct (0 <? JSStr.length toolCallOutput); repeat outcome_step;
    [|reflexivity].
  destruct (truncated_guard toolCallOutput); repeat outcome_step.
  - rewrite close_brace_patch_outcome.
    destruct (patch_result toolCallOutput) as [r|]; repeat outcome_step;
      [reflexivity|].
    destruct (extract_guard toolCallOutput); repeat outcome_step.
    + rewrite extract_object_outcome.
      destruct (extract_result toolCallOutput); reflexivity.
    + reflexivity.
  - destruct (extract_guard toolCallOutput); repeat outcome_step.
    + rewrite extract_object_outcome.
      destruct (extract_result toolCallOutput); reflexivity.
    + reflexivity.
Qed.

(** Lines 44-135. *)
Lemma decode_stages_outcome :
  snd (decode_stages toolCallOutput env) = stages_result toolCallOutput.
Proof.
  unfold decode_stages. repeat outcome_step.
  assert (snd (when (truthy (env_DEBUG env))
                    (log (LAttemptingToParse toolCallOutput)) env) = Ok tt) as ->.
  { destruct (truthy (env_DEBUG env)); reflexivity. }
  repeat outcome_step. rewrite direct_decode_outcome.
  destruct (direct_result toolCallOutput) as [r|parseErr] eqn:Hd.
  - unfold stages_result, recovery_outcome. rewrite Hd. reflexivity.
  - now apply recover_outcome.
Qed.

(** Lines 136-181: the handler returns normally. *)
Lemma fallback_outcome (err : JSError) :
  snd (fallback toolCallOutput err env) = Ok (fallback_result toolCallOutput).
Proof.
  unfold fallback, fallback_result. cbn [ei_possibleTruncation].
  repeat outcome_step.
  destruct (possibleTruncation toolCallOutput); reflexivity.
Qed.

(** Lines 40-182. *)
Lemma parseToolCallOutput_outcome :
  snd (parseToolCallOutput toolCallOutput env) = Ok (decode_result toolCallOutput).
Proof.
  unfold parseToolCallOutput, decode_result. repeat outcome_step.
  rewrite decode_stages_outcome.
  destruct (stages_result toolCallOutput); [reflexivity|].
  apply fallback_outcome.
Qed.

End DecoderOutcome.

(** ** What JSON.parse can return *)

Section ParseShapes.

Import JSON.

#[local] Arguments expect : simpl never.
#[local] Arguments parse_number : simpl never.
#[local] Arguments parse_string_body : simpl never.
#[local] Arguments skip_ws : simpl never.

Ltac break_match H :=
  match type of H with
  | context [match ?x with _ => _ end] => destruct x eqn:?; try discriminate
  end.

(** The element parser answers with an array, the member parser with an
    object. *)
Lemma parse_containers (fuel : nat) :
  (forall acc s v rest,
     parse_elements fuel acc s = POk v rest -> exists l, v = JArray l) /\
  (forall acc s v rest,
     parse_members fuel acc s = POk v rest -> exists p, v = JObject p).
Proof.
  induction fuel as [|f [IHe IHm]]; [split; intros; discriminate|].
  split; intros acc s v rest H; simpl in H.
  - repeat break_match H.
    + eapply IHe; eassumption.
    + injection H as <- _. eauto.
  - repeat break_match H.
    + eapply IHm; eassumption.
    + injection H as <- _. eauto.
Qed.

(** A parsed value is never [undefined]. *)
Lemma parse_value_defined (fuel : nat) (s : jsstring) (v : JSValue)
  (rest : jsstring) :
  parse_value fuel s = POk v rest -> v <> JUndefined.
Proof.
  destruct fuel as [|f]; [discriminate|]. simpl. intros H.
  destruct (parse_containers f) as [He Hm].
  repeat break_match H;
    try (injection H as <- _; discriminate);
    try (apply Hm in H; destruct H as [p ->]; discriminate);
    try (apply He in H; destruct H as [l ->]; discriminate).
Qed.

Lemma parse_defined (text : jsstring) (v : JSValue) :
  parse text = Ok v -> v <> JUndefined.
Proof.
  unfold parse. intros H.
  destruct (parse_value (S (2 * List.length text)) text) as [v' rest| |] eqn:E;
    try discriminate.
  destruct (skip_ws rest); [|discriminate].
  injection H as <-. eapply parse_value_defined; eassumption.
Qed.

(** When the answer is a number, the text is a number literal, possibly
    after white space. *)
Lemma parse_value_number (fuel : nat) (s : jsstring) (x : JSNum.number)
  (rest : jsstring) :
  parse_value fuel s = POk (JNumber x) rest ->
  parse_number (skip_ws s) = Some (x, rest) /\
  exists c r, skip_ws s = c :: r /\
    N.eqb c OPEN_BRACE = false /\ N.eqb c OPEN_BRACKET = false /\
    N.eqb c QUOTE = false /\ N.eqb c 116 = false /\ N.eqb c 102 = false /\
    N.eqb c 110 = false.
Proof.
  destruct fuel as [|f]; [discriminate|]. simpl. intros H.
  destruct (parse_containers f) as [He Hm].
  repeat break_match H;
    try (injection H as _ _; discriminate);
    try (apply Hm in H; destruct H as [p H]; discriminate);
    try (apply He in H; destruct H as [l H]; discriminate).
  injection H as <- <-. split; [reflexivity|].
  eexists _, _. split; [reflexivity|]. repeat split; assumption.
Qed.

End ParseShapes.

(** ** The result decoder: totality and the fallback *)

Section Fallback.

(** The test of lines 154-156 in words. *)
Lemma possibleTruncation_spec (raw : jsstring) :
  possibleTruncation raw = true <->
  raw <> [] /\ endsWith raw CLOSE_BRACE = false /\ includes raw OPEN_BRACE = true.
Proof.
  unfold possibleTruncation, JSStr.length.
  rewrite !andb_true_iff, negb_true_iff, Z.ltb_lt.
  destruct raw as [|c r]; simpl List.length.
  - split; [intros [[H _] _]; lia | intros [H _]; congruence].
  - split.
    + intros [[_ H2] H3]. repeat split; auto; discriminate.
    + intros [_ [H2 H3]]. repeat split; auto; lia.
Qed.

(** A text without open brace leaves nothing to recover: when the
    standard parse fails, every stage is exhausted. *)
Lemma no_open_brace_exhausted (raw : jsstring) (parseErr : JSError) :
  includes raw OPEN_BRACE = false ->
  direct_result raw = Throw parseErr ->
  recovery_outcome raw = Exhausted parseErr.
Proof.
  intros Hin Hd. unfold recovery_outcome. rewrite Hd.
  assert (lastIndexOf raw OPEN_BRACE = -1) as Hl.
  { apply lastIndexOf_from_none; [lia | exact Hin]. }
  unfold truncated_guard, extract_guard. rewrite Hl. simpl.
  destruct (0 <? JSStr.length raw); reflexivity.
Qed.

End Fallback.

(** C1. For every input text and every environment, [parseToolCallOutput]
    returns a result and does not throw; when the stages throw (every
    failure path), the result is the fallback value, whose output is one
    of the two literal messages and whose [exit_code] is 1. *)
Theorem parseToolCallOutput_total (raw : jsstring) (env : Env) :
  exists trace r,
    parseToolCallOutput raw env = (trace, Ok r) /\
    match snd (decode_stages raw env) with
    | Ok r' => r = r'
    | Throw _ =>
        r = fallback_result raw /\
        exit_code r = Some (JSNum.of_Z 1) /\
        (output r = JString MSG_TRUNCATED \/ output r = JString MSG_FAILED)
    end.
Proof.
  pose proof (parseToolCallOutput_outcome raw env) as H.
  destruct (parseToolCallOutput raw env) as [trace x]. simpl in H. subst x.
  exists trace, (decode_result raw). split; [reflexivity|].
  rewrite decode_stages_outcome. unfold decode_result.
  destruct (stages_result raw) as [r'|e]; [reflexivity|].
  split; [reflexivity|]. split; [reflexivity|].
  unfold fallback_result. simpl.
  destruct (possibleTruncation raw); [left | right]; reflexivity.
Qed.

(** C4. When all recovery stages are exhausted (the stages throw), the
    result has [metadata = { exit_code: 1, duration_seconds: 0 }]; its
    output is the truncation message exactly when the text is not empty,
    does not end with a close brace and contains an open brace, and the
    generic message otherwise; in particular the generic message for the
    empty text and for a text without braces. *)
Theorem fallback_when_exhausted (raw : jsstring) (env : Env) (parseErr : JSError) :
  snd (decode_stages raw env) = Throw parseErr ->
  exists r,
    snd (parseToolCallOutput raw env) = Ok r /\
    metadata r = JObject [ (lit "exit_code", JNumber (JSNum.of_Z 1));
                           (lit "duration_seconds", JNumber (JSNum.of_Z 0)) ] /\
    exit_code r = Some (JSNum.of_Z 1) /\
    duration_seconds r = Some (JSNum.of_Z 0) /\
    (raw <> [] /\ endsWith raw CLOSE_BRACE = false /\ includes raw OPEN_BRACE = true ->
     output r = JString MSG_TRUNCATED) /\
    (~ (raw <> [] /\ endsWith raw CLOSE_BRACE = false /\ includes raw OPEN_BRACE = true) ->
     output r = JString MSG_FAILED) /\
    (raw = [] -> output r = JString MSG_FAILED) /\
    (includes raw OPEN_BRACE = false -> output r = JString MSG_FAILED).
Proof.
  intros H. rewrite decode_stages_outcome in H.
  exists (fallback_result raw).
  rewrite parseToolCallOutput_outcome. unfold decode_result. rewrite H.
  split; [reflexivity|]. split; [reflexivity|].
  split; [reflexivity|]. split; [reflexivity|].
  pose proof (possibleTruncation_spec raw) as S.
  unfold fallback_result. simpl.
  destruct (possibleTruncation raw) eqn:E.
  - assert (raw <> [] /\ endsWith raw CLOSE_BRACE = false /\
            includes raw OPEN_BRACE = true) as [N [_ I]] by now apply S.
    repeat split; try reflexivity.
    + intros C. exfalso. apply C. now apply S.
    + intros C. congruence.
    + intros C. congruence.
  - assert (~ (raw <> [] /\ endsWith raw CLOSE_BRACE = false /\
               includes raw OPEN_BRACE = true)) as N.
    { intros C. apply S in C. discriminate. }
    repeat split; try reflexivity. intros C. contradiction.
Qed.

(** The empty text exhausts the stages and gets the generic message. *)
Lemma fallback_when_exhausted_witness :
  snd (decode_stages [] DEBUG_OFF) = Throw SyntaxError /\
  exists r,
    snd (parseToolCallOutput [] DEBUG_OFF) = Ok r /\
    output r = JString MSG_FAILED.
Proof.
  split; [reflexivity|].
  destruct (fallback_when_exhausted [] DEBUG_OFF SyntaxError eq_refl)
    as [r [H1 [_ [_ [_ [_ [_ [H2 _]]]]]]]].
  exists r. split; [exact H1 | now apply H2].
Defined.

(** ** The payloads of the specification *)

(** C2. On the payload that misses exactly its last close brace, the test
    of line 69 is false, because the close brace of [metadata] comes after
    the last open brace: no brace is appended, although the text with one
    more close brace parses to the expected result. The extraction then
    takes the [metadata] object, which has no [output], and the call ends
    in the generic failure value. *)
Theorem missing_brace_payload_not_patched (env : Env) :
  lastIndexOf PAYLOAD_MISSING_BRACE OPEN_BRACE = 29 /\
  lastIndexOf PAYLOAD_MISSING_BRACE CLOSE_BRACE = 66 /\
  truncated_guard PAYLOAD_MISSING_BRACE = false /\
  patch_result PAYLOAD_MISSING_BRACE =
    Some {| output := JString (lit "hello" ++ NOTE_FIXED);
            metadata := JObject [ (lit "exit_code", JNumber (JSNum.of_Z 0));
                                  (lit "duration_seconds",
                                   JNumber (JSNum.of_decimal false 15 (-1))) ] |} /\
  possibleJson PAYLOAD_MISSING_BRACE =
    qlit "{'exit_code':0,'duration_seconds':1.5}" /\
  recovery_outcome PAYLOAD_MISSING_BRACE = Exhausted SyntaxError /\
  snd (parseToolCallOutput PAYLOAD_MISSING_BRACE env) =
    Ok {| output := JString MSG_FAILED; metadata := FAILURE_METADATA |}.
Proof.
  rewrite parseToolCallOutput_outcome.
  repeat split; vm_compute; reflexivity.
Qed.

(** C3, as stated, fails: the payload with trailing garbage and a final
    open brace does not come back with the recovered output. *)
Lemma trailing_garbage_not_recovered :
  ~ (exists trace r,
       parseToolCallOutput PAYLOAD_TRAILING_GARBAGE DEBUG_OFF = (trace, Ok r) /\
       output r = JString (lit "a" ++ NOTE_RECOVERED)).
Proof.
  intros [trace [r [H1 H2]]].
  pose proof (parseToolCallOutput_outcome PAYLOAD_TRAILING_GARBAGE DEBUG_OFF) as H.
  rewrite H1 in H. cbn [snd] in H.
  assert (r = decode_result PAYLOAD_TRAILING_GARBAGE) as Hr by congruence.
  subst r.
  apply (f_equal (fun v => match v with
                           | JString (c :: _) => c
                           | _ => 0%N
                           end)) in H2.
  vm_compute in H2. discriminate H2.
Qed.

(** C3, amended. On that payload the last open brace is the final
    character, after the last close brace: the close-brace patch is tried
    and its text does not parse, the extraction is not tried, and the call
    ends in the truncation failure value. *)
Theorem trailing_garbage_falls_back (env : Env) :
  truncated_guard PAYLOAD_TRAILING_GARBAGE = true /\
  JSON.parse (PAYLOAD_TRAILING_GARBAGE ++ [CLOSE_BRACE]) = Throw SyntaxError /\
  extract_guard PAYLOAD_TRAILING_GARBAGE = false /\
  recovery_outcome PAYLOAD_TRAILING_GARBAGE = Exhausted SyntaxError /\
  snd (parseToolCallOutput PAYLOAD_TRAILING_GARBAGE env) =
    Ok {| output := JString MSG_TRUNCATED; metadata := FAILURE_METADATA |}.
Proof.
  rewrite parseToolCallOutput_outcome.
  repeat split; vm_compute; reflexivity.
Qed.

(** C10. The close-brace patch makes no check of the shape of what it
    parsed: on a text whose patched form parses to an object without
    [output] and [metadata], the call returns through the patch, with the
    output [undefined] followed by the annotation and an undefined
    metadata. *)
Theorem patch_has_no_shape_check (env : Env) :
  truncated_guard PAYLOAD_NO_FIELDS = true /\
  JSON.parse (PAYLOAD_NO_FIELDS ++ [CLOSE_BRACE]) =
    Ok (JObject [ (lit "a", JNumber (JSNum.of_Z 1)) ]) /\
  recovery_outcome PAYLOAD_NO_FIELDS =
    PatchedClose {| output := JString (lit "undefined" ++ NOTE_FIXED);
                    metadata := JUndefined |} /\
  snd (parseToolCallOutput PAYLOAD_NO_FIELDS env) =
    Ok {| output := JString (lit "undefined" ++ NOTE_FIXED);
          metadata := JUndefined |} /\
  In (Console LRecoveredByClosingBrace)
     (fst (parseToolCallOutput PAYLOAD_NO_FIELDS env)).
Proof.
  rewrite parseToolCallOutput_outcome.
  repeat split; try (vm_compute; reflexivity).
  destruct env as [[[|c d]|]]; vm_compute; tauto.
Qed.

(** ** The extraction scan *)

Section ExtractionScan.

(** After the last open brace, the first close brace brings the count
    from one to zero. *)
Lemma has_matching_close_after_last_open (r : jsstring) :
  existsb (N.eqb OPEN_BRACE) r = false ->
  existsb (N.eqb CLOSE_BRACE) r = true ->
  has_matching_close r 1 = true.
Proof.
  induction r as [|c r IH]; cbn [existsb has_matching_close]; [discriminate|].
  intros Ho Hc. apply orb_false_iff in Ho. destruct Ho as [Ho1 Ho2].
  rewrite N.eqb_sym in Ho1. rewrite Ho1.
  rewrite (N.eqb_sym CLOSE_BRACE c) in Hc.
  destruct (N.eqb c CLOSE_BRACE); [reflexivity|].
  cbn [orb] in Hc. change (1 =? 0) with false. cbn iota. now apply IH.
Qed.

(** The loop of lines 93-108 ends with [start] at the last open brace,
    whenever a close brace follows it. *)
Lemma find_start_is_last_open (s : jsstring) (i start : Z) :
  0 <= i ->
  lastIndexOf_from OPEN_BRACE s i <> -1 ->
  lastIndexOf_from OPEN_BRACE s i < lastIndexOf_from CLOSE_BRACE s i ->
  find_start s i (lastIndexOf_from OPEN_BRACE s i) start
  = lastIndexOf_from OPEN_BRACE s i.
Proof.
  revert i start. induction s as [|c r IH]; intros i start Hi Hne Hlt.
  - simpl in Hne. contradiction.
  - pose proof (lastIndexOf_from_range OPEN_BRACE r (i + 1) ltac:(lia)) as Ro.
    pose proof (lastIndexOf_from_range CLOSE_BRACE r (i + 1) ltac:(lia)) as Rc.
    pose proof (lastIndexOf_from_none OPEN_BRACE r (i + 1) ltac:(lia)) as No.
    pose proof (lastIndexOf_from_none CLOSE_BRACE r (i + 1) ltac:(lia)) as Nc.
    cbn [lastIndexOf_from find_start] in Hne, Hlt |- *.
    destruct (Z.eqb_spec (lastIndexOf_from OPEN_BRACE r (i + 1)) (-1)) as [Eo|Eo].
    + (* the head is the last open brace *)
      destruct (N.eqb c OPEN_BRACE) eqn:Ec; [|contradiction].
      destruct (Z.eqb_spec (lastIndexOf_from CLOSE_BRACE r (i + 1)) (-1)) as [Ecl|Ecl].
      { destruct (N.eqb c CLOSE_BRACE); lia. }
      rewrite Z.leb_refl. cbn [andb].
      rewrite has_matching_close_after_last_open.
      * destruct r as [|c' r']; cbn [find_start]; [reflexivity|].
        destruct (Z.leb_spec (i + 1) i); [lia | reflexivity].
      * now apply No.
      * destruct (existsb (N.eqb CLOSE_BRACE) r); [reflexivity|].
        exfalso. apply Ecl, Nc. reflexivity.
    + (* the last open brace is further on *)
      destruct (Z.leb_spec i (lastIndexOf_from OPEN_BRACE r (i + 1))); [|lia].
      apply IH; [lia | exact Eo |].
      destruct (Z.eqb_spec (lastIndexOf_from CLOSE_BRACE r (i + 1)) (-1)) as [Ecl|Ecl];
        [|exact Hlt].
      destruct (N.eqb c CLOSE_BRACE); lia.
Qed.

End ExtractionScan.

(** C5, as stated, fails: on two objects in a row the earliest matched
    open brace is at index 0, and the candidate starts at index 2. *)
Lemma earliest_start_refuted :
  ~ (extract_guard (lit "{}{}") = true ->
     Some (possibleJson (lit "{}{}")) = spec_candidate (lit "{}{}")).
Proof.
  intros H. specialize (H eq_refl). vm_compute in H. discriminate.
Qed.

(** Whenever the extraction is triggered, the scan ends at the last open
    brace of the payload (every matched open brace overwrites [start],
    and the last open brace is matched), so the candidate runs from the
    last open brace through the last close brace inclusive. *)
Lemma candidate_from_last_open (raw : jsstring) :
  extract_guard raw = true ->
  find_start raw 0 (lastIndexOf raw OPEN_BRACE) 0 = lastIndexOf raw OPEN_BRACE /\
  possibleJson raw =
    substring raw (lastIndexOf raw OPEN_BRACE) (lastIndexOf raw CLOSE_BRACE + 1) /\
  0 <= lastIndexOf raw OPEN_BRACE < lastIndexOf raw CLOSE_BRACE.
Proof.
  unfold extract_guard, possibleJson, lastIndexOf.
  rewrite !andb_true_iff, !negb_true_iff, Z.ltb_lt, !Z.eqb_neq.
  intros [[Ho Hc] Hlt].
  rewrite find_start_is_last_open by (lia || assumption).
  split; [reflexivity|]. split; [reflexivity|].
  pose proof (lastIndexOf_from_range OPEN_BRACE raw 0 ltac:(lia)). lia.
Qed.

(** ** The standard parse *)

(** C6, as stated, fails: [{"a":1}] parses and lacks both required
    fields, and the standard parse succeeds on it. *)
Lemma direct_decode_accepts_missing_fields :
  ~ ((exists r, snd (direct_decode (qlit "{'a':1}") DEBUG_OFF) = Ok r) <->
     (exists v, JSON.parse (qlit "{'a':1}") = Ok v /\
                spec_required_fields v = true)).
Proof.
  intros [H _].
  destruct H as [v [Hv Hs]].
  - exists {| output := JUndefined; metadata := JUndefined |}. reflexivity.
  - vm_compute in Hv. injection Hv as <-. vm_compute in Hs. discriminate.
Qed.

(** C6, amended. The standard parse succeeds exactly on the texts that
    parse to a value other than [null]; its result holds the [output] and
    [metadata] properties of that value, [undefined] for a property the
    value lacks, whatever their types; and the call returns this result
    with no annotation. *)
Theorem direct_decode_no_shape_check (raw : jsstring) (env : Env) :
  (forall r,
     snd (direct_decode raw env) = Ok r <->
     exists v, JSON.parse raw = Ok v /\ v <> JNull /\
               get_property v (lit "output") = Ok (output r) /\
               get_property v (lit "metadata") = Ok (metadata r)) /\
  (forall r,
     snd (direct_decode raw env) = Ok r ->
     recovery_outcome raw = Direct r /\
     snd (parseToolCallOutput raw env) = Ok r) /\
  (forall props,
     JSON.parse raw = Ok (JObject props) ->
     snd (direct_decode raw env) =
       Ok {| output := match prop_get props (lit "output") with
                       | Some o => o
                       | None => JUndefined
                       end;
             metadata := match prop_get props (lit "metadata") with
                         | Some m => m
                         | None => JUndefined
                         end |}).
Proof.
  rewrite direct_decode_outcome. unfold direct_result.
  split; [|split].
  - intros [ro rm]. cbn [output metadata].
    destruct (JSON.parse raw) as [v|e] eqn:Ep.
    + pose proof (parse_defined raw v Ep) as Hd.
      unfold destructure_output_metadata.
      split.
      * intros H. exists v. split; [reflexivity|].
        destruct v; try contradiction; try discriminate;
          cbn [get_property] in H |- *;
          try (injection H as <- <-; repeat split; discriminate || reflexivity).
        destruct (prop_get props (lit "output")), (prop_get props (lit "metadata"));
          injection H as <- <-; repeat split; discriminate || reflexivity.
      * intros [v' [Hv [Hn [Ho Hm]]]]. injection Hv as <-.
        rewrite Ho, Hm. reflexivity.
    + split; [discriminate|]. intros [v [Hv _]]. discriminate.
  - intros r H.
    assert (recovery_outcome raw = Direct r) as Hr.
    { unfold recovery_outcome, direct_result. rewrite H. reflexivity. }
    split; [exact Hr|].
    rewrite parseToolCallOutput_outcome. unfold decode_result, stages_result.
    rewrite Hr. reflexivity.
  - intros props ->. unfold destructure_output_metadata. cbn [get_property].
    destruct (prop_get props (lit "output")), (prop_get props (lit "metadata"));
      reflexivity.
Qed.

(** ** The argument decoder *)

Section ArgumentDecoder.

Lemma toStringArray_spec (v : JSValue) (l : list jsstring) :
  toStringArray v = Some l -> v = JArray (List.map JString l).
Proof.
  destruct v as [| |b|x|s|items|props]; try discriminate.
  unfold toStringArray. intros H. f_equal.
  revert l H. induction items as [|item r IH]; intros l H.
  - cbn in H. injection H as <-. reflexivity.
  - cbn [forallb flat_map] in H.
    destruct item; cbn [typeof andb] in H; try discriminate.
    destruct (forallb _ r) eqn:E; [|discriminate].
    injection H as <-. cbn [List.map app]. f_equal.
    apply IH. reflexivity.
Qed.

(** An array of strings is accepted, and its strings are returned in
    their order. *)
Lemma toStringArray_strings (l : list jsstring) :
  toStringArray (JArray (List.map JString l)) = Some l.
Proof.
  unfold toStringArray.
  assert (forallb (fun item => match typeof item with
                               | TString => true
                               | _ => false
                               end) (List.map JString l) = true) as ->.
  { induction l as [|s r IH]; [reflexivity | exact IH]. }
  f_equal. induction l as [|s r IH]; [reflexivity|].
  cbn [List.map flat_map app]. f_equal. exact IH.
Qed.

Lemma get_property_field (v : JSValue) (k : jsstring) :
  is_container v = true -> get_property v k = Ok (field v k).
Proof.
  unfold field. destruct v; try discriminate; intros _; cbn [get_property].
  - reflexivity.
  - destruct (prop_get props k); reflexivity.
Qed.

(** Lines 217-245, without the trace. *)
Lemma parseToolCallArguments_outcome (raw : jsstring) (env : Env) :
  snd (parseToolCallArguments raw env) = Ok (arguments_result raw).
Proof.
  unfold parseToolCallArguments, arguments_result. repeat outcome_step.
  destruct (JSON.parse raw) as [json|e]; repeat outcome_step; [|reflexivity].
  assert (negb match typeof json with TObject => true | _ => false end ||
          match json with JNull | JUndefined => true | _ => false end
          = negb (is_container json)) as -> by (destruct json; reflexivity).
  destruct (is_container json) eqn:Ec; cbn [negb]; [|reflexivity].
  repeat outcome_step.
  rewrite !(get_property_field json _ Ec). repeat outcome_step.
  destruct (toStringArray (field json (lit "cmd")));
    [|destruct (toStringArray (field json (lit "command")))];
    repeat outcome_step; reflexivity.
Qed.

End ArgumentDecoder.

(** C7, as stated, fails: an empty [cmd] array and a negative, fractional
    [timeout] give a descriptor. *)
Lemma descriptor_invariant_refuted :
  exists d,
    snd (parseToolCallArguments (qlit "{'cmd':[],'timeout':-1.5}") DEBUG_OFF)
      = Ok (Some d) /\
    cmd d = [] /\
    timeoutInMillis d = Some (JSNum.of_decimal true 15 (-1)) /\
    ~ spec_descriptor_invariant d.
Proof.
  eexists. split; [vm_compute; reflexivity|].
  split; [reflexivity|]. split; [reflexivity|].
  intros [H _]. apply H. reflexivity.
Qed.

(** C7, amended. A descriptor that [parseToolCallArguments] yields comes
    from a parsed value whose [cmd] property is an array (possibly empty)
    of strings, or else, only when [cmd] is no array of strings, whose
    [command] property is one (line 233); the strings of that array are
    the elements of [cmd]. [timeoutInMillis] is present exactly when the
    [timeout] property is a number, which it then is, whatever its sign
    or fraction; [workdir] is present exactly when the property is a
    string. *)
Theorem descriptor_shape (raw : jsstring) (env : Env) (d : ExecInput) :
  snd (parseToolCallArguments raw env) = Ok (Some d) ->
  exists json,
    JSON.parse raw = Ok json /\
    (get_property json (lit "cmd") = Ok (JArray (List.map JString (cmd d))) \/
     ((forall l, get_property json (lit "cmd")
                 <> Ok (JArray (List.map JString l))) /\
      get_property json (lit "command")
      = Ok (JArray (List.map JString (cmd d))))) /\
    (forall x, timeoutInMillis d = Some x <->
               get_property json (lit "timeout") = Ok (JNumber x)) /\
    (forall w, workdir d = Some w <->
               get_property json (lit "workdir") = Ok (JString w)).
Proof.
  rewrite parseToolCallArguments_outcome. intros H.
  assert (arguments_result raw = Some d) as R by congruence. clear H.
  unfold arguments_result in R.
  destruct (JSON.parse raw) as [json|e]; [|discriminate].
  exists json. split; [reflexivity|].
  destruct (is_container json) eqn:Ec; [|discriminate].
  rewrite !(get_property_field json _ Ec).
  assert (forall a,
            (toStringArray (field json (lit "cmd")) = Some a \/
             (toStringArray (field json (lit "cmd")) = None /\
              toStringArray (field json (lit "command")) = Some a)) ->
            Some {| cmd := a;
                    workdir := match field json (lit "workdir") with
                               | JString s => Some s
                               | _ => None
                               end;
                    timeoutInMillis := match field json (lit "timeout") with
                                       | JNumber x => Some x
                                       | _ => None
                                       end |} = Some d ->
            (Ok (field json (lit "cmd")) = Ok (JArray (List.map JString (cmd d))) \/
             ((forall l, Ok (field json (lit "cmd"))
                         <> Ok (JArray (List.map JString l))) /\
              Ok (field json (lit "command"))
              = Ok (JArray (List.map JString (cmd d))))) /\
            (forall x, timeoutInMillis d = Some x <->
                       Ok (field json (lit "timeout")) = Ok (JNumber x)) /\
            (forall w, workdir d = Some w <->
                       Ok (field json (lit "workdir")) = Ok (JString w))) as K.
  { intros a Ha Hd.
    assert (d = {| cmd := a;
                   workdir := match field json (lit "workdir") with
                              | JString s => Some s
                              | _ => None
                              end;
                   timeoutInMillis := match field json (lit "timeout") with
                                      | JNumber x => Some x
                                      | _ => None
                                      end |}) as -> by congruence.
    cbn [cmd workdir timeoutInMillis].
    split.
    - destruct Ha as [Ha | [Hn Ha]]; apply toStringArray_spec in Ha.
      + left. congruence.
      + right. split; [|congruence].
        intros l E. injection E as E. rewrite E, toStringArray_strings in Hn.
        discriminate Hn.
    - split; intros z.
      + destruct (field json (lit "timeout")); split; intros E; congruence.
      + destruct (field json (lit "workdir")); split; intros E; congruence. }
  destruct (toStringArray (field json (lit "cmd"))) as [a|] eqn:Ea.
  - apply (K a); [left; reflexivity | exact R].
  - destruct (toStringArray (field json (lit "command"))) as [a|] eqn:Ea';
      [|discriminate].
    apply (K a); [right; split; reflexivity | exact R].
Qed.

Lemma descriptor_shape_witness :
  snd (parseToolCallArguments
         (qlit "{'command':['pwd'],'cmd':['ls','-la'],'timeout':-1.5}") DEBUG_OFF)
    = Ok (Some {| cmd := [lit "ls"; lit "-la"];
                  workdir := None;
                  timeoutInMillis := Some (JSNum.of_decimal true 15 (-1)) |}) /\
  exists json,
    JSON.parse (qlit "{'command':['pwd'],'cmd':['ls','-la'],'timeout':-1.5}")
      = Ok json /\
    get_property json (lit "timeout") = Ok (JNumber (JSNum.of_decimal true 15 (-1))).
Proof.
  assert (snd (parseToolCallArguments
                 (qlit "{'command':['pwd'],'cmd':['ls','-la'],'timeout':-1.5}")
                 DEBUG_OFF)
          = Ok (Some {| cmd := [lit "ls"; lit "-la"];
                        workdir := None;
                        timeoutInMillis := Some (JSNum.of_decimal true 15 (-1)) |}))
    as H by (vm_compute; reflexivity).
  split; [exact H|].
  destruct (descriptor_shape _ _ _ H) as [json [Hp [_ [Ht _]]]].
  exists json. split; [exact Hp|]. apply Ht. reflexivity.
Defined.

(** ** The diagnostic switch *)

Section SwitchOff.

Lemma spawned_app (t t' : list Effect) :
  spawned (t ++ t') = spawned t ++ spawned t'.
Proof. unfold spawned. apply flat_map_app. Qed.

Context {A B : Type}.

Lemma quiet_bind (m : M A) (k : A -> M B) (env : Env) :
  spawned (fst (m env)) = [] ->
  (forall a, spawned (fst (k a env)) = []) ->
  spawned (fst (bind m k env)) = [].
Proof.
  intros Hm Hk. rewrite trace_bind.
  destruct (snd (m env)); [|exact Hm].
  rewrite spawned_app, Hm, Hk. reflexivity.
Qed.

Lemma quiet_try_catch (m : M A) (h : JSError -> M A) (env : Env) :
  spawned (fst (m env)) = [] ->
  (forall e, spawned (fst (h e env)) = []) ->
  spawned (fst (try_catch m h env)) = [].
Proof.
  intros Hm Hh. rewrite trace_try_catch.
  destruct (snd (m env)); [exact Hm|].
  rewrite spawned_app, Hm, Hh. reflexivity.
Qed.

End SwitchOff.

Section SwitchOffDecoder.

Variable env : Env.
Hypothesis Hoff : debug_enabled env = false.

Lemma logJsonParseAttempt_quiet s success error :
  spawned (fst (DebugLogger.logJsonParseAttempt s success error env)) = [].
Proof. now rewrite logJsonParseAttempt_off. Qed.

Ltac quiet :=
  repeat first
    [ apply logJsonParseAttempt_quiet
    | apply quiet_bind; [|intros ?]
    | apply quiet_try_catch; [|intros ?]
    | reflexivity
    | match goal with
      | |- context [if ?b then _ else _] => destruct b
      | |- context [match ?x with _ => _ end] => destruct x
      end ].

(** With the switch off, the stages start no file-writing function. *)
Lemma decode_stages_quiet (raw : jsstring) :
  spawned (fst (decode_stages raw env)) = [].
Proof.
  unfold decode_stages, direct_decode, recover, close_brace_patch,
    extract_object, when.
  quiet.
Qed.

(** The handler of the outer catch starts [writeErrorLog], whatever the
    switch says. *)
Lemma fallback_spawns (raw : jsstring) (err : JSError) (env' : Env) :
  exists info,
    spawned (fst (fallback raw err env')) = [TWriteErrorLog info] /\
    ei_rawOutput info = raw /\ ei_error info = err.
Proof.
  unfold fallback. cbn [ei_possibleTruncation].
  destruct (possibleTruncation raw);
    eexists; (split; [reflexivity | split; reflexivity]).
Qed.

Lemma parseToolCallOutput_spawns (raw : jsstring) :
  match stages_result raw with
  | Ok _ => spawned (fst (parseToolCallOutput raw env)) = []
  | Throw parseErr =>
      exists info,
        spawned (fst (parseToolCallOutput raw env)) = [TWriteErrorLog info] /\
        ei_rawOutput info = raw /\ ei_error info = parseErr
  end.
Proof.
  unfold parseToolCallOutput. rewrite trace_try_catch, decode_stages_outcome.
  destruct (stages_result raw) as [r|parseErr].
  - apply decode_stages_quiet.
  - destruct (fallback_spawns raw parseErr env) as [info [H1 H2]].
    exists info. split; [|exact H2].
    rewrite spawned_app, decode_stages_quiet, H1. reflexivity.
Qed.

(** A file written by a trace is written by one of the functions it
    started. *)
Lemma file_write_of_task (fs : FsOutcome) (t : list Effect) (io : IO) :
  In io (trace_io fs t) -> is_file_write io = true ->
  exists task, In task (spawned t) /\ In io (run_task fs task).
Proof.
  unfold trace_io, spawned. rewrite in_flat_map.
  intros [e [He Hio]] Hw. destruct e as [line|task].
  - destruct Hio as [<-|[]]. discriminate.
  - exists task. split; [|exact Hio].
    apply in_flat_map. exists (Spawn task). split; [exact He | now left].
Qed.

(** With the switch off, the only file a decode call writes is the error
    report of [writeErrorLog]. *)
Lemma parseToolCallOutput_file_writes (raw : jsstring) (fs : FsOutcome) (io : IO) :
  In io (trace_io fs (fst (parseToolCallOutput raw env))) ->
  is_file_write io = true ->
  exists info,
    io = IoWriteErrorJson {| lf_dir := lit "logs";
                             lf_prefix := lit "json-parse-error";
                             lf_ext := lit ".log" |} info /\
    ei_rawOutput info = raw.
Proof.
  intros Hin Hw.
  destruct (file_write_of_task fs _ io Hin Hw) as [task [Ht Hio]].
  pose proof (parseToolCallOutput_spawns raw) as Hs.
  destruct (stages_result raw) as [r|parseErr].
  - rewrite Hs in Ht. contradiction.
  - destruct Hs as [info [Hs [Hr _]]]. rewrite Hs in Ht.
    destruct Ht as [<-|[]]. exists info. split; [|exact Hr].
    cbn [run_task] in Hio. unfold writeErrorLog in Hio.
    destruct fs; cbn [In] in Hio;
      repeat (destruct Hio as [Hio|Hio]; [subst io; try discriminate Hw|]);
      try contradiction; reflexivity.
Qed.

End SwitchOffDecoder.

(** C9, as stated, fails: with the switch off, decoding the empty text
    writes the error log. *)
Lemma decode_writes_error_log_when_off :
  debug_enabled DEBUG_OFF = false /\
  ~ (forall raw fs io,
       In io (trace_io fs (fst (parseToolCallOutput raw DEBUG_OFF))) ->
       is_file_write io = false).
Proof.
  split; [reflexivity|]. intros H.
  specialize (H [] FsOk
    (IoWriteErrorJson
       {| lf_dir := lit "logs"; lf_prefix := lit "json-parse-error";
          lf_ext := lit ".log" |}
       {| ei_error := SyntaxError; ei_rawOutput := []; ei_outputLength := 0;
          ei_outputStart := []; ei_outputEnd := []; ei_openBrace := -1;
          ei_closeBrace := -1; ei_possibleTruncation := false |})).
  cbn in H. discriminate H. right. right. right. left. reflexivity.
Qed.

(** C9, amended. With the switch off, each of the three entry points of
    the recorder returns at once with an empty trace (no console line, no
    file task); the result of a decode call is the same under every
    setting of the switch; the stages start no file task; and the call as
    a whole starts exactly one, [writeErrorLog], when the stages are
    exhausted, and none otherwise, so that the only file it can write is
    the error report under [logs]. *)
Theorem recorder_off (env : Env) :
  debug_enabled env = false ->
  (forall command output exitCode duration,
     DebugLogger.logCommandExecution command output exitCode duration env
     = ([], Ok tt)) /\
  (forall jsonString success error,
     DebugLogger.logJsonParseAttempt jsonString success error env = ([], Ok tt)) /\
  (forall functionName argsString output,
     DebugLogger.analyzeToolCallOutput functionName argsString output env
     = ([], Ok tt)) /\
  (forall raw env',
     snd (parseToolCallOutput raw env') = snd (parseToolCallOutput raw env)) /\
  (forall raw, spawned (fst (decode_stages raw env)) = []) /\
  (forall raw,
     match stages_result raw with
     | Ok _ => spawned (fst (parseToolCallOutput raw env)) = []
     | Throw parseErr =>
         exists info,
           spawned (fst (parseToolCallOutput raw env)) = [TWriteErrorLog info] /\
           ei_rawOutput info = raw /\ ei_error info = parseErr
     end) /\
  (forall raw fs io,
     In io (trace_io fs (fst (parseToolCallOutput raw env))) ->
     is_file_write io = true ->
     exists info,
       io = IoWriteErrorJson {| lf_dir := lit "logs";
                                lf_prefix := lit "json-parse-error";
                                lf_ext := lit ".log" |} info /\
       ei_rawOutput info = raw).
Proof.
  intros Hoff.
  split; [intros; now apply logCommandExecution_off|].
  split; [intros; now apply logJsonParseAttempt_off|].
  split; [intros; now apply analyzeToolCallOutput_off|].
  split; [intros; now rewrite !parseToolCallOutput_outcome|].
  split; [intros; now apply decode_stages_quiet|].
  split; [intros raw; now apply parseToolCallOutput_spawns|].
  intros raw fs io. now apply parseToolCallOutput_file_writes.
Qed.

Lemma recorder_off_witness :
  debug_enabled DEBUG_OFF = false /\
  DebugLogger.logJsonParseAttempt (lit "{") false (Some SyntaxError) DEBUG_OFF
    = ([], Ok tt) /\
  spawned (fst (parseToolCallOutput (lit "{}") DEBUG_OFF)) = [].
Proof.
  destruct (recorder_off DEBUG_OFF eq_refl) as [_ [H2 [_ [_ [_ [H6 _]]]]]].
  split; [reflexivity|]. split; [apply H2|].
  exact (H6 (lit "{}")).
Defined.

(** ** Round trip of strings through JSON.stringify and JSON.parse *)

Section StringRoundTrip.

Import JSON.

Lemma hex_val_digit (d : N) :
  (d < 16)%N -> hex_val (hex_digit d) = Some d.
Proof.
  intros H.
  assert (d = 0 \/ d = 1 \/ d = 2 \/ d = 3 \/ d = 4 \/ d = 5 \/ d = 6 \/ d = 7 \/
          d = 8 \/ d = 9 \/ d = 10 \/ d = 11 \/ d = 12 \/ d = 13 \/ d = 14 \/
          d = 15)%N as C by lia.
  repeat (destruct C as [-> | C]; [reflexivity|]). subst d. reflexivity.
Qed.

Lemma hex4_escape (c : N) :
  (c < 65536)%N ->
  hex4 (hex_digit (c / 4096 mod 16)) (hex_digit (c / 256 mod 16))
       (hex_digit (c / 16 mod 16)) (hex_digit (c mod 16)) = Some c.
Proof.
  intros H. unfold hex4.
  rewrite !hex_val_digit by (apply N.mod_lt; discriminate).
  f_equal.
  pose proof (N.div_mod c 16 ltac:(discriminate)) as E0.
  pose proof (N.div_mod (c / 16) 16 ltac:(discriminate)) as E1.
  pose proof (N.div_mod (c / 256) 16 ltac:(discriminate)) as E2.
  pose proof (N.div_mod (c / 4096) 16 ltac:(discriminate)) as E3.
  rewrite N.Div0.div_div in E1. change (16 * 16)%N with 256%N in E1.
  rewrite N.Div0.div_div in E2. change (256 * 16)%N with 4096%N in E2.
  rewrite N.Div0.div_div in E3. change (4096 * 16)%N with 65536%N in E3.
  rewrite (N.div_small c 65536 H) in E3.
  lia.
Qed.

(** One escaped unit reads back as the unit. *)
Lemma parse_quote_unit (c : N) (tl : jsstring) :
  parse_string_body (quote_unit c ++ tl) =
  match parse_string_body tl with
  | Some (str, rest) => Some (c :: str, rest)
  | None => None
  end.
Proof.
  unfold quote_unit.
  destruct (N.eqb_spec c 8) as [->|N8]; [reflexivity|].
  destruct (N.eqb_spec c 9) as [->|N9]; [reflexivity|].
  destruct (N.eqb_spec c 10) as [->|N10]; [reflexivity|].
  destruct (N.eqb_spec c 12) as [->|N12]; [reflexivity|].
  destruct (N.eqb_spec c 13) as [->|N13]; [reflexivity|].
  destruct (N.eqb_spec c 34) as [->|N34]; [reflexivity|].
  destruct (N.eqb_spec c 92) as [->|N92]; [reflexivity|].
  destruct (N.ltb c 32 || is_high_surrogate c || is_low_surrogate c) eqn:E.
  - assert (c < 65536)%N as L.
    { unfold is_high_surrogate, is_low_surrogate in E.
      rewrite !orb_true_iff, !andb_true_iff, N.ltb_lt, !N.leb_le in E. lia. }
    unfold unicode_escape.
    cbn [app parse_string_body].
    change (N.eqb BACKSLASH QUOTE) with false.
    change (N.eqb BACKSLASH BACKSLASH) with true.
    change (N.eqb 117 117) with true. cbn iota.
    rewrite hex4_escape by exact L. reflexivity.
  - apply orb_false_iff in E. destruct E as [E _].
    apply orb_false_iff in E. destruct E as [E _].
    cbn [app parse_string_body].
    unfold QUOTE, BACKSLASH.
    destruct (N.eqb_spec c 34); [contradiction|].
    destruct (N.eqb_spec c 92); [contradiction|].
    rewrite E. reflexivity.
Qed.

(** A surrogate is neither a quote, nor a reverse solidus, nor a control
    character. *)
Lemma parse_surrogate (c : N) (tl : jsstring) :
  is_high_surrogate c || is_low_surrogate c = true ->
  parse_string_body (c :: tl) =
  match parse_string_body tl with
  | Some (str, rest) => Some (c :: str, rest)
  | None => None
  end.
Proof.
  unfold is_high_surrogate, is_low_surrogate.
  rewrite orb_true_iff, !andb_true_iff, !N.leb_le. intros H.
  cbn [parse_string_body]. unfold QUOTE, BACKSLASH.
  destruct (N.eqb_spec c 34); [lia|].
  destruct (N.eqb_spec c 92); [lia|].
  destruct (N.ltb_spec c 32); [lia|]. reflexivity.
Qed.

(** The body of a quoted string, followed by the closing quote, reads
    back as the string. *)
Lemma parse_quote_body (s rest : jsstring) :
  parse_string_body (quote_body s ++ QUOTE :: rest) = Some (s, rest).
Proof.
  remember (List.length s) as n eqn:Hn. revert s Hn.
  induction n as [n IH] using lt_wf_ind. intros s Hn.
  destruct s as [|c r]; [reflexivity|].
  cbn [quote_body].
  destruct (is_high_surrogate c) eqn:Eh.
  - destruct r as [|d r'].
    + rewrite parse_quote_unit. reflexivity.
    + destruct (is_low_surrogate d) eqn:El.
      * cbn [app].
        rewrite parse_surrogate by (rewrite Eh; reflexivity).
        rewrite parse_surrogate by (rewrite El; apply orb_true_r).
        rewrite (IH (List.length r')); [reflexivity | simpl in Hn; lia | reflexivity].
      * rewrite <- app_assoc, parse_quote_unit.
        rewrite (IH (List.length (d :: r'))); [reflexivity | simpl in *; lia | reflexivity].
  - rewrite <- app_assoc, parse_quote_unit.
    rewrite (IH (List.length r)); [reflexivity | simpl in *; lia | reflexivity].
Qed.

(** A quoted string at the head of a text parses to the string. *)
Lemma parse_quote (s rest : jsstring) :
  exists body, quote s ++ rest = QUOTE :: body /\
               parse_string_body body = Some (s, rest).
Proof.
  exists (quote_body s ++ QUOTE :: rest). split.
  - unfold quote. cbn [app]. rewrite <- app_assoc. reflexivity.
  - apply parse_quote_body.
Qed.

End StringRoundTrip.

(** ** A number literal inside a longer text *)

Section NumberInContext.

Import JSON.

Variable c : N.
Variable tail : jsstring.
Hypothesis Hend : ends_number c.

Lemma take_digits_app (s : jsstring) (acc n v k : Z) (r : jsstring) :
  take_digits s acc n = (v, k, r) ->
  take_digits (s ++ c :: tail) acc n = (v, k, r ++ c :: tail).
Proof.
  destruct Hend as [Hd _].
  revert acc n. induction s as [|x s IH]; intros acc n H.
  - cbn in H. injection H as <- <- <-. cbn. rewrite Hd. reflexivity.
  - cbn [take_digits app] in H |- *. destruct (is_digit x).
    + now apply IH.
    + injection H as <- <- <-. reflexivity.
Qed.

Lemma parse_int_part_app (s : jsstring) (v : Z) (r : jsstring) :
  parse_int_part s = Some (v, r) ->
  parse_int_part (s ++ c :: tail) = Some (v, r ++ c :: tail).
Proof.
  destruct s as [|x s]; [discriminate|].
  cbn [parse_int_part app]. destruct (N.eqb x 48).
  - intros H. injection H as <- <-. reflexivity.
  - destruct (is_digit x); [|discriminate].
    destruct (take_digits s (digit_val x) 1) as [[v' k] r'] eqn:E.
    intros H. injection H as <- <-.
    rewrite (take_digits_app _ _ _ _ _ _ E). reflexivity.
Qed.

Lemma parse_frac_part_app (m : Z) (s : jsstring) (v k : Z) (r : jsstring) :
  parse_frac_part m s = Some (v, k, r) ->
  parse_frac_part m (s ++ c :: tail) = Some (v, k, r ++ c :: tail).
Proof.
  destruct Hend as [_ [Hp _]].
  destruct s as [|x s].
  - intros H. injection H as <- <- <-. cbn. rewrite Hp. reflexivity.
  - cbn [parse_frac_part app]. destruct (N.eqb x 46).
    + destruct (take_digits s m 0) as [[v' k'] r'] eqn:E.
      rewrite (take_digits_app _ _ _ _ _ _ E).
      destruct (k' =? 0); [discriminate|].
      intros H. injection H as <- <- <-. reflexivity.
    + intros H. injection H as <- <- <-. reflexivity.
Qed.

Lemma parse_exp_part_app (s : jsstring) (v : Z) (r : jsstring) :
  parse_exp_part s = Some (v, r) ->
  parse_exp_part (s ++ c :: tail) = Some (v, r ++ c :: tail).
Proof.
  destruct Hend as [_ [_ [He1 He2]]].
  destruct s as [|x s].
  - intros H. injection H as <- <-. cbn. rewrite He1, He2. reflexivity.
  - cbn [parse_exp_part app]. destruct (N.eqb x 101 || N.eqb x 69).
    + destruct s as [|sgn s'].
      * cbn. discriminate.
      * cbn [app].
        assert (forall (neg : bool) r1,
                  (let '(v0, n, rest0) := take_digits r1 0 0 in
                   if n =? 0 then None
                   else Some (if neg then - v0 else v0, rest0)) = Some (v, r) ->
                  (let '(v0, n, rest0) := take_digits (r1 ++ c :: tail) 0 0 in
                   if n =? 0 then None
                   else Some (if neg then - v0 else v0, rest0))
                  = Some (v, r ++ c :: tail)) as K.
        { intros neg r1.
          destruct (take_digits r1 0 0) as [[v' k'] r'] eqn:E.
          rewrite (take_digits_app _ _ _ _ _ _ E).
          destruct (k' =? 0); [discriminate|].
          intros H. injection H as <- <-. reflexivity. }
        destruct (N.eqb sgn 45); [apply (K true s')|].
        destruct (N.eqb sgn 43); [apply (K false s')|].
        apply (K false (sgn :: s')).
    + intros H. injection H as <- <-. reflexivity.
Qed.

Lemma parse_number_app (s : jsstring) (x : JSNum.number) (r : jsstring) :
  parse_number s = Some (x, r) ->
  parse_number (s ++ c :: tail) = Some (x, r ++ c :: tail).
Proof.
  unfold parse_number.
  assert (forall neg s1,
            match parse_int_part s1 with
            | None => None
            | Some (i, s2) =>
                match parse_frac_part i s2 with
                | None => None
                | Some (m, nfrac, s3) =>
                    match parse_exp_part s3 with
                    | None => None
                    | Some (e, s4) =>
                        Some (JSNum.of_decimal neg m (e - nfrac), s4)
                    end
                end
            end = Some (x, r) ->
            match parse_int_part (s1 ++ c :: tail) with
            | None => None
            | Some (i, s2) =>
                match parse_frac_part i s2 with
                | None => None
                | Some (m, nfrac, s3) =>
                    match parse_exp_part s3 with
                    | None => None
                    | Some (e, s4) =>
                        Some (JSNum.of_decimal neg m (e - nfrac), s4)
                    end
                end
            end = Some (x, r ++ c :: tail)) as K.
  { intros neg s1.
    destruct (parse_int_part s1) as [[i s2]|] eqn:E1; [|discriminate].
    rewrite (parse_int_part_app _ _ _ E1).
    destruct (parse_frac_part i s2) as [[[m k] s3]|] eqn:E2; [|discriminate].
    rewrite (parse_frac_part_app _ _ _ _ _ E2).
    destruct (parse_exp_part s3) as [[e s4]|] eqn:E3; [|discriminate].
    rewrite (parse_exp_part_app _ _ _ E3).
    intros H. injection H as <- <-. reflexivity. }
  destruct s as [|x0 s0].
  - cbn. discriminate.
  - cbn [app]. destruct (N.eqb x0 45).
    + apply (K true s0).
    + apply (K false (x0 :: s0)).
Qed.

Lemma skip_ws_app (s : jsstring) (x : N) (r t : jsstring) :
  skip_ws s = x :: r -> skip_ws (s ++ t) = x :: r ++ t.
Proof.
  induction s as [|y s IH]; [discriminate|].
  cbn [skip_ws app]. destruct (is_ws y); [exact IH|].
  intros H. injection H as <- <-. reflexivity.
Qed.

Lemma skip_ws_nil_app (s t : jsstring) :
  skip_ws s = [] -> skip_ws (s ++ t) = skip_ws t.
Proof.
  induction s as [|y s IH]; [reflexivity|].
  cbn [skip_ws app]. destruct (is_ws y); [exact IH | discriminate].
Qed.

(** A text that parses to a number still does, up to a following unit
    that ends the literal. *)
Lemma parse_value_number_app (f f' : nat) (s : jsstring) (x : JSNum.number)
  (rest : jsstring) :
  parse_value f s = POk (JNumber x) rest ->
  parse_value (S f') (s ++ c :: tail) = POk (JNumber x) (rest ++ c :: tail).
Proof.
  intros H. apply parse_value_number in H.
  destruct H as [Hn [h [r [Hs [H1 [H2 [H3 [H4 [H5 H6]]]]]]]]].
  cbn [parse_value]. rewrite (skip_ws_app _ _ _ _ Hs).
  rewrite H1, H2, H3, H4, H5, H6.
  rewrite Hs in Hn.
  change (h :: r ++ c :: tail) with ((h :: r) ++ c :: tail).
  rewrite (parse_number_app _ _ _ Hn). reflexivity.
Qed.

End NumberInContext.

(** A Number that reads back reads back inside an object, before a comma
    or a closing brace. *)
Lemma reads_back_in_context (x : JSNum.number) (c : N) (tail : jsstring) (f : nat) :
  reads_back x ->
  c = 44%N \/ c = CLOSE_BRACE ->
  exists rest,
    JSON.parse_value (S f) (JSNum.NumberToString x ++ c :: tail)
      = JSON.POk (JNumber x) (rest ++ c :: tail) /\
    JSON.skip_ws (rest ++ c :: tail) = c :: tail.
Proof.
  unfold reads_back, JSON.parse. intros H Hc.
  destruct (JSON.parse_value (S (2 * List.length (JSNum.NumberToString x)))
              (JSNum.NumberToString x)) as [v rest| |] eqn:E; try discriminate.
  destruct (JSON.skip_ws rest) eqn:Er; [|discriminate].
  injection H as ->.
  exists rest. split.
  - eapply parse_value_number_app; [|exact E].
    destruct Hc as [-> | ->]; repeat split; reflexivity.
  - rewrite (skip_ws_nil_app _ _ Er).
    destruct Hc as [-> | ->]; reflexivity.
Qed.

(** Only finite Numbers read back. *)
Lemma reads_back_finite (x : JSNum.number) :
  reads_back x -> JSNum.is_finite x = true.
Proof.
  unfold reads_back. destruct x as [s|s| |s m e]; try reflexivity.
  - destruct s; vm_compute; discriminate.
  - vm_compute; discriminate.
Qed.

Lemma number_eqb_eq (x y : JSNum.number) : JSNum.eqb x y = true -> x = y.
Proof.
  destruct x as [s|s| |s m e], y as [s'|s'| |s' m' e']; try discriminate;
    cbn [JSNum.eqb]; intros H.
  - apply eqb_prop in H. congruence.
  - apply eqb_prop in H. congruence.
  - reflexivity.
  - apply andb_true_iff in H. destruct H as [H He].
    apply andb_true_iff in H. destruct H as [Hs Hm].
    apply eqb_prop in Hs. apply Pos.eqb_eq in Hm. apply Z.eqb_eq in He.
    congruence.
Qed.

(** ** Round trip of a tool result *)

Section ToolResultRoundTrip.

Import JSON.

(** One step of each parser on a text in the form [JSON.stringify]
    writes (no white space). *)
Lemma parse_value_object (f : nat) (body : jsstring) :
  parse_value (S f) (OPEN_BRACE :: QUOTE :: body)
  = parse_members f [] (QUOTE :: body).
Proof. reflexivity. Qed.

Lemma parse_value_string (f : nat) (body str rest : jsstring) :
  parse_string_body body = Some (str, rest) ->
  parse_value (S f) (QUOTE :: body) = POk (JString str) rest.
Proof. intros H. cbn. rewrite H. reflexivity. Qed.

Lemma parse_members_more (f : nat) (acc : list (jsstring * JSValue))
  (body key r1 : jsstring) (v : JSValue) (rest r2 : jsstring) :
  parse_string_body body = Some (key, 58%N :: r1) ->
  parse_value f r1 = POk v rest ->
  skip_ws rest = 44%N :: r2 ->
  parse_members (S f) acc (QUOTE :: body) = parse_members f (prop_set acc key v) r2.
Proof.
  intros Hk Hv Hr. cbn [parse_members skip_ws is_ws].
  change (is_ws QUOTE) with false. cbn iota.
  change (N.eqb QUOTE QUOTE) with true. cbn iota.
  rewrite Hk. cbn [skip_ws]. change (is_ws 58) with false. cbn iota.
  change (N.eqb 58 58) with true. cbn iota.
  rewrite Hv, Hr. reflexivity.
Qed.

Lemma parse_members_last (f : nat) (acc : list (jsstring * JSValue))
  (body key r1 : jsstring) (v : JSValue) (rest r2 : jsstring) :
  parse_string_body body = Some (key, 58%N :: r1) ->
  parse_value f r1 = POk v rest ->
  skip_ws rest = CLOSE_BRACE :: r2 ->
  parse_members (S f) acc (QUOTE :: body) = POk (JObject (prop_set acc key v)) r2.
Proof.
  intros Hk Hv Hr. cbn [parse_members skip_ws is_ws].
  change (is_ws QUOTE) with false. cbn iota.
  change (N.eqb QUOTE QUOTE) with true. cbn iota.
  rewrite Hk. cbn [skip_ws]. change (is_ws 58) with false. cbn iota.
  change (N.eqb 58 58) with true. cbn iota.
  rewrite Hv, Hr. reflexivity.
Qed.

Variables (o : jsstring) (a b : JSNum.number).
Hypothesis Ha : reads_back a.
Hypothesis Hb : reads_back b.

Lemma serialize_tool_result :
  serialize (tool_result_value o a b) = Some (tool_result_text o a b).
Proof.
  unfold tool_result_value, tool_result_text. cbn [serialize].
  rewrite (reads_back_finite a Ha), (reads_back_finite b Hb).
  unfold quote.
  generalize (JSNum.NumberToString a) (JSNum.NumberToString b) (quote_body o).
  intros na nb qo. f_equal. simpl.
  repeat (rewrite <- app_assoc; simpl). reflexivity.
Qed.

(** The metadata object, from its open brace on, followed by [tail]. *)
Lemma parse_metadata_text (f : nat) (tail : jsstring) :
  parse_value (S (S (S (S f))))
    (qlit "{'exit_code':" ++ JSNum.NumberToString a ++
     qlit ",'duration_seconds':" ++ JSNum.NumberToString b ++
     CLOSE_BRACE :: tail)
  = POk (JObject [ (lit "exit_code", JNumber a);
                   (lit "duration_seconds", JNumber b) ]) tail.
Proof.
  set (after_a := qlit "'duration_seconds':" ++ JSNum.NumberToString b ++
                  CLOSE_BRACE :: tail).
  destruct (reads_back_in_context a 44%N after_a (S f) Ha (or_introl eq_refl))
    as [ra [Pa Sa]].
  destruct (reads_back_in_context b CLOSE_BRACE tail f Hb (or_intror eq_refl))
    as [rb [Pb Sb]].
  change (qlit "{'exit_code':" ++ JSNum.NumberToString a ++
          qlit ",'duration_seconds':" ++ JSNum.NumberToString b ++
          CLOSE_BRACE :: tail)
    with (OPEN_BRACE :: QUOTE ::
          (qlit "exit_code':" ++ JSNum.NumberToString a ++ 44%N :: after_a)).
  rewrite parse_value_object.
  rewrite (parse_members_more (S (S f)) []
             (qlit "exit_code':" ++ JSNum.NumberToString a ++ 44%N :: after_a)
             (lit "exit_code") (JSNum.NumberToString a ++ 44%N :: after_a)
             (JNumber a) (ra ++ 44%N :: after_a) after_a eq_refl Pa Sa).
  subst after_a.
  change (qlit "'duration_seconds':" ++ JSNum.NumberToString b ++
          CLOSE_BRACE :: tail)
    with (QUOTE :: (qlit "duration_seconds':" ++ JSNum.NumberToString b ++
                    CLOSE_BRACE :: tail)).
  rewrite (parse_members_last (S f) _
             (qlit "duration_seconds':" ++ JSNum.NumberToString b ++
              CLOSE_BRACE :: tail)
             (lit "duration_seconds")
             (JSNum.NumberToString b ++ CLOSE_BRACE :: tail)
             (JNumber b) (rb ++ CLOSE_BRACE :: tail) tail eq_refl Pb Sb).
  reflexivity.
Qed.

(** The whole text parses to the value it was written from. *)
Lemma parse_tool_result_text :
  JSON.parse (tool_result_text o a b) = Ok (tool_result_value o a b).
Proof.
  unfold JSON.parse.
  assert (3 <= List.length (tool_result_text o a b))%nat as L.
  { unfold tool_result_text. rewrite length_app.
    change (List.length (qlit "{'output':")) with 10%nat. lia. }
  destruct (2 * List.length (tool_result_text o a b))%nat
    as [|[|[|[|[|[|f]]]]]] eqn:Hf; try lia.
  unfold tool_result_text.
  set (meta := qlit "{'exit_code':" ++ JSNum.NumberToString a ++
               qlit ",'duration_seconds':" ++ JSNum.NumberToString b ++
               CLOSE_BRACE :: [CLOSE_BRACE]).
  change (qlit "{'output':" ++ quote o ++
          qlit ",'metadata':{'exit_code':" ++ JSNum.NumberToString a ++
          qlit ",'duration_seconds':" ++ JSNum.NumberToString b ++ lit "}}")
    with (OPEN_BRACE :: QUOTE ::
          (qlit "output':" ++ quote o ++
           44%N :: QUOTE :: (qlit "metadata':" ++ meta))).
  rewrite parse_value_object.
  destruct (parse_quote o (44%N :: QUOTE :: (qlit "metadata':" ++ meta)))
    as [body [Eb Pb]].
  rewrite Eb.
  rewrite (parse_members_more (S (S (S (S (S f))))) []
             (qlit "output':" ++ QUOTE :: body) (lit "output") (QUOTE :: body)
             (JString o) (44%N :: QUOTE :: (qlit "metadata':" ++ meta))
             (QUOTE :: (qlit "metadata':" ++ meta))
             eq_refl (parse_value_string _ _ _ _ Pb) eq_refl).
  rewrite (parse_members_last (S (S (S (S f)))) _
             (qlit "metadata':" ++ meta) (lit "metadata") meta
             (JObject [ (lit "exit_code", JNumber a);
                        (lit "duration_seconds", JNumber b) ])
             [CLOSE_BRACE] [] eq_refl (parse_metadata_text f [CLOSE_BRACE])
             eq_refl).
  reflexivity.
Qed.

End ToolResultRoundTrip.

(** ** Reading a decimal that is exactly a binary64 value *)

Section ExactRounding.

Import JSNum.

Lemma digits2_pos_log2 (p : positive) :
  Zpos (digits2_pos p) = Z.log2 (Zpos p) + 1.
Proof.
  induction p as [p IH|p IH|]; cbn [digits2_pos]; [| |reflexivity].
  - rewrite Pos2Z.inj_succ, IH.
    change (Z.log2 (Zpos p~1)) with (Zpos (Pos.size p)).
    destruct p; cbn [Z.log2 Pos.size]; lia.
  - rewrite Pos2Z.inj_succ, IH.
    change (Z.log2 (Zpos p~0)) with (Zpos (Pos.size p)).
    destruct p; cbn [Z.log2 Pos.size]; lia.
Qed.

Lemma Zdigits2_log2 (z : Z) : 0 < z -> Zdigits2 z = Z.log2 z + 1.
Proof.
  destruct z as [|p|p]; try lia. intros _. apply digits2_pos_log2.
Qed.

Lemma Zdigits2_mul_pow2 (z t : Z) :
  0 < z -> 0 <= t -> Zdigits2 (z * 2 ^ t) = Zdigits2 z + t.
Proof.
  intros Hz Ht.
  rewrite !Zdigits2_log2 by (try apply Z.mul_pos_pos; try apply Z.pow_pos_nonneg; lia).
  rewrite Z.log2_mul_pow2 by lia. lia.
Qed.

Lemma iter_pos_nat {A : Type} (f : A -> A) (p : positive) (x : A) :
  iter_pos f p x = Nat.iter (Pos.to_nat p) f x.
Proof.
  revert x. induction p as [p IH|p IH|]; intros x; cbn [iter_pos].
  - rewrite !IH, Pos2Nat.inj_xI.
    replace (S (2 * Pos.to_nat p))%nat with (Pos.to_nat p + (Pos.to_nat p + 1))%nat by lia.
    rewrite !Nat.iter_add. cbn [Nat.iter]. reflexivity.
  - rewrite !IH, Pos2Nat.inj_xO.
    replace (2 * Pos.to_nat p)%nat with (Pos.to_nat p + Pos.to_nat p)%nat by lia.
    rewrite Nat.iter_add. reflexivity.
  - reflexivity.
Qed.

(** Shifting out zero bits loses nothing. *)
Lemma shr_iter_exact (n : nat) (m : positive) (z : Z) :
  z = Zpos m * 2 ^ Z.of_nat n ->
  Nat.iter n shr_1 {| shr_m := z; shr_r := false; shr_s := false |}
  = {| shr_m := Zpos m; shr_r := false; shr_s := false |}.
Proof.
  revert z. induction n as [|n IH]; intros z Hz.
  - cbn. rewrite Hz. f_equal. cbn. lia.
  - rewrite Nat.iter_succ_r.
    assert (exists q, z = Zpos (q~0) /\ Zpos q = Zpos m * 2 ^ Z.of_nat n) as [q [Hq Hq']].
    { rewrite Nat2Z.inj_succ, Z.pow_succ_r in Hz by lia.
      assert (0 < Zpos m * 2 ^ Z.of_nat n) as Hp
        by (apply Z.mul_pos_pos; [lia | apply Z.pow_pos_nonneg; lia]).
      destruct (Zpos m * 2 ^ Z.of_nat n) as [|q|q] eqn:E; try lia.
      exists q. split; [|reflexivity]. rewrite Hz. lia. }
    rewrite Hq. cbn [shr_1 orb]. apply IH. exact Hq'.
Qed.

Lemma fexp_canonical (m : positive) (e : Z) :
  bounded prec emax m e = true ->
  fexp prec emax (Zpos (digits2_pos m) + e) = e /\ e <= emax - prec.
Proof.
  unfold bounded, canonical_mantissa.
  rewrite andb_true_iff, Z.eqb_eq, Z.leb_le. tauto.
Qed.

(** Rounding the exact value [m * 2^e], written with [t] more low bits,
    gives [m * 2^e]. *)
Lemma binary_round_aux_exact (sx : bool) (m : positive) (e t : Z) :
  bounded prec emax m e = true ->
  0 <= t ->
  binary_round_aux prec emax sx (Zpos m * 2 ^ t) (e - t) loc_Exact
  = S754_finite sx m e.
Proof.
  intros Hb Ht. destruct (fexp_canonical m e Hb) as [Hc He].
  unfold binary_round_aux.
  assert (shr_fexp prec emax (Zpos m * 2 ^ t) (e - t) loc_Exact
          = ({| shr_m := Zpos m; shr_r := false; shr_s := false |}, e)) as ->.
  { unfold shr_fexp.
    rewrite Zdigits2_mul_pow2 by lia.
    replace (Zdigits2 (Zpos m) + t + (e - t)) with (Zpos (digits2_pos m) + e)
      by (cbn [Zdigits2]; lia).
    rewrite Hc. replace (e - (e - t)) with t by lia.
    cbn [shr_record_of_loc]. unfold shr.
    destruct t as [|p|p]; try lia.
    - rewrite Z.mul_1_r, Z.sub_0_r. reflexivity.
    - rewrite iter_pos_nat.
      rewrite (shr_iter_exact (Pos.to_nat p) m) by (rewrite positive_nat_Z; reflexivity).
      f_equal. lia. }
  cbn [shr_m loc_of_shr_record round_nearest_even].
  assert (shr_fexp prec emax (Zpos m) e loc_Exact
          = ({| shr_m := Zpos m; shr_r := false; shr_s := false |}, e)) as ->.
  { unfold shr_fexp. cbn [Zdigits2]. rewrite Hc, Z.sub_diag. reflexivity. }
  cbn [shr_m]. apply Z.leb_le in He. rewrite He. reflexivity.
Qed.

Lemma fexp_mono (a b : Z) :
  a <= b -> fexp prec emax a <= fexp prec emax b.
Proof. unfold fexp. lia. Qed.

(** An integer binary64 value reads exactly. *)
Lemma of_decimal_exact_int (neg : bool) (m : positive) (e : Z) :
  bounded prec emax m e = true ->
  0 <= e ->
  of_decimal neg (Zpos m * 2 ^ e) 0 = S754_finite neg m e.
Proof.
  intros Hb He. destruct (fexp_canonical m e Hb) as [Hc _].
  assert (0 < Zpos m * 2 ^ e) as Hp
    by (apply Z.mul_pos_pos; [lia | apply Z.pow_pos_nonneg; lia]).
  destruct (Zpos m * 2 ^ e) as [|q|q] eqn:Eq; try lia.
  unfold of_decimal. cbn [Z.leb Z.compare].
  rewrite Z.pow_0_r, Z.mul_1_r. cbn [Z.to_pos].
  unfold binary_round.
  assert (Zpos (digits2_pos q) = Zpos (digits2_pos m) + e) as Hd.
  { change (Zpos (digits2_pos q)) with (Zdigits2 (Zpos q)).
    rewrite <- Eq, Zdigits2_mul_pow2 by lia. reflexivity. }
  rewrite Z.add_0_r, Hd, Hc.
  unfold shl_align. rewrite Z.sub_0_r.
  assert (binary_round_aux prec emax neg (Zpos q) 0 loc_Exact
          = S754_finite neg m e) as R.
  { pose proof (binary_round_aux_exact neg m e e Hb He) as R.
    rewrite Z.sub_diag, Eq in R. exact R. }
  destruct e as [|pe|pe]; try lia; exact R.
Qed.

(** A binary64 value with a fraction part reads exactly from its exact
    decimal expansion [m * 5^n * 10^(-n)], where [e = -n]. *)
Lemma of_decimal_exact_frac (neg : bool) (m : positive) (e : Z) :
  bounded prec emax m e = true ->
  e < 0 ->
  of_decimal neg (Zpos m * 5 ^ (- e)) e = S754_finite neg m e.
Proof.
  intros Hb He. destruct (fexp_canonical m e Hb) as [Hc _].
  set (n := - e).
  assert (0 < n) as Hn by (subst n; lia).
  assert (0 < 5 ^ n) as H5 by (apply Z.pow_pos_nonneg; lia).
  assert (0 < 2 ^ n) as H2 by (apply Z.pow_pos_nonneg; lia).
  assert (0 < Zpos m * 5 ^ n) as Hp by (apply Z.mul_pos_pos; lia).
  assert (10 ^ n = 5 ^ n * 2 ^ n) as H10
    by (rewrite <- Z.pow_mul_l; reflexivity).
  destruct (Zpos m * 5 ^ n) as [|p|p] eqn:Ep; try lia.
  unfold of_decimal.
  destruct (Z.leb_spec 0 e) as [Hle|_]; [lia|]. fold n.
  assert (0 < 10 ^ n) as Hp10 by (rewrite H10; apply Z.mul_pos_pos; lia).
  destruct (10 ^ n) as [|p2|p2] eqn:Ep2; try lia. cbn [Z.to_pos].
  unfold SFdiv, SFdiv_core_binary.
  rewrite !Z.add_0_r, !Z.sub_0_r.
  set (e' := Z.min (fexp prec emax (Zdigits2 (Zpos p) - Zdigits2 (Zpos p2))) 0).
  assert (e' <= e) as He'.
  { assert (Zdigits2 (Zpos p) - Zdigits2 (Zpos p2) <= Zpos (digits2_pos m) + e) as Hd.
    { rewrite <- Ep, H10.
      rewrite Zdigits2_mul_pow2 by lia.
      rewrite !Zdigits2_log2 by lia.
      change (Zpos (digits2_pos m)) with (Zdigits2 (Zpos m)).
      rewrite (Zdigits2_log2 (Zpos m)) by lia.
      pose proof (Z.log2_mul_above (Zpos m) (5 ^ n) ltac:(lia) ltac:(lia)).
      subst n. lia. }
    apply fexp_mono in Hd. rewrite Hc in Hd. subst e'. lia. }
  replace (0 - e') with (- e') by lia.
  assert (0 < - e') as Hs by lia.
  destruct (- e') as [|ps|ps] eqn:Es; try lia.
  rewrite Z.shiftl_mul_pow2 by lia.
  set (t := e - e').
  assert (0 <= t) as Ht by (subst t; lia).
  assert (Zpos p * 2 ^ Zpos ps = (Zpos m * 2 ^ t) * Zpos p2) as Hmul.
  { rewrite <- Ep, H10, <- Es.
    replace (- e') with (t + n) by (subst t n; lia).
    rewrite Z.pow_add_r by lia. ring. }
  assert (Z.div_eucl (Zpos p * 2 ^ Zpos ps) (Zpos p2) = (Zpos m * 2 ^ t, 0)) as ->.
  { pose proof (Z.div_eucl_eq (Zpos p * 2 ^ Zpos ps) (Zpos p2) ltac:(lia)) as Hdiv.
    pose proof (Z.mod_pos_bound (Zpos p * 2 ^ Zpos ps) (Zpos p2) ltac:(lia)) as Hmod.
    unfold Z.modulo in Hmod.
    destruct (Z.div_eucl (Zpos p * 2 ^ Zpos ps) (Zpos p2)) as [q r].
    rewrite Hmul in Hdiv.
    generalize dependent (Zpos m * 2 ^ t). intros X _ Hdiv.
    assert (X - q = 0) as HX.
    { destruct (Z.lt_trichotomy (X - q) 0) as [Hlt|[Heq|Hgt]];
        [exfalso; nia | exact Heq | exfalso; nia]. }
    assert (q = X) as -> by lia. f_equal. lia. }
  assert (new_location (Zpos p2) 0 = loc_Exact) as ->.
  { unfold new_location, new_location_even, new_location_odd.
    destruct (Z.even (Zpos p2)); reflexivity. }
  rewrite xorb_false_r.
  replace e' with (e - t) by (subst t; lia).
  now apply binary_round_aux_exact.
Qed.

End ExactRounding.

(** ** Decimal digits *)

Section DecimalDigits.

Import JSNum JSON.

Lemma pow10_pos (k : Z) : 0 <= k -> 0 < 10 ^ k.
Proof. intros H. apply Z.pow_pos_nonneg; lia. Qed.

(** [count_digits] counts the digits. *)
Lemma count_digits_spec (fuel : nat) (z : Z) :
  0 < z -> Z.log2 z <= Z.of_nat fuel ->
  10 ^ (Z.of_nat (count_digits fuel z) - 1) <= z < 10 ^ Z.of_nat (count_digits fuel z).
Proof.
  revert z. induction fuel as [|f IH]; intros z Hz Hl.
  - cbn [count_digits].
    assert (z < 2 ^ 1) as H by (apply Z.log2_lt_pow2; lia).
    change (2 ^ 1) with 2 in H. cbn. lia.
  - cbn [count_digits]. destruct (Z.ltb_spec z 10) as [Hlt|Hge].
    + cbn. lia.
    + assert (0 < z / 10) as Hq by (apply Z.div_str_pos; lia).
      assert (Z.log2 (z / 10) <= Z.of_nat f) as Hl'.
      { assert (Z.log2 (z / 10) < Z.log2 z); [|lia].
        apply Z.log2_lt_pow2; [exact Hq|].
        apply Z.div_lt_upper_bound; [lia|].
        destruct (Z.log2_spec z Hz) as [_ Hu].
        rewrite Z.pow_succ_r in Hu by apply Z.log2_nonneg. lia. }
      specialize (IH (z / 10) Hq Hl').
      rewrite Nat2Z.inj_succ.
      set (c := Z.of_nat (count_digits f (z / 10))) in *.
      assert (1 <= c) as Hc by (subst c; destruct f; cbn [count_digits];
                                 [lia | destruct (z / 10 <? 10); lia]).
      replace (Z.succ c - 1) with (Z.succ (c - 1)) by lia.
      rewrite !Z.pow_succ_r by lia.
      pose proof (Z.div_mod z 10 ltac:(lia)) as Hdm.
      pose proof (Z.mod_pos_bound z 10 ltac:(lia)) as Hmb.
      lia.
Qed.

Lemma ndigits_pos (z : Z) : (1 <= ndigits z)%nat.
Proof.
  unfold ndigits. destruct (Z.to_nat (Z.log2 z)); cbn [count_digits];
    [lia | destruct (z <? 10); lia].
Qed.

Lemma ndigits_spec (z : Z) :
  0 < z ->
  10 ^ (Z.of_nat (ndigits z) - 1) <= z < 10 ^ Z.of_nat (ndigits z).
Proof.
  intros Hz. apply count_digits_spec; [exact Hz|].
  rewrite Z2Nat.id by apply Z.log2_nonneg. lia.
Qed.

Lemma ndigits_bound (z : Z) : 0 <= z -> z < 10 ^ Z.of_nat (ndigits z).
Proof.
  intros Hz. destruct (Z.eq_dec z 0) as [->|Hn].
  - reflexivity.
  - apply ndigits_spec. lia.
Qed.

(** A digit is a digit. *)
Lemma digit_unit (x : Z) :
  0 <= x <= 9 ->
  is_digit (Z.to_N (48 + x)) = true /\ digit_val (Z.to_N (48 + x)) = x.
Proof.
  intros Hx. unfold is_digit, digit_val.
  rewrite andb_true_iff, !N.leb_le. rewrite Z2N.id by lia. lia.
Qed.

(** Reading [k] digits of [s] after [acc]. *)
Lemma take_digits_digits_n (k : nat) (s : Z) (rest : jsstring) (acc c : Z) :
  0 <= s ->
  take_digits (digits_n k s ++ rest) acc c
  = take_digits rest (acc * 10 ^ Z.of_nat k + s mod 10 ^ Z.of_nat k)
                (c + Z.of_nat k).
Proof.
  intros Hs. revert acc c. induction k as [|k IH]; intros acc c.
  - cbn [digits_n app Z.of_nat]. rewrite Z.pow_0_r, Z.mod_1_r. f_equal; lia.
  - cbn [digits_n app take_digits].
    pose proof (pow10_pos (Z.of_nat k) ltac:(lia)) as Hp.
    pose proof (Z.mod_pos_bound (s / 10 ^ Z.of_nat k) 10 ltac:(lia)) as Hb.
    destruct (digit_unit ((s / 10 ^ Z.of_nat k) mod 10) ltac:(lia)) as [Hd Hv].
    rewrite Hd, Hv, IH. f_equal; [|lia].
    rewrite Nat2Z.inj_succ, Z.pow_succ_r by lia.
    rewrite (Z.mul_comm 10 (10 ^ Z.of_nat k)).
    rewrite (Z.rem_mul_r s (10 ^ Z.of_nat k) 10) by lia.
    ring.
Qed.

Lemma take_digits_zeros (j : Z) (rest : jsstring) (acc c : Z) :
  0 <= j ->
  take_digits (zeros j ++ rest) acc c = take_digits rest (acc * 10 ^ j) (c + j).
Proof.
  intros Hj. unfold zeros.
  rewrite <- (Z2Nat.id j Hj) at 2 3. generalize (Z.to_nat j). clear j Hj.
  intros n. revert acc c. induction n as [|n IH]; intros acc c.
  - cbn [repeat app Z.of_nat]. rewrite Z.pow_0_r. f_equal; lia.
  - cbn [repeat app take_digits].
    change (is_digit 48) with true. cbn iota.
    change (digit_val 48) with 0. rewrite IH.
    rewrite Nat2Z.inj_succ, Z.pow_succ_r by lia. f_equal; lia.
Qed.

(** Splitting the digits. *)
Lemma skipn_digits_n (j k : nat) (s : Z) :
  (j <= k)%nat -> skipn j (digits_n k s) = digits_n (k - j) s.
Proof.
  revert j. induction k as [|k IH]; intros j Hj.
  - destruct j; reflexivity.
  - destruct j as [|j]; [reflexivity|].
    cbn [digits_n skipn]. rewrite IH by lia. reflexivity.
Qed.

Lemma firstn_digits_n (j k : nat) (s : Z) :
  0 <= s -> (j <= k)%nat ->
  firstn j (digits_n k s) = digits_n j (s / 10 ^ Z.of_nat (k - j)).
Proof.
  intros Hs. revert k. induction j as [|j IH]; intros k Hj; [reflexivity|].
  destruct k as [|k]; [lia|].
  cbn [digits_n firstn]. rewrite IH by lia.
  replace (S k - S j)%nat with (k - j)%nat by lia.
  f_equal. f_equal. f_equal. f_equal.
  rewrite Z.div_div by (try apply pow10_pos; lia).
  rewrite <- Z.pow_add_r by lia. f_equal. f_equal. lia.
Qed.

(** The digits of a number with exactly [k] digits start with a non-zero
    digit, so they are an integer part. *)
Lemma parse_int_part_digits (k : nat) (s : Z) (rest : jsstring) :
  (1 <= k)%nat ->
  10 ^ (Z.of_nat k - 1) <= s < 10 ^ Z.of_nat k ->
  parse_int_part (digits_n k s ++ rest)
  = let '(v, _, r) := take_digits rest s (Z.of_nat k) in Some (v, r).
Proof.
  intros Hk Hs.
  assert (0 < 10 ^ (Z.of_nat k - 1)) as Hp by (apply pow10_pos; lia).
  pose proof (take_digits_digits_n k s rest 0 0 ltac:(lia)) as T.
  rewrite Z.mod_small in T by lia. cbn [Z.mul Z.add] in T.
  destruct k as [|k]; [lia|].
  cbn [digits_n app] in T |- *. cbn [take_digits] in T.
  replace (Z.of_nat (S k) - 1) with (Z.of_nat k) in * by lia.
  assert (1 <= s / 10 ^ Z.of_nat k <= 9) as Hq.
  { split.
    - apply Z.div_le_lower_bound; lia.
    - assert (s / 10 ^ Z.of_nat k < 10); [|lia].
      apply Z.div_lt_upper_bound; [lia|].
      rewrite Nat2Z.inj_succ, Z.pow_succ_r in Hs by lia. lia. }
  rewrite Z.mod_small in T |- * by lia.
  destruct (digit_unit (s / 10 ^ Z.of_nat k) ltac:(lia)) as [Hd Hv].
  rewrite Hd, Hv in T.
  unfold parse_int_part.
  destruct (N.eqb_spec (Z.to_N (48 + s / 10 ^ Z.of_nat k)) 48) as [E|_].
  { apply (f_equal Z.of_N) in E. rewrite Z2N.id in E by lia.
    change (Z.of_N 48) with 48 in E. lia. }
  rewrite Hd, Hv.
  cbn [Z.mul Z.add] in T. rewrite T.
  destruct (take_digits rest s (Z.of_nat (S k))) as [[v c] r]. reflexivity.
Qed.

End DecimalDigits.

(** ** Reading the text of a number *)

Section NumberLayout.

Import JSNum JSON.

#[local] Arguments Z.mul : simpl never.
#[local] Arguments Z.add : simpl never.
#[local] Arguments Z.sub : simpl never.
#[local] Arguments Z.pow : simpl never.
#[local] Arguments Z.div : simpl never.
#[local] Arguments Z.modulo : simpl never.

(** A number literal from its three parts. *)
Lemma parse_number_parts (neg : bool) (t : jsstring) (i : Z) (s2 : jsstring)
  (m nf : Z) (s3 : jsstring) (e : Z) (s4 : jsstring) :
  parse_int_part t = Some (i, s2) ->
  parse_frac_part i s2 = Some (m, nf, s3) ->
  parse_exp_part s3 = Some (e, s4) ->
  parse_number ((if neg then lit "-" else []) ++ t)
  = Some (of_decimal neg m (e - nf), s4).
Proof.
  intros Hi Hf He. unfold parse_number.
  destruct neg.
  - change (lit "-" ++ t) with (45%N :: t). cbv beta iota.
    change (N.eqb 45 45) with true. cbv beta iota.
    rewrite Hi, Hf, He. reflexivity.
  - cbn [app]. destruct t as [|c r]; [discriminate Hi|].
    destruct (N.eqb_spec c 45) as [->|_]; [discriminate Hi|].
    rewrite Hi, Hf, He. reflexivity.
Qed.

Lemma take_digits_stop (c : N) (r : jsstring) (acc n : Z) :
  is_digit c = false -> take_digits (c :: r) acc n = (acc, n, c :: r).
Proof. intros H. cbn [take_digits]. rewrite H. reflexivity. Qed.

Lemma take_digits_all (k : nat) (s acc c : Z) :
  0 <= s ->
  take_digits (digits_n k s) acc c
  = (acc * 10 ^ Z.of_nat k + s mod 10 ^ Z.of_nat k, c + Z.of_nat k, []).
Proof.
  intros Hs. rewrite <- (app_nil_r (digits_n k s)).
  rewrite take_digits_digits_n by exact Hs. reflexivity.
Qed.

(** The exponent part written by [layout]. *)
Lemma parse_exp_part_layout (e : Z) :
  parse_exp_part (lit "e" ++ (if e <? 0 then lit "-" else lit "+")
                          ++ digits_of (Z.abs e)) = Some (e, []).
Proof.
  pose proof (ndigits_bound (Z.abs e) ltac:(lia)) as Hb.
  pose proof (ndigits_pos (Z.abs e)) as Hp.
  assert (take_digits (digits_of (Z.abs e)) 0 0
          = (Z.abs e, Z.of_nat (ndigits (Z.abs e)), [])) as T.
  { unfold digits_of. rewrite take_digits_all by lia.
    rewrite Z.mod_small by lia. f_equal. }
  destruct (Z.ltb_spec e 0) as [Hn|Hn].
  - change (lit "e" ++ lit "-" ++ digits_of (Z.abs e))
      with (101%N :: 45%N :: digits_of (Z.abs e)).
    cbn [parse_exp_part]. change (N.eqb 101 101) with true.
    change (N.eqb 45 45) with true. cbn [orb]. rewrite T.
    destruct (Z.eqb_spec (Z.of_nat (ndigits (Z.abs e))) 0); [lia|].
    f_equal. f_equal. lia.
  - change (lit "e" ++ lit "+" ++ digits_of (Z.abs e))
      with (101%N :: 43%N :: digits_of (Z.abs e)).
    cbn [parse_exp_part]. change (N.eqb 101 101) with true.
    change (N.eqb 43 45) with false. change (N.eqb 43 43) with true.
    cbn [orb]. rewrite T.
    destruct (Z.eqb_spec (Z.of_nat (ndigits (Z.abs e))) 0); [lia|].
    f_equal. f_equal. lia.
Qed.

(** An integer written with trailing zeros. *)
Lemma of_decimal_shift (neg : bool) (s j : Z) :
  0 < s -> 0 <= j -> of_decimal neg (s * 10 ^ j) (0 - 0) = of_decimal neg s j.
Proof.
  intros Hs Hj. pose proof (pow10_pos j Hj) as Hp.
  unfold of_decimal.
  destruct s as [|p|p]; try lia.
  destruct (Zpos p * 10 ^ j) as [|q|q] eqn:E; try lia.
  change (0 - 0) with 0. change (0 <=? 0) with true.
  destruct (Z.leb_spec 0 j); [|lia].
  rewrite <- E. change (10 ^ 0) with 1. rewrite Z.mul_1_r. reflexivity.
Qed.

Lemma div_mod_recompose (s p : Z) : 0 < p -> s / p * p + s mod p = s.
Proof. intros Hp. pose proof (Z.div_mod s p ltac:(lia)). lia. Qed.

Lemma split_digits_range (s k n : Z) :
  0 < n -> n < k ->
  10 ^ (k - 1) <= s < 10 ^ k ->
  10 ^ (n - 1) <= s / 10 ^ (k - n) < 10 ^ n.
Proof.
  intros Hn Hk [Hl Hu].
  pose proof (pow10_pos (k - n) ltac:(lia)) as Hp.
  split.
  - apply Z.div_le_lower_bound; [lia|].
    rewrite <- Z.pow_add_r by lia.
    replace (k - n + (n - 1)) with (k - 1) by lia. exact Hl.
  - apply Z.div_lt_upper_bound; [lia|].
    rewrite <- Z.pow_add_r by lia.
    replace (k - n + n) with k by lia. exact Hu.
Qed.

Lemma point_app (r : jsstring) : lit "." ++ r = 46%N :: r.
Proof. reflexivity. Qed.

Lemma zero_point_app (r : jsstring) : lit "0." ++ r = 48%N :: 46%N :: r.
Proof. reflexivity. Qed.

Lemma exponent_mark_app (r : jsstring) : lit "e" ++ r = 101%N :: r.
Proof. reflexivity. Qed.

(** The exponent form: one digit, the other digits after a point, and
    the exponent. *)
Lemma exponent_form (neg : bool) (s n k : Z) :
  1 <= k -> 10 ^ (k - 1) <= s < 10 ^ k ->
  parse_number
    ((if neg then lit "-" else []) ++
     (if k =? 1 then digits_n (Z.to_nat k) s
      else firstn 1 (digits_n (Z.to_nat k) s) ++ lit "." ++
           skipn 1 (digits_n (Z.to_nat k) s)) ++
     lit "e" ++ (if n - 1 <? 0 then lit "-" else lit "+") ++
     digits_of (Z.abs (n - 1)))
  = Some (of_decimal neg s (n - k), []).
Proof.
  intros Hk Hs.
  assert (0 < 10 ^ (k - 1)) as Hp by (apply pow10_pos; lia).
  destruct (Z.eqb_spec k 1) as [->|Hk1].
  - change (Z.to_nat 1) with 1%nat.
    replace (n - 1) with (n - 1 - 0) at 3 by lia.
    eapply (parse_number_parts neg _ _ _ s 0 _ (n - 1) []).
    + rewrite parse_int_part_digits by (try exact Hs; lia).
      rewrite exponent_mark_app.
      rewrite take_digits_stop by reflexivity. reflexivity.
    + reflexivity.
    + rewrite <- exponent_mark_app. apply parse_exp_part_layout.
  - rewrite firstn_digits_n, skipn_digits_n by lia.
    replace (Z.of_nat (Z.to_nat k - 1)) with (k - 1) by lia.
    pose proof (split_digits_range s k 1 ltac:(lia) ltac:(lia) Hs) as Hr.
    replace (n - k) with (n - 1 - (k - 1)) by lia.
    eapply (parse_number_parts neg _ _ _ s (k - 1) _ (n - 1) []).
    + rewrite <- !app_assoc.
      rewrite (parse_int_part_digits 1) by (try exact Hr; lia).
      rewrite point_app.
      rewrite take_digits_stop by reflexivity. reflexivity.
    + cbn [parse_frac_part]. change (N.eqb 46 46) with true. cbn iota.
      rewrite take_digits_digits_n by lia.
      rewrite exponent_mark_app.
      rewrite take_digits_stop by reflexivity.
      replace (Z.of_nat (Z.to_nat k - 1)) with (k - 1) by lia.
      rewrite div_mod_recompose, Z.add_0_l by lia.
      destruct (Z.eqb_spec (k - 1) 0); [lia|]. reflexivity.
    + rewrite <- exponent_mark_app. apply parse_exp_part_layout.
Qed.

(** The text [layout] writes for [k] digits [s] and exponent [n] is a
    number literal for the decimal [s * 10^(n-k)]. *)
Lemma parse_number_layout (neg : bool) (s n k : Z) :
  1 <= k -> 10 ^ (k - 1) <= s < 10 ^ k ->
  parse_number ((if neg then lit "-" else []) ++ layout s n k)
  = Some (of_decimal neg s (n - k), []).
Proof.
  intros Hk Hs.
  assert (0 < 10 ^ (k - 1)) as Hp by (apply pow10_pos; lia).
  assert (0 < s) as Hs0 by lia.
  assert (Z.of_nat (Z.to_nat k) = k) as Ek by lia.
  unfold layout.
  destruct (Z.leb_spec k n) as [Hkn|Hkn];
    [destruct (Z.leb_spec n 21) as [Hn21|Hn21]|]; cbn [andb].
  - (* digits and zeros *)
    rewrite <- (of_decimal_shift neg s (n - k)) by lia.
    eapply (parse_number_parts neg _ _ _ (s * 10 ^ (n - k)) 0 _ 0 []).
    + rewrite parse_int_part_digits by (rewrite ?Ek; first [exact Hs | lia]).
      rewrite <- (app_nil_r (zeros (n - k))).
      rewrite take_digits_zeros by lia. cbn [take_digits]. reflexivity.
    + reflexivity.
    + reflexivity.
  - destruct (Z.ltb_spec 0 n); [|lia]. destruct (Z.leb_spec n 21); [lia|].
    cbn [andb]. destruct (Z.ltb_spec (-6) n); [|lia].
    destruct (Z.leb_spec n 0); [lia|]. cbn [andb].
    apply exponent_form; assumption.
  - destruct (Z.ltb_spec 0 n) as [Hn0|Hn0];
      [destruct (Z.leb_spec n 21) as [Hn21|Hn21]|]; cbn [andb].
    + (* digits, point, digits *)
      rewrite firstn_digits_n, skipn_digits_n by lia.
      replace (Z.of_nat (Z.to_nat k - Z.to_nat n)) with (k - n) by lia.
      pose proof (split_digits_range s k n Hn0 Hkn Hs) as Hr.
      pose proof (pow10_pos (k - n) ltac:(lia)) as Hq.
      replace (n - k) with (0 - (k - n)) by lia.
      eapply (parse_number_parts neg _ _ _ s (k - n) _ 0 []).
      * rewrite parse_int_part_digits
          by (rewrite ?Nat2Z.id, ?Z2Nat.id by lia; first [exact Hr | lia]).
        rewrite point_app.
        rewrite take_digits_stop by reflexivity. reflexivity.
      * cbn [parse_frac_part]. change (N.eqb 46 46) with true. cbn iota.
        rewrite take_digits_all by lia.
        replace (Z.of_nat (Z.to_nat k - Z.to_nat n)) with (k - n) by lia.
        rewrite div_mod_recompose, Z.add_0_l by lia.
        destruct (Z.eqb_spec (k - n) 0); [lia|]. reflexivity.
      * reflexivity.
    + destruct (Z.leb_spec n 0); [lia|]. rewrite andb_false_r.
      apply exponent_form; assumption.
    + destruct (Z.ltb_spec (-6) n) as [Hn6|Hn6];
        [destruct (Z.leb_spec n 0); [|lia]|]; cbn [andb].
      * (* zero, point, zeros, digits *)
        replace (n - k) with (0 - (k - n)) by lia.
        eapply (parse_number_parts neg _ _ _ s (k - n) _ 0 []).
        -- rewrite zero_point_app.
           cbn [parse_int_part]. change (N.eqb 48 48) with true. reflexivity.
        -- cbn [parse_frac_part]. change (N.eqb 46 46) with true. cbn iota.
           rewrite take_digits_zeros by lia.
           rewrite take_digits_all by lia. rewrite Ek.
           rewrite Z.mod_small by lia.
           rewrite !Z.mul_0_l, !Z.add_0_l.
           replace (- n + k) with (k - n) by lia.
           destruct (Z.eqb_spec (k - n) 0); [lia|]. reflexivity.
        -- reflexivity.
      * apply exponent_form; assumption.
Qed.

End NumberLayout.

(** ** The text of a Number reads back *)

Section NumberReadsBack.

Import JSNum JSON.

Lemma number_eqb_refl (x : number) : eqb x x = true.
Proof.
  destruct x as [s|s| |s m e]; cbn [eqb]; try reflexivity;
    try (destruct s; reflexivity).
  rewrite Pos.eqb_refl, Z.eqb_refl. destruct s; reflexivity.
Qed.

Lemma represents_spec (x : number) (s n k : Z) :
  represents x s n k = true ->
  1 <= k /\ 10 ^ (k - 1) <= s < 10 ^ k /\ of_decimal false s (n - k) = x.
Proof.
  unfold represents. rewrite !andb_true_iff, !Z.leb_le, Z.ltb_lt.
  intros [[[H1 H2] H3] H4]. apply number_eqb_eq in H4. auto.
Qed.

(** The exact expansion represents the number. *)
Lemma exact_decimal_represents (m : positive) (e : Z) :
  bounded prec emax m e = true ->
  let '(s, n, k) := exact_decimal m e in
  represents (S754_finite false m e) s n k = true.
Proof.
  intros Hb. unfold exact_decimal.
  assert (forall s d, 0 < s ->
            of_decimal false s d = S754_finite false m e ->
            represents (S754_finite false m e) s
              (Z.of_nat (ndigits s) + d) (Z.of_nat (ndigits s)) = true) as K.
  { intros s d Hs Hd. unfold represents.
    pose proof (ndigits_pos s) as Hp. pose proof (ndigits_spec s Hs) as Hr.
    replace (Z.of_nat (ndigits s) + d - Z.of_nat (ndigits s)) with d by lia.
    rewrite Hd, number_eqb_refl.
    rewrite !andb_true_iff, !Z.leb_le, Z.ltb_lt. lia. }
  destruct (Z.leb_spec 0 e) as [He|He].
  - apply K.
    + apply Z.mul_pos_pos; [lia | apply Z.pow_pos_nonneg; lia].
    + apply of_decimal_exact_int; assumption.
  - apply K.
    + apply Z.mul_pos_pos; [lia | apply Z.pow_pos_nonneg; lia].
    + apply of_decimal_exact_frac; assumption.
Qed.

(** A candidate that is picked was checked. *)
Lemma pick_candidate_represents (x : number) (num den n k s n' : Z) :
  pick_candidate x num den n k = Some (s, n') ->
  represents x s n' k = true.
Proof.
  unfold pick_candidate.
  set (f := fun c : Z * Z * Z * Z =>
              let '(s0, n0, _, _) := c in represents x s0 n0 k).
  assert (forall c, In c (filter f (candidates num den n k)) -> f c = true) as K
    by (intros c Hin; apply filter_In in Hin; tauto).
  destruct (filter f (candidates num den n k)) as [|c1 [|c2 l]].
  - discriminate.
  - intros H. specialize (K c1 (or_introl eq_refl)).
    destruct c1 as [[[s1 n1] d1] b1]. cbn beta iota in K.
    injection H as <- <-. exact K.
  - pose proof (K c1 (or_introl eq_refl)) as K1.
    pose proof (K c2 (or_intror (or_introl eq_refl))) as K2.
    destruct c1 as [[[s1 n1] d1] b1]. destruct c2 as [[[s2 n2] d2] b2].
    cbn beta iota in K1, K2. unfold better.
    destruct (d1 <? d2); [|destruct (d2 <? d1); [|destruct (Z.even s1)]];
      intros H; injection H as <- <-; assumption.
Qed.

Lemma shortest_represents (m : positive) (e num den n : Z) (ks : list Z) :
  bounded prec emax m e = true ->
  let '(s, n', k) := shortest (S754_finite false m e) m e num den n ks in
  represents (S754_finite false m e) s n' k = true.
Proof.
  intros Hb. induction ks as [|k ks IH]; cbn [shortest].
  - apply exact_decimal_represents; assumption.
  - destruct (pick_candidate (S754_finite false m e) num den n k)
      as [[s n']|] eqn:E.
    + apply (pick_candidate_represents _ _ _ _ _ _ _ E).
    + exact IH.
Qed.

(** The digits that [Number::toString] writes represent the number. *)
Lemma shortest_digits_represents (m : positive) (e : Z) :
  bounded prec emax m e = true ->
  let '(s, n, k) := shortest_digits m e in
  represents (S754_finite false m e) s n k = true.
Proof.
  intros Hb. unfold shortest_digits.
  destruct (frac_of m e) as [num den].
  apply shortest_represents; assumption.
Qed.

(** The sign is carried through the rounding. *)
Lemma binary_round_aux_sign (M E : Z) (l : location) (m : positive) (e : Z)
  (sg : bool) :
  binary_round_aux prec emax false M E l = S754_finite false m e ->
  binary_round_aux prec emax sg M E l = S754_finite sg m e.
Proof.
  unfold binary_round_aux.
  destruct (shr_fexp prec emax M E l) as [mrs' e'].
  destruct (shr_fexp prec emax _ e' loc_Exact) as [mrs'' e''].
  destruct (shr_m mrs''); try discriminate.
  destruct (Z.leb e'' (emax - prec)); try discriminate.
  intros H. injection H as -> ->. reflexivity.
Qed.

Lemma of_decimal_sign (s d : Z) (m : positive) (e : Z) (sg : bool) :
  of_decimal false s d = S754_finite false m e ->
  of_decimal sg s d = S754_finite sg m e.
Proof.
  unfold of_decimal. destruct s as [|p|p]; try discriminate.
  destruct (0 <=? d).
  - unfold binary_round.
    destruct (shl_align _ _ _) as [mz ez]. apply binary_round_aux_sign.
  - unfold SFdiv.
    destruct (SFdiv_core_binary _ _ _ _ _ _) as [[mz ez] lz].
    rewrite !xorb_false_r. apply binary_round_aux_sign.
Qed.

(** The first code unit of a number literal. *)
Lemma parse_number_head (t : jsstring) (x : number) (rest : jsstring) :
  parse_number t = Some (x, rest) ->
  exists c r, t = c :: r /\ (c = 45%N \/ is_digit c = true).
Proof.
  unfold parse_number. destruct t as [|c r]; [discriminate|].
  intros H. exists c, r. split; [reflexivity|].
  destruct (N.eqb_spec c 45) as [->|Hc]; [left; reflexivity|]. right.
  cbn [parse_int_part] in H.
  destruct (N.eqb_spec c 48) as [->|_]; [reflexivity|].
  destruct (is_digit c); [reflexivity | discriminate H].
Qed.

(** A text that is one number literal is parsed as that number. *)
Lemma parse_number_text (t : jsstring) (x : number) :
  parse_number t = Some (x, []) -> JSON.parse t = Ok (JNumber x).
Proof.
  intros H. destruct (parse_number_head _ _ _ H) as [c [r [-> Hc]]].
  assert (48 <= c <= 57 \/ c = 45)%N as Hr.
  { destruct Hc as [->|Hd]; [right; reflexivity|]. left.
    unfold is_digit in Hd. rewrite andb_true_iff, !N.leb_le in Hd. lia. }
  unfold JSON.parse. cbn [parse_value skip_ws].
  assert (is_ws c = false) as Hw.
  { unfold is_ws. rewrite !orb_false_iff, !N.eqb_neq. lia. }
  rewrite Hw.
  destruct (N.eqb_spec c OPEN_BRACE) as [E|_]; [unfold OPEN_BRACE in E; lia|].
  destruct (N.eqb_spec c OPEN_BRACKET) as [E|_];
    [unfold OPEN_BRACKET in E; lia|].
  destruct (N.eqb_spec c QUOTE) as [E|_]; [unfold QUOTE in E; lia|].
  destruct (N.eqb_spec c 116) as [E|_]; [lia|].
  destruct (N.eqb_spec c 102) as [E|_]; [lia|].
  destruct (N.eqb_spec c 110) as [E|_]; [lia|].
  rewrite H. reflexivity.
Qed.

(** [Number::toString] and [JSON.parse] are inverse on the real numbers:
    the text of every finite binary64 value other than [-0] reads back as
    that value. *)
Lemma number_reads_back (x : number) : is_real x = true -> reads_back x.
Proof.
  unfold reads_back. destruct x as [s|s| |s m e]; try discriminate.
  - destruct s; [discriminate|]. intros _. vm_compute. reflexivity.
  - cbn [is_real]. intros Hb. apply parse_number_text.
    unfold NumberToString.
    pose proof (shortest_digits_represents m e Hb) as R.
    destruct (shortest_digits m e) as [[d n] k].
    apply represents_spec in R. destruct R as [Hk [Hr Hd]].
    rewrite (parse_number_layout s d n k Hk Hr).
    rewrite (of_decimal_sign _ _ _ _ s Hd). reflexivity.
Qed.

End NumberReadsBack.

(** The two zeros are written alike: negative zero reads back as [+0]. *)
Lemma negative_zero_reads_as_zero :
  JSON.parse (JSNum.NumberToString (S754_zero true))
  = Ok (JNumber (S754_zero false)).
Proof. vm_compute. reflexivity. Qed.

(** C8. Round trip: for a result with text [o] and real numbers [a], [b]
    (any finite binary64 values, with the one zero), the text that
    [JSON.stringify] writes for
    [{ output: o, metadata: { exit_code: a, duration_seconds: b } }] is
    decoded by the first stage into the same output and metadata. *)
Theorem tool_result_round_trip (o : jsstring) (a b : JSNum.number) (env : Env) :
  JSNum.is_real a = true ->
  JSNum.is_real b = true ->
  exists text,
    JSON.serialize (tool_result_value o a b) = Some text /\
    recovery_outcome text =
      Direct {| output := JString o;
                metadata := JObject [ (lit "exit_code", JNumber a);
                                      (lit "duration_seconds", JNumber b) ] |} /\
    snd (parseToolCallOutput text env) =
      Ok {| output := JString o;
            metadata := JObject [ (lit "exit_code", JNumber a);
                                  (lit "duration_seconds", JNumber b) ] |}.
Proof.
  intros Ra Rb.
  pose proof (number_reads_back a Ra) as Ha.
  pose proof (number_reads_back b Rb) as Hb.
  exists (tool_result_text o a b).
  split; [now apply serialize_tool_result|].
  assert (recovery_outcome (tool_result_text o a b) =
          Direct {| output := JString o;
                    metadata := JObject [ (lit "exit_code", JNumber a);
                                          (lit "duration_seconds", JNumber b) ] |})
    as Hr.
  { unfold recovery_outcome, direct_result.
    rewrite (parse_tool_result_text o a b Ha Hb). reflexivity. }
  split; [exact Hr|].
  rewrite parseToolCallOutput_outcome. unfold decode_result, stages_result.
  rewrite Hr. reflexivity.
Qed.

(** The payload of the test script: an output with a line feed, a quote
    and a reverse solidus, exit code 0 and duration 1.234. *)
Lemma tool_result_round_trip_witness :
  JSNum.is_real (JSNum.of_Z 0) = true /\
  JSNum.is_real (JSNum.of_decimal false 1234 (-3)) = true /\
  exists text,
    JSON.serialize
      (tool_result_value (qlit "a'b\c" ++ [NEWLINE]) (JSNum.of_Z 0)
                         (JSNum.of_decimal false 1234 (-3))) = Some text /\
    snd (parseToolCallOutput text DEBUG_ON) =
      Ok {| output := JString (qlit "a'b\c" ++ [NEWLINE]);
            metadata := JObject [ (lit "exit_code", JNumber (JSNum.of_Z 0));
                                  (lit "duration_seconds",
                                   JNumber (JSNum.of_decimal false 1234 (-3))) ] |}.
Proof.
  assert (JSNum.is_real (JSNum.of_Z 0) = true) as H0
    by (vm_compute; reflexivity).
  assert (JSNum.is_real (JSNum.of_decimal false 1234 (-3)) = true) as H1
    by (vm_compute; reflexivity).
  split; [exact H0|]. split; [exact H1|].
  destruct (tool_result_round_trip (qlit "a'b\c" ++ [NEWLINE]) _ _ DEBUG_ON H0 H1)
    as [text [Hs [_ Hp]]].
  exists text. split; [exact Hs | exact Hp].
Defined.

(** * Further properties of the decoders and of their callers *)

(** ** Runs of the parser with any sufficient bound *)

Section ParseRuns.

Import JSON.

(** One unfolding of each of the three parsers. *)
Lemma parse_value_eq (f : nat) (s : jsstring) :
  parse_value (S f) s =
  match skip_ws s with
  | [] => PErr
  | c :: r =>
      if N.eqb c OPEN_BRACE then
        match skip_ws r with
        | c' :: r' =>
            if N.eqb c' CLOSE_BRACE then POk (JObject []) r'
            else parse_members f [] (c' :: r')
        | [] => PErr
        end
      else if N.eqb c OPEN_BRACKET then
        match skip_ws r with
        | c' :: r' =>
            if N.eqb c' CLOSE_BRACKET then POk (JArray []) r'
            else parse_elements f [] (c' :: r')
        | [] => PErr
        end
      else if N.eqb c QUOTE then
        match parse_string_body r with
        | Some (str, rest) => POk (JString str) rest
        | None => PErr
        end
      else if N.eqb c 116 then
        match expect (lit "rue") r with
        | Some rest => POk (JBool true) rest | None => PErr end
      else if N.eqb c 102 then
        match expect (lit "alse") r with
        | Some rest => POk (JBool false) rest | None => PErr end
      else if N.eqb c 110 then
        match expect (lit "ull") r with
        | Some rest => POk JNull rest | None => PErr end
      else
        match parse_number (c :: r) with
        | Some (x, rest) => POk (JNumber x) rest
        | None => PErr
        end
  end.
Proof. reflexivity. Qed.

Lemma parse_elements_eq (f : nat) (acc : list JSValue) (s : jsstring) :
  parse_elements (S f) acc s =
  match parse_value f s with
  | POk v rest =>
      match skip_ws rest with
      | c :: r =>
          if N.eqb c 44 then parse_elements f (v :: acc) r
          else if N.eqb c CLOSE_BRACKET then POk (JArray (rev (v :: acc))) r
          else PErr
      | [] => PErr
      end
  | PErr => PErr
  | PFuel => PFuel
  end.
Proof. reflexivity. Qed.

Lemma parse_members_eq (f : nat) (acc : list (jsstring * JSValue))
  (s : jsstring) :
  parse_members (S f) acc s =
  match skip_ws s with
  | c :: r =>
      if N.eqb c QUOTE then
        match parse_string_body r with
        | Some (key, rest) =>
            match skip_ws rest with
            | c1 :: r1 =>
                if N.eqb c1 58 then
                  match parse_value f r1 with
                  | POk v rest' =>
                      match skip_ws rest' with
                      | c2 :: r2 =>
                          if N.eqb c2 44
                          then parse_members f (prop_set acc key v) r2
                          else if N.eqb c2 CLOSE_BRACE
                          then POk (JObject (prop_set acc key v)) r2
                          else PErr
                      | [] => PErr
                      end
                  | PErr => PErr
                  | PFuel => PFuel
                  end
                else PErr
            | [] => PErr
            end
        | None => PErr
        end
      else PErr
  | [] => PErr
  end.
Proof. reflexivity. Qed.

(** A run that does not stop at the bound is the same with a larger
    bound. *)
Lemma parse_fuel_succ (f : nat) :
  (forall s, parse_value f s <> PFuel -> parse_value (S f) s = parse_value f s) /\
  (forall acc s, parse_elements f acc s <> PFuel ->
                 parse_elements (S f) acc s = parse_elements f acc s) /\
  (forall acc s, parse_members f acc s <> PFuel ->
                 parse_members (S f) acc s = parse_members f acc s).
Proof.
  induction f as [|f [IHv [IHe IHm]]].
  { repeat split; intros; exfalso; auto. }
  split; [|split].
  - intros s. rewrite (parse_value_eq (S f)), (parse_value_eq f).
    destruct (skip_ws s) as [|c r]; [reflexivity|].
    destruct (N.eqb c OPEN_BRACE).
    { destruct (skip_ws r) as [|c' r']; [reflexivity|].
      destruct (N.eqb c' CLOSE_BRACE); [reflexivity|]. apply IHm. }
    destruct (N.eqb c OPEN_BRACKET).
    { destruct (skip_ws r) as [|c' r']; [reflexivity|].
      destruct (N.eqb c' CLOSE_BRACKET); [reflexivity|]. apply IHe. }
    reflexivity.
  - intros acc s. rewrite (parse_elements_eq (S f)), (parse_elements_eq f).
    destruct (parse_value f s) as [v rest| |] eqn:E.
    + rewrite IHv, E by (rewrite E; discriminate).
      destruct (skip_ws rest) as [|c r]; [reflexivity|].
      destruct (N.eqb c 44); [apply IHe | reflexivity].
    + rewrite IHv, E by (rewrite E; discriminate). reflexivity.
    + intros H. exfalso. apply H. reflexivity.
  - intros acc s. rewrite (parse_members_eq (S f)), (parse_members_eq f).
    destruct (skip_ws s) as [|c r]; [reflexivity|].
    destruct (N.eqb c QUOTE); [|reflexivity].
    destruct (parse_string_body r) as [[key rest]|]; [|reflexivity].
    destruct (skip_ws rest) as [|c1 r1]; [reflexivity|].
    destruct (N.eqb c1 58); [|reflexivity].
    destruct (parse_value f r1) as [v rest'| |] eqn:E.
    + rewrite IHv, E by (rewrite E; discriminate).
      destruct (skip_ws rest') as [|c2 r2]; [reflexivity|].
      destruct (N.eqb c2 44); [apply IHm | reflexivity].
    + rewrite IHv, E by (rewrite E; discriminate). reflexivity.
    + intros H. exfalso. apply H. reflexivity.
Qed.

Lemma parse_value_fuel_le (f f' : nat) (s : jsstring) :
  (f <= f')%nat -> parse_value f s <> PFuel ->
  parse_value f' s = parse_value f s.
Proof.
  intros L H. induction L as [|f' L IH]; [reflexivity|].
  destruct (parse_fuel_succ f') as [Hv _].
  rewrite Hv; rewrite IH; auto.
Qed.

(** Two runs that do not stop at the bound agree. *)
Lemma parse_value_fuel_agree (f f' : nat) (s : jsstring) :
  parse_value f s <> PFuel -> parse_value f' s <> PFuel ->
  parse_value f' s = parse_value f s.
Proof.
  intros H H'. destruct (Nat.le_ge_cases f f') as [L|L].
  - apply parse_value_fuel_le; assumption.
  - symmetry. apply parse_value_fuel_le; assumption.
Qed.

(** What [JSON.parse] answers, from any run of the parser. *)
Lemma parse_of_run (f : nat) (text : jsstring) (v : JSValue) (rest : jsstring) :
  parse_value f text = POk v rest -> skip_ws rest = [] ->
  JSON.parse text = Ok v.
Proof.
  intros H Hr. unfold JSON.parse.
  rewrite (parse_value_fuel_agree f _ text), H, Hr;
    [reflexivity | rewrite H; discriminate | apply parse_value_fuel].
Qed.

Lemma parse_of_failed_run (f : nat) (text : jsstring) :
  parse_value f text = PErr -> JSON.parse text = Throw SyntaxError.
Proof.
  intros H. unfold JSON.parse.
  rewrite (parse_value_fuel_agree f _ text), H;
    [reflexivity | rewrite H; discriminate | apply parse_value_fuel].
Qed.

Lemma parse_of_run_with_rest (f : nat) (text : jsstring) (v : JSValue)
  (rest : jsstring) (c : N) (r : jsstring) :
  parse_value f text = POk v rest -> skip_ws rest = c :: r ->
  JSON.parse text = Throw SyntaxError.
Proof.
  intros H Hr. unfold JSON.parse.
  rewrite (parse_value_fuel_agree f _ text), H, Hr;
    [reflexivity | rewrite H; discriminate | apply parse_value_fuel].
Qed.

End ParseRuns.

(** ** Searching and cutting a concatenation *)

Section StringCuts.

Lemma length_app_Z (a b : jsstring) :
  JSStr.length (a ++ b) = JSStr.length a + JSStr.length b.
Proof. unfold JSStr.length. rewrite length_app. lia. Qed.

Lemma length_nonneg (s : jsstring) : 0 <= JSStr.length s.
Proof. unfold JSStr.length. lia. Qed.

(** The last occurrence in [a ++ b] is the one in [b] when there is one. *)
Lemma lastIndexOf_from_app (c : N) (a b : jsstring) (i : Z) :
  lastIndexOf_from c (a ++ b) i =
  if lastIndexOf_from c b (i + JSStr.length a) =? -1
  then lastIndexOf_from c a i
  else lastIndexOf_from c b (i + JSStr.length a).
Proof.
  revert i. induction a as [|x r IH]; intros i.
  - cbn [app lastIndexOf_from]. unfold JSStr.length. cbn [List.length Z.of_nat].
    rewrite Z.add_0_r.
    destruct (Z.eqb_spec (lastIndexOf_from c b i) (-1)) as [E|_];
      [exact E | reflexivity].
  - cbn [app lastIndexOf_from]. rewrite IH.
    replace (i + 1 + JSStr.length r) with (i + JSStr.length (x :: r))
      by (unfold JSStr.length; cbn [List.length]; lia).
    destruct (Z.eqb_spec (lastIndexOf_from c b (i + JSStr.length (x :: r))) (-1))
      as [E|NE].
    + reflexivity.
    + destruct (Z.eqb_spec (lastIndexOf_from c b (i + JSStr.length (x :: r))) (-1));
        [contradiction | reflexivity].
Qed.

(** The index of the head only shifts the answer. *)
Lemma lastIndexOf_from_shift (c : N) (s : jsstring) (i : Z) :
  0 <= i ->
  lastIndexOf_from c s i =
  if lastIndexOf_from c s 0 =? -1 then -1 else lastIndexOf_from c s 0 + i.
Proof.
  intros Hi. revert i Hi. induction s as [|x r IH]; intros i Hi.
  - reflexivity.
  - cbn [lastIndexOf_from].
    rewrite (IH (i + 1)) by lia. rewrite (IH (0 + 1)) by lia.
    pose proof (lastIndexOf_from_range c r 0 ltac:(lia)) as R.
    destruct (Z.eqb_spec (lastIndexOf_from c r 0) (-1)) as [E|NE];
      destruct (N.eqb x c);
      repeat match goal with
             | |- context [Z.eqb ?a ?b] => destruct (Z.eqb_spec a b)
             | H : context [Z.eqb ?a ?b] |- _ => destruct (Z.eqb_spec a b)
             end; lia.
Qed.

(** [lastIndexOf] of a text that ends with a known part in which the
    unit occurs. *)
Lemma lastIndexOf_in_suffix (c : N) (a b : jsstring) (k : Z) :
  lastIndexOf b c = k -> k <> -1 ->
  lastIndexOf (a ++ b) c = JSStr.length a + k.
Proof.
  unfold lastIndexOf. intros Hk Hn. rewrite lastIndexOf_from_app.
  rewrite (lastIndexOf_from_shift c b (0 + JSStr.length a))
    by (pose proof (length_nonneg a); lia).
  rewrite Hk. destruct (Z.eqb_spec k (-1)); [contradiction|].
  destruct (Z.eqb_spec (k + (0 + JSStr.length a)) (-1)) as [E|_]; [|lia].
  pose proof (lastIndexOf_from_range c b 0 ltac:(lia)) as R.
  pose proof (length_nonneg a). rewrite Hk in R. lia.
Qed.

(** ... and in which it does not occur. *)
Lemma lastIndexOf_not_in_suffix (c : N) (a b : jsstring) :
  lastIndexOf b c = -1 -> lastIndexOf (a ++ b) c = lastIndexOf a c.
Proof.
  unfold lastIndexOf. intros Hk. rewrite lastIndexOf_from_app.
  rewrite (lastIndexOf_from_shift c b (0 + JSStr.length a))
    by (pose proof (length_nonneg a); lia).
  rewrite Hk. reflexivity.
Qed.

Lemma lastIndexOf_range (c : N) (s : jsstring) :
  lastIndexOf s c = -1 \/ 0 <= lastIndexOf s c < JSStr.length s.
Proof.
  unfold lastIndexOf, JSStr.length.
  destruct (lastIndexOf_from_range c s 0 ltac:(lia)); [left | right]; lia.
Qed.

Lemma lastIndexOf_none (c : N) (s : jsstring) :
  lastIndexOf s c = -1 <-> includes s c = false.
Proof. unfold lastIndexOf, includes. apply lastIndexOf_from_none. lia. Qed.

Lemma indexOf_from_none (c : N) (s : jsstring) (i : Z) :
  0 <= i -> (indexOf_from c s i = -1 <-> existsb (N.eqb c) s = false).
Proof.
  revert i. induction s as [|x r IH]; intros i Hi; cbn [indexOf_from existsb].
  - tauto.
  - rewrite (N.eqb_sym c x). destruct (N.eqb x c); cbn [orb].
    + split; [lia | discriminate].
    + apply IH. lia.
Qed.

Lemma indexOf_none (c : N) (s : jsstring) :
  indexOf s c = -1 <-> includes s c = false.
Proof. unfold indexOf, includes. apply indexOf_from_none. lia. Qed.

Lemma includes_app (c : N) (a b : jsstring) :
  includes (a ++ b) c = includes a c || includes b c.
Proof. unfold includes. apply existsb_app. Qed.

Lemma endsWith_app (c : N) (a b : jsstring) :
  b <> [] -> endsWith (a ++ b) c = endsWith b c.
Proof.
  intros Hb. unfold endsWith. rewrite rev_app_distr.
  destruct (rev b) as [|x r] eqn:E; [|reflexivity].
  apply (f_equal (@rev N)) in E. rewrite rev_involutive in E. contradiction.
Qed.

(** [substring] from the start of the text, and down to its end. *)
Lemma substring_prefix (s : jsstring) (n : Z) :
  0 <= n <= JSStr.length s -> substring s 0 n = firstn (Z.to_nat n) s.
Proof.
  intros Hn. unfold substring, clamp.
  rewrite (Z.max_l 0 0), (Z.min_l 0), (Z.max_l n 0), (Z.min_l n), (Z.min_l 0 n),
    (Z.max_r 0 n) by lia.
  rewrite Z.sub_0_r. reflexivity.
Qed.

Lemma substring_prefix_app (a b : jsstring) (n : Z) :
  0 <= n <= JSStr.length b ->
  substring (a ++ b) 0 (JSStr.length a + n) = a ++ firstn (Z.to_nat n) b.
Proof.
  intros Hn. pose proof (length_nonneg a) as Ha.
  rewrite substring_prefix by (rewrite length_app_Z; lia).
  rewrite firstn_app.
  replace (Z.to_nat (JSStr.length a + n) - List.length a)%nat
    with (Z.to_nat n) by (unfold JSStr.length in *; lia).
  rewrite firstn_all2 by (unfold JSStr.length in *; lia). reflexivity.
Qed.

Lemma substring_suffix_app (a b : jsstring) :
  substring (a ++ b) (JSStr.length a) (JSStr.length a + JSStr.length b) = b.
Proof.
  pose proof (length_nonneg a) as Ha. pose proof (length_nonneg b) as Hb.
  unfold substring, clamp. rewrite length_app_Z.
  rewrite (Z.max_l (JSStr.length a) 0), (Z.min_l (JSStr.length a)),
    (Z.max_l (JSStr.length a + JSStr.length b) 0), Z.min_id,
    (Z.min_l (JSStr.length a)), (Z.max_r (JSStr.length a)) by lia.
  replace (JSStr.length a + JSStr.length b - JSStr.length a)
    with (JSStr.length b) by lia.
  unfold JSStr.length. rewrite !Nat2Z.id.
  rewrite skipn_app, skipn_all, Nat.sub_diag. cbn [app skipn].
  apply firstn_all.
Qed.

(** The two guards of the recovery stages, by the two indices. *)
Lemma truncated_guard_spec (raw : jsstring) :
  truncated_guard raw = true <->
  lastIndexOf raw OPEN_BRACE <> -1 /\
  lastIndexOf raw CLOSE_BRACE < lastIndexOf raw OPEN_BRACE.
Proof.
  unfold truncated_guard.
  pose proof (lastIndexOf_range OPEN_BRACE raw) as Ro.
  pose proof (lastIndexOf_range CLOSE_BRACE raw) as Rc.
  rewrite andb_true_iff, orb_true_iff, negb_true_iff, Z.eqb_neq, Z.eqb_eq,
    Z.ltb_lt.
  lia.
Qed.

Lemma extract_guard_spec (raw : jsstring) :
  extract_guard raw = true <->
  lastIndexOf raw OPEN_BRACE <> -1 /\
  lastIndexOf raw OPEN_BRACE < lastIndexOf raw CLOSE_BRACE.
Proof.
  unfold extract_guard.
  pose proof (lastIndexOf_range OPEN_BRACE raw) as Ro.
  pose proof (lastIndexOf_range CLOSE_BRACE raw) as Rc.
  rewrite !andb_true_iff, !negb_true_iff, !Z.eqb_neq, Z.ltb_lt.
  lia.
Qed.

End StringCuts.

(** ** The result decoder: what every call returns *)

Section DecoderClasses.

Lemma add_string_shape (v : JSValue) (note : jsstring) (w : JSValue) :
  add_string v note = Ok w -> exists s, w = JString (s ++ note).
Proof.
  unfold add_string. destruct (ToString v) as [t|e]; [|discriminate].
  intros H. injection H as <-. exists t. reflexivity.
Qed.

Lemma patch_result_shape (raw : jsstring) (r : ToolResult) :
  patch_result raw = Some r -> exists s, output r = JString (s ++ NOTE_FIXED).
Proof.
  unfold patch_result.
  destruct (JSON.parse (raw ++ [CLOSE_BRACE])) as [parsed|e]; [|discriminate].
  destruct (destructure_output_metadata parsed) as [[o m]|e]; [|discriminate].
  destruct (add_string o NOTE_FIXED) as [annotated|e] eqn:E; [|discriminate].
  intros H. injection H as <-. exact (add_string_shape _ _ _ E).
Qed.

Lemma extract_result_shape (raw : jsstring) (r : ToolResult) :
  extract_result raw = Some r ->
  exists s, output r = JString (s ++ NOTE_RECOVERED).
Proof.
  unfold extract_result.
  destruct (JSON.parse (possibleJson raw)) as [parsedObj|e]; [|discriminate].
  destruct (has_property parsedObj (lit "output") &&
            has_property parsedObj (lit "metadata")); [|discriminate].
  destruct (get_property parsedObj (lit "output")) as [o|e]; [|discriminate].
  destruct (add_string o NOTE_RECOVERED) as [annotated|e] eqn:E; [|discriminate].
  destruct (get_property parsedObj (lit "metadata")) as [m|e]; [|discriminate].
  intros H. injection H as <-. exact (add_string_shape _ _ _ E).
Qed.

(** X1. Every call of [parseToolCallOutput] returns a result, of one of
    five kinds: the two fields of the text parsed as it is; a string that
    ends with the note of the close-brace patch (only when the guard of
    line 69 holds); a string that ends with the note of the extraction
    (only when the guard of line 89 holds); or one of the two failure
    messages with the metadata [{ exit_code: 1, duration_seconds: 0 }].
    So, unless the text parsed as it is, [output] is a string. *)
Theorem decoder_result_classes (raw : jsstring) (env : Env) :
  exists r,
    snd (parseToolCallOutput raw env) = Ok r /\
    (direct_result raw = Ok r \/
     (truncated_guard raw = true /\
      exists s, output r = JString (s ++ NOTE_FIXED)) \/
     (extract_guard raw = true /\
      exists s, output r = JString (s ++ NOTE_RECOVERED)) \/
     r = {| output := JString MSG_TRUNCATED; metadata := FAILURE_METADATA |} \/
     r = {| output := JString MSG_FAILED; metadata := FAILURE_METADATA |}).
Proof.
  exists (decode_result raw). split; [apply parseToolCallOutput_outcome|].
  assert (fallback_result raw =
            {| output := JString MSG_TRUNCATED; metadata := FAILURE_METADATA |} \/
          fallback_result raw =
            {| output := JString MSG_FAILED; metadata := FAILURE_METADATA |}) as F.
  { unfold fallback_result. destruct (possibleTruncation raw); auto. }
  unfold decode_result, stages_result, recovery_outcome.
  destruct (direct_result raw) as [r|parseErr]; [left; reflexivity|].
  destruct (0 <? JSStr.length raw); [|tauto].
  destruct (truncated_guard raw) eqn:Gt.
  - destruct (patch_result raw) as [r|] eqn:P.
    + right. left. split; [reflexivity|]. exact (patch_result_shape _ _ P).
    + destruct (extract_guard raw) eqn:Ge; [|tauto].
      destruct (extract_result raw) as [r|] eqn:X; [|tauto].
      right. right. left. split; [reflexivity|].
      exact (extract_result_shape _ _ X).
  - destruct (extract_guard raw) eqn:Ge; [|tauto].
    destruct (extract_result raw) as [r|] eqn:X; [|tauto].
    right. right. left. split; [reflexivity|].
    exact (extract_result_shape _ _ X).
Qed.

End DecoderClasses.

(** ** The result decoder: lines that are never printed together *)

Section TraceLines.

Context {A B : Type}.

Lemma absent_bind (x : Effect) (m : M A) (k : A -> M B) (env : Env) :
  ~ In x (fst (m env)) ->
  (forall a, ~ In x (fst (k a env))) ->
  ~ In x (fst (bind m k env)).
Proof.
  intros Hm Hk. rewrite trace_bind.
  destruct (snd (m env)); [|exact Hm].
  rewrite in_app_iff. intros [H|H]; [exact (Hm H) | exact (Hk _ H)].
Qed.

Lemma absent_try_catch (x : Effect) (m : M A) (h : JSError -> M A) (env : Env) :
  ~ In x (fst (m env)) ->
  (forall e, ~ In x (fst (h e env))) ->
  ~ In x (fst (try_catch m h env)).
Proof.
  intros Hm Hh. rewrite trace_try_catch.
  destruct (snd (m env)); [exact Hm|].
  rewrite in_app_iff. intros [H|H]; [exact (Hm H) | exact (Hh _ H)].
Qed.

End TraceLines.

Section OneRecovery.

(** The two guards exclude each other. *)
Lemma guards_exclusive (raw : jsstring) :
  truncated_guard raw = true -> extract_guard raw = false.
Proof.
  intros Ht. apply truncated_guard_spec in Ht.
  destruct (extract_guard raw) eqn:Ge; [|reflexivity].
  apply extract_guard_spec in Ge. lia.
Qed.

Ltac absent :=
  repeat first
    [ apply absent_bind; [|intros ?]
    | apply absent_try_catch; [|intros ?]
    | (cbn [fst lift log spawn ret throw when getenv_DEBUG In];
       solve [ intros [] | intros [H|[]]; discriminate H ])
    | match goal with
      | |- context [when ?b _] => unfold when; destruct b
      | |- context [if ?b then _ else _] => destruct b
      | |- context [match ?x with _ => _ end] => destruct x
      end ].

Lemma logJsonParseAttempt_absent (line : LogLine) s success error env :
  (forall b, line <> LDebugJsonParse b) ->
  (forall n, line <> LDebugJsonLength n) ->
  (forall e, line <> LDebugParseError e) ->
  (forall a, line <> LDebugStructure a) ->
  ~ In (Console line) (fst (DebugLogger.logJsonParseAttempt s success error env)).
Proof.
  intros H1 H2 H3 H4. unfold DebugLogger.logJsonParseAttempt, when.
  repeat first
    [ apply absent_bind; [|intros ?]
    | (cbn [fst lift log spawn ret throw when getenv_DEBUG In];
       solve [ intros []
             | intros [H|[]]; try discriminate H; injection H as <-;
               solve [ eapply H1; reflexivity | eapply H2; reflexivity
                     | eapply H3; reflexivity | eapply H4; reflexivity ] ])
    | match goal with
      | |- context [if ?b then _ else _] => destruct b
      | |- context [match ?x with _ => _ end] => destruct x
      end ].
Qed.

Lemma extract_object_no_patch_line (raw : jsstring) (env : Env) :
  ~ In (Console LDetectedTruncated) (fst (extract_object raw env)).
Proof.
  unfold extract_object.
  repeat first
    [ apply logJsonParseAttempt_absent; discriminate
    | progress absent ].
Qed.

Lemma close_brace_patch_no_extract_line (raw : jsstring) (env : Env) :
  ~ In (Console LAttemptingToExtract) (fst (close_brace_patch raw env)).
Proof.
  unfold close_brace_patch.
  repeat first
    [ apply logJsonParseAttempt_absent; discriminate
    | progress absent ].
Qed.

(** X2. At most one recovery is attempted in a call: the line that opens
    the close-brace patch (line 70) and the line that opens the
    extraction (line 90) are never both printed, because the tests of
    lines 69 and 89 exclude each other. *)
Theorem one_recovery_attempt (raw : jsstring) (env : Env) :
  truncated_guard raw && extract_guard raw = false /\
  ~ (In (Console LDetectedTruncated) (fst (parseToolCallOutput raw env)) /\
     In (Console LAttemptingToExtract) (fst (parseToolCallOutput raw env))).
Proof.
  split.
  { destruct (truncated_guard raw) eqn:Gt; [|reflexivity].
    now apply guards_exclusive. }
  destruct (truncated_guard raw) eqn:Gt.
  - pose proof (guards_exclusive raw Gt) as Ge.
    intros [_ H]. revert H.
    unfold parseToolCallOutput, decode_stages, direct_decode, recover, fallback.
    rewrite Gt, Ge.
    repeat first
      [ apply logJsonParseAttempt_absent; discriminate
      | apply close_brace_patch_no_extract_line
      | progress absent ].
  - intros [H _]. revert H.
    unfold parseToolCallOutput, decode_stages, direct_decode, recover, fallback.
    rewrite Gt.
    repeat first
      [ apply logJsonParseAttempt_absent; discriminate
      | apply extract_object_no_patch_line
      | progress absent ].
Qed.

End OneRecovery.

(** ** What a parser leaves is the end of what it was given *)

Section ParseSuffix.

Import JSON.

Lemma skip_ws_suffix (s : jsstring) : exists pre, s = pre ++ skip_ws s.
Proof.
  induction s as [|c r [pre IH]]; [exists []; reflexivity|].
  cbn [skip_ws]. destruct (is_ws c).
  - exists (c :: pre). cbn [app]. f_equal. exact IH.
  - exists []. reflexivity.
Qed.

Lemma parse_string_body_suffix (s str rest : jsstring) :
  parse_string_body s = Some (str, rest) -> exists pre, s = pre ++ rest.
Proof.
  remember (List.length s) as n eqn:Hn.
  revert s str rest Hn.
  induction n as [n IH] using lt_wf_ind.
  intros s str rest Hn H. destruct s as [|c r]; simpl in H; [discriminate|].
  simpl in Hn.
  destruct (N.eqb c QUOTE).
  { inversion H; subst. exists [c]. reflexivity. }
  destruct (N.eqb c BACKSLASH).
  { destruct r as [|e r1]; [discriminate|].
    destruct (N.eqb e 117).
    - destruct r1 as [|h1 [|h2 [|h3 [|h4 r2]]]]; try discriminate.
      destruct (hex4 h1 h2 h3 h4); [|discriminate].
      destruct (parse_string_body r2) as [[str' rest']|] eqn:E; [|discriminate].
      inversion H; subst.
      destruct (IH (List.length r2) ltac:(simpl; lia) r2 _ _ eq_refl E)
        as [pre ->].
      exists (c :: e :: h1 :: h2 :: h3 :: h4 :: pre). reflexivity.
    - destruct (simple_escape e); [|discriminate].
      destruct (parse_string_body r1) as [[str' rest']|] eqn:E; [|discriminate].
      inversion H; subst.
      destruct (IH (List.length r1) ltac:(simpl; lia) r1 _ _ eq_refl E)
        as [pre ->].
      exists (c :: e :: pre). reflexivity. }
  destruct (N.ltb c 32); [discriminate|].
  destruct (parse_string_body r) as [[str' rest']|] eqn:E; [|discriminate].
  inversion H; subst.
  destruct (IH (List.length r) ltac:(simpl; lia) r _ _ eq_refl E) as [pre ->].
  exists (c :: pre). reflexivity.
Qed.

Lemma take_digits_suffix (s : jsstring) (acc n v k : Z) (rest : jsstring) :
  take_digits s acc n = (v, k, rest) -> exists pre, s = pre ++ rest.
Proof.
  revert acc n. induction s as [|c r IH]; intros acc n H; simpl in H.
  - inversion H; subst. exists []. reflexivity.
  - destruct (is_digit c).
    + apply IH in H. destruct H as [pre ->]. exists (c :: pre). reflexivity.
    + inversion H; subst. exists []. reflexivity.
Qed.

Lemma parse_int_part_suffix (s : jsstring) (v : Z) (rest : jsstring) :
  parse_int_part s = Some (v, rest) -> exists pre, s = pre ++ rest.
Proof.
  unfold parse_int_part. destruct s as [|c r]; [discriminate|].
  destruct (N.eqb c 48).
  - intros H; inversion H; subst. exists [c]. reflexivity.
  - destruct (is_digit c); [|discriminate].
    destruct (take_digits r (digit_val c) 1) as [[v' k] rest'] eqn:E.
    intros H; inversion H; subst.
    apply take_digits_suffix in E. destruct E as [pre ->].
    exists (c :: pre). reflexivity.
Qed.

Lemma parse_frac_part_suffix (m : Z) (s : jsstring) (v k : Z) (rest : jsstring) :
  parse_frac_part m s = Some (v, k, rest) -> exists pre, s = pre ++ rest.
Proof.
  unfold parse_frac_part. destruct s as [|c r].
  - intros H; inversion H; subst. exists []. reflexivity.
  - destruct (N.eqb c 46).
    + destruct (take_digits r m 0) as [[v' k'] rest'] eqn:E.
      destruct (k' =? 0); [discriminate|].
      intros H; inversion H; subst.
      apply take_digits_suffix in E. destruct E as [pre ->].
      exists (c :: pre). reflexivity.
    + intros H; inversion H; subst. exists []. reflexivity.
Qed.

Lemma parse_exp_part_suffix (s : jsstring) (v : Z) (rest : jsstring) :
  parse_exp_part s = Some (v, rest) -> exists pre, s = pre ++ rest.
Proof.
  unfold parse_exp_part. destruct s as [|c r].
  - intros H; inversion H; subst. exists []. reflexivity.
  - destruct (N.eqb c 101 || N.eqb c 69).
    + assert (forall neg r1, (exists p, c :: r = p ++ r1) ->
                (let '(v0, n, rest0) := take_digits r1 0 0 in
                 if n =? 0 then None
                 else Some (if (neg : bool) then - v0 else v0, rest0)) = Some (v, rest) ->
                exists pre, c :: r = pre ++ rest) as A.
      { intros neg r1 [p Hp].
        destruct (take_digits r1 0 0) as [[v' k'] rest'] eqn:E.
        destruct (k' =? 0); [discriminate|].
        intros H; inversion H; subst.
        apply take_digits_suffix in E. destruct E as [pre ->].
        exists (p ++ pre). rewrite Hp, app_assoc. reflexivity. }
      destruct r as [|sgn r']; [apply (A false); exists [c]; reflexivity|].
      destruct (N.eqb sgn 45); [apply (A true); exists [c; sgn]; reflexivity|].
      destruct (N.eqb sgn 43); [apply (A false); exists [c; sgn]; reflexivity|].
      apply (A false); exists [c]; reflexivity.
    + intros H; inversion H; subst. exists []. reflexivity.
Qed.

Lemma parse_number_suffix (s : jsstring) (x : JSNum.number) (rest : jsstring) :
  parse_number s = Some (x, rest) -> exists pre, s = pre ++ rest.
Proof.
  unfold parse_number.
  set (p := match s with
            | c :: r => if N.eqb c 45 then (true, r) else (false, s)
            | [] => (false, s)
            end).
  assert (exists q, s = q ++ snd p) as [q Hq].
  { subst p. destruct s as [|c r]; [exists []; reflexivity|].
    destruct (N.eqb c 45); [exists [c] | exists []]; reflexivity. }
  destruct p as [neg s1]. cbn [snd] in Hq.
  destruct (parse_int_part s1) as [[i s2]|] eqn:E1; [|discriminate].
  destruct (parse_frac_part i s2) as [[[m k] s3]|] eqn:E2; [|discriminate].
  destruct (parse_exp_part s3) as [[e s4]|] eqn:E3; [|discriminate].
  intros H; inversion H; subst.
  apply parse_int_part_suffix in E1. destruct E1 as [p1 ->].
  apply parse_frac_part_suffix in E2. destruct E2 as [p2 ->].
  apply parse_exp_part_suffix in E3. destruct E3 as [p3 ->].
  exists (q ++ p1 ++ p2 ++ p3). rewrite <- !app_assoc. reflexivity.
Qed.

Lemma expect_suffix (word s rest : jsstring) :
  expect word s = Some rest -> exists pre, s = pre ++ rest.
Proof.
  revert s. induction word as [|w word' IH]; intros s H; simpl in H.
  - inversion H; subst. exists []. reflexivity.
  - destruct s as [|c r]; [discriminate|].
    destruct (N.eqb w c); [|discriminate].
    apply IH in H. destruct H as [pre ->]. exists (c :: pre). reflexivity.
Qed.

(** A unit that does not occur in a text does not occur in its end. *)
Lemma free_suffix (c : N) (s pre rest : jsstring) :
  s = pre ++ rest -> includes s c = false -> includes rest c = false.
Proof.
  intros -> H. rewrite includes_app in H. apply orb_false_iff in H. tauto.
Qed.

Lemma free_tail (c x : N) (r : jsstring) :
  includes (x :: r) c = false -> includes r c = false.
Proof. apply (free_suffix c (x :: r) [x] r eq_refl). Qed.

Lemma free_head (c x : N) (r : jsstring) :
  includes (x :: r) c = false -> N.eqb x c = false.
Proof.
  unfold includes. cbn [existsb]. rewrite (N.eqb_sym c x).
  intros H. apply orb_false_iff in H. tauto.
Qed.

End ParseSuffix.

(** ** A text without an open brace holds no object *)

Section FlatValues.

Import JSON.

#[local] Arguments expect : simpl never.

Lemma prop_get_set (acc : list (jsstring * JSValue)) (key k : jsstring)
  (v x : JSValue) :
  prop_get (prop_set acc key v) k = Some x ->
  x = v \/ prop_get acc k = Some x.
Proof.
  induction acc as [|[k' v'] r IH]; cbn [prop_set prop_get].
  - destruct (JSStr.eqb key k); [|discriminate].
    intros H. injection H as <-. now left.
  - destruct (JSStr.eqb k' key) eqn:E; cbn [prop_get].
    + destruct (JSStr.eqb k' k); [|now right].
      intros H. injection H as <-. now left.
    + destruct (JSStr.eqb k' k); [now right | exact IH].
Qed.


Lemma parse_flat (f : nat) :
  (forall s v rest,
     includes s OPEN_BRACE = false -> parse_value f s = POk v rest ->
     is_object v = false /\ includes rest OPEN_BRACE = false) /\
  (forall acc s v rest,
     includes s OPEN_BRACE = false -> parse_elements f acc s = POk v rest ->
     is_object v = false /\ includes rest OPEN_BRACE = false) /\
  (forall acc s v rest,
     includes s OPEN_BRACE = false ->
     (forall k x, prop_get acc k = Some x -> is_object x = false) ->
     parse_members f acc s = POk v rest ->
     (exists props, v = JObject props /\
                    forall k x, prop_get props k = Some x -> is_object x = false) /\
     includes rest OPEN_BRACE = false).
Proof.
  induction f as [|f [IHv [IHe IHm]]].
  { repeat split; intros; discriminate. }
  split; [|split].
  - intros s v rest Hs. rewrite parse_value_eq.
    destruct (skip_ws_suffix s) as [p0 Hp0].
    pose proof (free_suffix _ _ _ _ Hp0 Hs) as H0.
    destruct (skip_ws s) as [|c r]; [discriminate|].
    pose proof (free_head _ _ _ H0) as Hc. pose proof (free_tail _ _ _ H0) as Hr.
    rewrite Hc.
    destruct (N.eqb c OPEN_BRACKET).
    { destruct (skip_ws_suffix r) as [p1 Hp1].
      pose proof (free_suffix _ _ _ _ Hp1 Hr) as H1.
      destruct (skip_ws r) as [|c' r']; [discriminate|].
      destruct (N.eqb c' CLOSE_BRACKET).
      - intros H. injection H as <- <-. split; [reflexivity|].
        exact (free_tail _ _ _ H1).
      - apply IHe. exact H1. }
    destruct (N.eqb c QUOTE).
    { destruct (parse_string_body r) as [[str rest']|] eqn:E; [|discriminate].
      intros H. injection H as <- <-. split; [reflexivity|].
      destruct (parse_string_body_suffix _ _ _ E) as [p Hp].
      exact (free_suffix _ _ _ _ Hp Hr). }
    destruct (N.eqb c 116).
    { match goal with |- context [expect ?w r] =>
        destruct (expect w r) as [rest'|] eqn:E end; [|discriminate].
      intros H. injection H as <- <-. split; [reflexivity|].
      destruct (expect_suffix _ _ _ E) as [p Hp].
      exact (free_suffix _ _ _ _ Hp Hr). }
    destruct (N.eqb c 102).
    { match goal with |- context [expect ?w r] =>
        destruct (expect w r) as [rest'|] eqn:E end; [|discriminate].
      intros H. injection H as <- <-. split; [reflexivity|].
      destruct (expect_suffix _ _ _ E) as [p Hp].
      exact (free_suffix _ _ _ _ Hp Hr). }
    destruct (N.eqb c 110).
    { match goal with |- context [expect ?w r] =>
        destruct (expect w r) as [rest'|] eqn:E end; [|discriminate].
      intros H. injection H as <- <-. split; [reflexivity|].
      destruct (expect_suffix _ _ _ E) as [p Hp].
      exact (free_suffix _ _ _ _ Hp Hr). }
    destruct (parse_number (c :: r)) as [[x rest']|] eqn:E; [|discriminate].
    intros H. injection H as <- <-. split; [reflexivity|].
    destruct (parse_number_suffix _ _ _ E) as [p Hp].
    exact (free_suffix _ _ _ _ Hp H0).
  - intros acc s v rest Hs. rewrite parse_elements_eq.
    destruct (parse_value f s) as [v0 rest0| |] eqn:E; try discriminate.
    destruct (IHv _ _ _ Hs E) as [_ H0].
    destruct (skip_ws_suffix rest0) as [p1 Hp1].
    pose proof (free_suffix _ _ _ _ Hp1 H0) as H1.
    destruct (skip_ws rest0) as [|c r]; [discriminate|].
    destruct (N.eqb c 44).
    { apply IHe. exact (free_tail _ _ _ H1). }
    destruct (N.eqb c CLOSE_BRACKET); [|discriminate].
    intros H. injection H as <- <-. split; [reflexivity|].
    exact (free_tail _ _ _ H1).
  - intros acc s v rest Hs Hacc. rewrite parse_members_eq.
    destruct (skip_ws_suffix s) as [p0 Hp0].
    pose proof (free_suffix _ _ _ _ Hp0 Hs) as H0.
    destruct (skip_ws s) as [|c r]; [discriminate|].
    pose proof (free_tail _ _ _ H0) as Hr.
    destruct (N.eqb c QUOTE); [|discriminate].
    destruct (parse_string_body r) as [[key rest1]|] eqn:Ek; [|discriminate].
    destruct (parse_string_body_suffix _ _ _ Ek) as [pk Hpk].
    pose proof (free_suffix _ _ _ _ Hpk Hr) as H1.
    destruct (skip_ws_suffix rest1) as [p2 Hp2].
    pose proof (free_suffix _ _ _ _ Hp2 H1) as H2.
    destruct (skip_ws rest1) as [|c1 r1]; [discriminate|].
    destruct (N.eqb c1 58); [|discriminate].
    destruct (parse_value f r1) as [v0 rest0| |] eqn:E; try discriminate.
    destruct (IHv _ _ _ (free_tail _ _ _ H2) E) as [Hv0 H3].
    destruct (skip_ws_suffix rest0) as [p4 Hp4].
    pose proof (free_suffix _ _ _ _ Hp4 H3) as H4.
    destruct (skip_ws rest0) as [|c2 r2]; [discriminate|].
    assert (forall k x, prop_get (prop_set acc key v0) k = Some x ->
                        is_object x = false) as Hacc'.
    { intros k x Hx. destruct (prop_get_set _ _ _ _ _ Hx) as [->|Hx'];
        [exact Hv0 | exact (Hacc _ _ Hx')]. }
    destruct (N.eqb c2 44).
    { apply IHm; [exact (free_tail _ _ _ H4) | exact Hacc']. }
    destruct (N.eqb c2 CLOSE_BRACE); [|discriminate].
    intros H. injection H as <- <-. split.
    + exists (prop_set acc key v0). split; [reflexivity | exact Hacc'].
    + exact (free_tail _ _ _ H4).
Qed.

End FlatValues.

(** ** The extraction stage returns no metadata object *)

Section ExtractionFlat.

Import JSON.

Lemma free_firstn (c : N) (n : nat) (s : jsstring) :
  includes s c = false -> includes (firstn n s) c = false.
Proof.
  intros H. apply (free_suffix c (skipn n s ++ firstn n s) (skipn n s)).
  - reflexivity.
  - rewrite includes_app. apply orb_false_iff.
    rewrite <- (firstn_skipn n s), includes_app in H.
    apply orb_false_iff in H. tauto.
Qed.

(** The text from the last occurrence of a unit on. *)
Lemma skipn_lastIndexOf_from (c : N) (s : jsstring) (i : Z) :
  0 <= i -> lastIndexOf_from c s i <> -1 ->
  exists t, skipn (Z.to_nat (lastIndexOf_from c s i - i)) s = c :: t /\
            includes t c = false.
Proof.
  revert i. induction s as [|x r IH]; intros i Hi; cbn [lastIndexOf_from].
  - intros H. contradiction.
  - pose proof (lastIndexOf_from_range c r (i + 1) ltac:(lia)) as R.
    destruct (Z.eqb_spec (lastIndexOf_from c r (i + 1)) (-1)) as [E|NE].
    + destruct (N.eqb_spec x c) as [->|Hx]; [|intros H; contradiction].
      intros _. rewrite Z.sub_diag. exists r. split; [reflexivity|].
      apply (lastIndexOf_from_none c r (i + 1)); [lia | exact E].
    + intros _. destruct (IH (i + 1) ltac:(lia) NE) as [t [Ht Hf]].
      exists t. split; [|exact Hf].
      replace (Z.to_nat (lastIndexOf_from c r (i + 1) - i))
        with (S (Z.to_nat (lastIndexOf_from c r (i + 1) - (i + 1)))) by lia.
      exact Ht.
Qed.

(** Line 111 under the test of line 89: the candidate starts with the
    last open brace of the text and holds no other. *)
Lemma possibleJson_one_open_brace (raw : jsstring) :
  extract_guard raw = true ->
  exists t, possibleJson raw = OPEN_BRACE :: t /\
            includes t OPEN_BRACE = false.
Proof.
  intros G. apply extract_guard_spec in G. destruct G as [Ho Hlt].
  pose proof (lastIndexOf_range OPEN_BRACE raw) as Ro.
  pose proof (lastIndexOf_range CLOSE_BRACE raw) as Rc.
  unfold possibleJson.
  change (lastIndexOf raw OPEN_BRACE) with (lastIndexOf_from OPEN_BRACE raw 0)
    at 1.
  change (find_start raw 0 (lastIndexOf_from OPEN_BRACE raw 0) 0)
    with (find_start raw 0 (lastIndexOf_from OPEN_BRACE raw 0) 0).
  rewrite (find_start_is_last_open raw 0 0 ltac:(lia) Ho Hlt).
  fold (lastIndexOf raw OPEN_BRACE).
  destruct (skipn_lastIndexOf_from OPEN_BRACE raw 0 ltac:(lia) Ho)
    as [t [Ht Hf]].
  fold (lastIndexOf raw OPEN_BRACE) in Ht. rewrite Z.sub_0_r in Ht.
  unfold substring, clamp.
  rewrite (Z.max_l (lastIndexOf raw OPEN_BRACE) 0),
    (Z.min_l (lastIndexOf raw OPEN_BRACE)),
    (Z.max_l (lastIndexOf raw CLOSE_BRACE + 1) 0),
    (Z.min_l (lastIndexOf raw CLOSE_BRACE + 1)),
    (Z.min_l (lastIndexOf raw OPEN_BRACE)),
    (Z.max_r (lastIndexOf raw OPEN_BRACE)) by lia.
  rewrite Ht.
  destruct (Z.to_nat (lastIndexOf raw CLOSE_BRACE + 1 - lastIndexOf raw OPEN_BRACE))
    as [|n] eqn:En; [lia|].
  cbn [firstn]. exists (firstn n t). split; [reflexivity|].
  now apply free_firstn.
Qed.

(** A text with one open brace, at its head, parses to an object whose
    properties hold no object. *)
Lemma parse_one_open_brace (t : jsstring) (v : JSValue) :
  includes t OPEN_BRACE = false ->
  JSON.parse (OPEN_BRACE :: t) = Ok v ->
  exists props, v = JObject props /\
                forall k x, prop_get props k = Some x -> is_object x = false.
Proof.
  intros Hf. unfold JSON.parse.
  destruct (parse_value _ _) as [v0 rest| |] eqn:E; try discriminate.
  destruct (skip_ws rest); [|discriminate].
  intros H. injection H as <-.
  rewrite parse_value_eq in E.
  change (skip_ws (OPEN_BRACE :: t)) with (OPEN_BRACE :: t) in E.
  change (N.eqb OPEN_BRACE OPEN_BRACE) with true in E. cbv iota in E.
  destruct (skip_ws_suffix t) as [p Hp].
  pose proof (free_suffix _ _ _ _ Hp Hf) as H1.
  destruct (skip_ws t) as [|c' r']; [discriminate E|].
  destruct (N.eqb c' CLOSE_BRACE).
  - injection E as <- _. exists []. split; [reflexivity|]. discriminate.
  - destruct (parse_flat (2 * List.length (OPEN_BRACE :: t))) as [_ [_ Hm]].
    destruct (Hm [] (c' :: r') v0 rest H1 ltac:(discriminate) E) as [Hobj _].
    exact Hobj.
Qed.

Lemma extract_result_flat (raw : jsstring) (r : ToolResult) :
  extract_guard raw = true -> extract_result raw = Some r ->
  is_object (metadata r) = false.
Proof.
  intros G. destruct (possibleJson_one_open_brace raw G) as [t [Ht Hf]].
  unfold extract_result. rewrite Ht.
  destruct (JSON.parse (OPEN_BRACE :: t)) as [parsedObj|e] eqn:E; [|discriminate].
  destruct (parse_one_open_brace t parsedObj Hf E) as [props [-> Hp]].
  cbn [has_property get_property].
  destruct (prop_get props (lit "output")) as [o|]; [|discriminate].
  destruct (prop_get props (lit "metadata")) as [m|] eqn:Em; [|discriminate].
  cbn [andb].
  destruct (add_string o NOTE_RECOVERED); [|discriminate].
  intros H. injection H as <-. cbn [metadata]. exact (Hp _ _ Em).
Qed.

End ExtractionFlat.

(** X3. The extraction stage (lines 89-130) never returns a metadata
    object: its candidate starts at the last open brace of the text, so
    whatever it parses holds no nested object. When a call returns through
    that stage, [metadata] is a number, a string, a boolean, an array or
    [null], and it has no [exit_code] and no [duration_seconds]. *)
Theorem extraction_returns_no_metadata_object (raw : jsstring) (env : Env)
  (r : ToolResult) :
  recovery_outcome raw = ExtractedObject r ->
  snd (parseToolCallOutput raw env) = Ok r /\
  (exists s, output r = JString (s ++ NOTE_RECOVERED)) /\
  is_object (metadata r) = false /\
  exit_code r = None /\ duration_seconds r = None.
Proof.
  intros H.
  assert (snd (parseToolCallOutput raw env) = Ok r) as Hr.
  { rewrite parseToolCallOutput_outcome. unfold decode_result, stages_result.
    rewrite H. reflexivity. }
  split; [exact Hr|].
  assert (extract_guard raw = true /\ extract_result raw = Some r) as [G X].
  { unfold recovery_outcome in H.
    destruct (direct_result raw); [discriminate H|].
    destruct (0 <? JSStr.length raw); [|discriminate H].
    destruct (if truncated_guard raw then patch_result raw else None);
      [discriminate H|].
    destruct (extract_guard raw); [|discriminate H].
    destruct (extract_result raw) as [r'|]; [|discriminate H].
    split; [reflexivity|]. f_equal. congruence. }
  split; [exact (extract_result_shape _ _ X)|].
  pose proof (extract_result_flat raw r G X) as Hm.
  split; [exact Hm|].
  unfold exit_code, duration_seconds, metadata_number.
  destruct (metadata r); try discriminate Hm; split; reflexivity.
Qed.

(** A text that the extraction stage recovers: the metadata is a number. *)
Lemma extraction_returns_no_metadata_object_witness :
  recovery_outcome (qlit "x{'output':'a','metadata':1}") =
    ExtractedObject {| output := JString (lit "a" ++ NOTE_RECOVERED);
                       metadata := JNumber (JSNum.of_Z 1) |} /\
  is_object (JNumber (JSNum.of_Z 1)) = false.
Proof.
  assert (recovery_outcome (qlit "x{'output':'a','metadata':1}") =
          ExtractedObject {| output := JString (lit "a" ++ NOTE_RECOVERED);
                             metadata := JNumber (JSNum.of_Z 1) |}) as H
    by (vm_compute; reflexivity).
  split; [exact H|].
  exact (proj1 (proj2 (proj2
    (extraction_returns_no_metadata_object _ DEBUG_OFF _ H)))).
Defined.

(** ** The candidate of the extraction on top-level objects *)

Section Candidate.

Lemma substring_middle (a b c : jsstring) :
  substring (a ++ b ++ c) (JSStr.length a) (JSStr.length a + JSStr.length b) = b.
Proof.
  pose proof (length_nonneg a). pose proof (length_nonneg b).
  pose proof (length_nonneg c).
  unfold substring, clamp. rewrite !length_app_Z.
  replace (Z.min (Z.max (JSStr.length a) 0)
                 (JSStr.length a + (JSStr.length b + JSStr.length c)))
    with (JSStr.length a) by lia.
  replace (Z.min (Z.max (JSStr.length a + JSStr.length b) 0)
                 (JSStr.length a + (JSStr.length b + JSStr.length c)))
    with (JSStr.length a + JSStr.length b) by lia.
  replace (Z.max (JSStr.length a) (JSStr.length a + JSStr.length b)
           - Z.min (JSStr.length a) (JSStr.length a + JSStr.length b))
    with (JSStr.length b) by lia.
  replace (Z.min (JSStr.length a) (JSStr.length a + JSStr.length b))
    with (JSStr.length a) by lia.
  unfold JSStr.length. rewrite !Nat2Z.id.
  rewrite skipn_app, skipn_all, Nat.sub_diag. cbn [skipn app].
  rewrite firstn_app, firstn_all, Nat.sub_diag. cbn [firstn].
  apply app_nil_r.
Qed.

(** Under the test of line 89 the text splits at its last open brace
    and at its last close brace. *)
Lemma last_braces_split (raw : jsstring) :
  extract_guard raw = true ->
  exists before mid after,
    raw = before ++ [OPEN_BRACE] ++ mid ++ [CLOSE_BRACE] ++ after /\
    includes mid OPEN_BRACE = false /\
    includes after OPEN_BRACE = false /\
    includes after CLOSE_BRACE = false /\
    lastIndexOf raw OPEN_BRACE = JSStr.length before /\
    lastIndexOf raw CLOSE_BRACE = JSStr.length before + JSStr.length mid + 1.
Proof.
  intros G. apply extract_guard_spec in G. destruct G as [Ho Hlt].
  pose proof (lastIndexOf_range OPEN_BRACE raw) as Ro.
  pose proof (lastIndexOf_range CLOSE_BRACE raw) as Rc.
  assert (lastIndexOf raw CLOSE_BRACE <> -1) as Hc by lia.
  destruct (skipn_lastIndexOf_from OPEN_BRACE raw 0 ltac:(lia) Ho)
    as [t [Ht Hft]].
  destruct (skipn_lastIndexOf_from CLOSE_BRACE raw 0 ltac:(lia) Hc)
    as [a [Ha Hfa]].
  fold (lastIndexOf raw OPEN_BRACE) in Ht.
  fold (lastIndexOf raw CLOSE_BRACE) in Ha.
  rewrite Z.sub_0_r in Ht, Ha.
  set (lo := lastIndexOf raw OPEN_BRACE) in *.
  set (lc := lastIndexOf raw CLOSE_BRACE) in *.
  set (n := Z.to_nat (lc - lo - 1)).
  assert (skipn n t = CLOSE_BRACE :: a) as Hn.
  { change (skipn n t) with (skipn (S n) (OPEN_BRACE :: t)).
    rewrite <- Ht, skipn_skipn, <- Ha. f_equal. lia. }
  assert (n < List.length t)%nat as Hlen.
  { destruct (Nat.lt_ge_cases n (List.length t)) as [L|L]; [exact L|].
    rewrite (skipn_all2 t L) in Hn. discriminate Hn. }
  assert (t = firstn n t ++ CLOSE_BRACE :: a) as Et
    by (rewrite <- Hn; symmetry; apply firstn_skipn).
  assert (Z.of_nat (List.length (firstn (Z.to_nat lo) raw)) = lo) as Lb.
  { rewrite length_firstn. unfold JSStr.length in Ro. lia. }
  exists (firstn (Z.to_nat lo) raw), (firstn n t), a.
  split; [|split; [|split; [|split; [|split]]]].
  - cbn [app]. rewrite <- Et, <- Ht. symmetry. apply firstn_skipn.
  - now apply free_firstn.
  - apply (free_tail OPEN_BRACE CLOSE_BRACE).
    exact (free_suffix OPEN_BRACE t (firstn n t) _ Et Hft).
  - exact Hfa.
  - unfold JSStr.length. symmetry. exact Lb.
  - unfold JSStr.length. rewrite Lb, length_firstn. lia.
Qed.

(** No object is open: the next brace cannot be a close brace. *)
Lemma unnested_stray_close (m a : jsstring) :
  includes m OPEN_BRACE = false ->
  unnested (m ++ CLOSE_BRACE :: a) false = false.
Proof.
  induction m as [|c m IH]; intros Hf; cbn [app unnested].
  - reflexivity.
  - rewrite (free_head _ _ _ Hf).
    destruct (N.eqb c CLOSE_BRACE); [reflexivity|].
    apply IH. exact (free_tail _ _ _ Hf).
Qed.

(** Inside an object without nesting, the first close brace is the last
    brace before the next object. *)
Lemma unnested_body (m a : jsstring) :
  includes m OPEN_BRACE = false ->
  unnested (m ++ CLOSE_BRACE :: a) true = true ->
  includes m CLOSE_BRACE = false.
Proof.
  induction m as [|c m IH]; intros Hf; cbn [app unnested]; [reflexivity|].
  rewrite (free_head _ _ _ Hf).
  pose proof (free_tail _ _ _ Hf) as Hf'.
  unfold includes. cbn [existsb]. rewrite (N.eqb_sym CLOSE_BRACE c).
  destruct (N.eqb c CLOSE_BRACE).
  - cbn [andb]. rewrite (unnested_stray_close m a Hf'). discriminate.
  - intros H. exact (IH Hf' H).
Qed.

Lemma unnested_app (b s : jsstring) (inside : bool) :
  unnested (b ++ s) inside = true -> exists inside', unnested s inside' = true.
Proof.
  revert inside. induction b as [|c b IH]; intros inside; cbn [app unnested].
  - intros H. exists inside. exact H.
  - destruct (N.eqb c OPEN_BRACE); [|destruct (N.eqb c CLOSE_BRACE)].
    + intros H. apply andb_true_iff in H. exact (IH _ (proj2 H)).
    + intros H. apply andb_true_iff in H. exact (IH _ (proj2 H)).
    + apply IH.
Qed.

End Candidate.

(** With nesting the scan still ends at the last open brace, which then
    opens an inner object: after other text, a complete result gives a
    candidate that is its metadata object and one more close brace, no
    JSON text, and the call fails. *)
Example nested_result_after_text :
  top_level_objects
    (qlit "x {'output':'a','metadata':{'exit_code':0,'duration_seconds':0}}")
  = false /\
  extract_guard
    (qlit "x {'output':'a','metadata':{'exit_code':0,'duration_seconds':0}}")
  = true /\
  possibleJson
    (qlit "x {'output':'a','metadata':{'exit_code':0,'duration_seconds':0}}")
  = qlit "{'exit_code':0,'duration_seconds':0}}" /\
  JSON.parse (qlit "{'exit_code':0,'duration_seconds':0}}") = Throw SyntaxError /\
  snd (parseToolCallOutput
         (qlit "x {'output':'a','metadata':{'exit_code':0,'duration_seconds':0}}")
         DEBUG_OFF)
  = Ok {| output := JString MSG_FAILED; metadata := FAILURE_METADATA |}.
Proof.
  repeat split; vm_compute; reflexivity.
Qed.

(** C5, amended. When the extraction is triggered on a payload whose
    braces are not nested (a sequence of top-level objects), the scan of
    lines 93-108 ends at the open brace of the last of these objects, not
    of the earliest: the candidate begins there and extends through the
    last close brace of the payload inclusive, which closes that object.
    So the candidate is the last object, a text between braces that
    holds no other brace, and no brace follows it. *)
Theorem extraction_candidate (raw : jsstring) :
  top_level_objects raw = true ->
  extract_guard raw = true ->
  exists before body after,
    raw = before ++ [OPEN_BRACE] ++ body ++ [CLOSE_BRACE] ++ after /\
    includes body OPEN_BRACE = false /\
    includes body CLOSE_BRACE = false /\
    includes after OPEN_BRACE = false /\
    includes after CLOSE_BRACE = false /\
    find_start raw 0 (lastIndexOf raw OPEN_BRACE) 0 = JSStr.length before /\
    lastIndexOf raw CLOSE_BRACE = JSStr.length before + JSStr.length body + 1 /\
    possibleJson raw = [OPEN_BRACE] ++ body ++ [CLOSE_BRACE].
Proof.
  intros Hflat G.
  destruct (candidate_from_last_open raw G) as [Hs [Hp _]].
  destruct (last_braces_split raw G)
    as [before [body [after [E [Hbo [Hao [Hac [Lo Lc]]]]]]]].
  exists before, body, after.
  assert (includes body CLOSE_BRACE = false) as Hbc.
  { unfold top_level_objects in Hflat. rewrite E in Hflat.
    destruct (unnested_app _ _ _ Hflat) as [inside H].
    cbn [app unnested] in H.
    change (N.eqb OPEN_BRACE OPEN_BRACE) with true in H. cbv iota in H.
    apply andb_true_iff in H. exact (unnested_body body after Hbo (proj2 H)). }
  repeat (split; [assumption|]).
  split; [rewrite Hs; exact Lo|]. split; [exact Lc|].
  rewrite Hp, Lo, Lc.
  replace (JSStr.length before + JSStr.length body + 1 + 1)
    with (JSStr.length before +
          JSStr.length ([OPEN_BRACE] ++ body ++ [CLOSE_BRACE])).
  - rewrite E at 1.
    replace (before ++ [OPEN_BRACE] ++ body ++ [CLOSE_BRACE] ++ after)
      with (before ++ ([OPEN_BRACE] ++ body ++ [CLOSE_BRACE]) ++ after).
    + apply substring_middle.
    + cbn [app]. rewrite <- app_assoc. reflexivity.
  - rewrite !length_app_Z. unfold JSStr.length. cbn [List.length]. lia.
Qed.

(** Two objects between other text: the candidate is the second. *)
Lemma extraction_candidate_witness :
  top_level_objects (qlit "a {'b':1} c {'output':'o','metadata':2} d") = true /\
  extract_guard (qlit "a {'b':1} c {'output':'o','metadata':2} d") = true /\
  possibleJson (qlit "a {'b':1} c {'output':'o','metadata':2} d")
  = qlit "{'output':'o','metadata':2}" /\
  exists before body after,
    qlit "a {'b':1} c {'output':'o','metadata':2} d"
    = before ++ [OPEN_BRACE] ++ body ++ [CLOSE_BRACE] ++ after /\
    includes body OPEN_BRACE = false /\
    includes body CLOSE_BRACE = false /\
    includes after OPEN_BRACE = false /\
    includes after CLOSE_BRACE = false /\
    find_start (qlit "a {'b':1} c {'output':'o','metadata':2} d") 0
      (lastIndexOf (qlit "a {'b':1} c {'output':'o','metadata':2} d") OPEN_BRACE) 0
    = JSStr.length before /\
    lastIndexOf (qlit "a {'b':1} c {'output':'o','metadata':2} d") CLOSE_BRACE
    = JSStr.length before + JSStr.length body + 1 /\
    possibleJson (qlit "a {'b':1} c {'output':'o','metadata':2} d")
    = [OPEN_BRACE] ++ body ++ [CLOSE_BRACE].
Proof.
  split; [reflexivity|]. split; [reflexivity|]. split; [reflexivity|].
  exact (extraction_candidate
           (qlit "a {'b':1} c {'output':'o','metadata':2} d") eq_refl eq_refl).
Defined.

(** ** The units of a quoted string and of the text of a number *)

Section TextUnits.

Import JSON JSNum.

Lemma hex_digit_range (d : N) :
  (d < 16)%N -> (48 <= hex_digit d <= 102)%N.
Proof.
  intros H. unfold hex_digit. destruct (N.ltb_spec d 10); lia.
Qed.

(** Quoting neither adds nor removes a brace. *)
Lemma quote_unit_braces (c0 x : N) :
  c0 = OPEN_BRACE \/ c0 = CLOSE_BRACE ->
  existsb (N.eqb c0) (quote_unit x) = N.eqb c0 x.
Proof.
  intros Hc. unfold quote_unit.
  destruct (N.eqb_spec x 8) as [->|N8]; [destruct Hc as [->| ->]; reflexivity|].
  destruct (N.eqb_spec x 9) as [->|N9]; [destruct Hc as [->| ->]; reflexivity|].
  destruct (N.eqb_spec x 10) as [->|N10]; [destruct Hc as [->| ->]; reflexivity|].
  destruct (N.eqb_spec x 12) as [->|N12]; [destruct Hc as [->| ->]; reflexivity|].
  destruct (N.eqb_spec x 13) as [->|N13]; [destruct Hc as [->| ->]; reflexivity|].
  destruct (N.eqb_spec x 34) as [->|N34]; [destruct Hc as [->| ->]; reflexivity|].
  destruct (N.eqb_spec x 92) as [->|N92]; [destruct Hc as [->| ->]; reflexivity|].
  destruct (N.ltb x 32 || is_high_surrogate x || is_low_surrogate x) eqn:E.
  - unfold is_high_surrogate, is_low_surrogate in E.
    rewrite !orb_true_iff, !andb_true_iff, N.ltb_lt, !N.leb_le in E.
    unfold unicode_escape. cbn [existsb].
    pose proof (hex_digit_range (x / 4096 mod 16)
                  (N.mod_lt (x / 4096) 16 ltac:(lia))) as H1.
    pose proof (hex_digit_range (x / 256 mod 16)
                  (N.mod_lt (x / 256) 16 ltac:(lia))) as H2.
    pose proof (hex_digit_range (x / 16 mod 16)
                  (N.mod_lt (x / 16) 16 ltac:(lia))) as H3.
    pose proof (hex_digit_range (x mod 16)
                  (N.mod_lt (x) 16 ltac:(lia))) as H4.
    unfold OPEN_BRACE, CLOSE_BRACE, BACKSLASH in *.
    repeat match goal with
           | |- context [N.eqb ?u ?w] => destruct (N.eqb_spec u w)
           end; try reflexivity; lia.
  - cbn [existsb]. apply orb_false_r.
Qed.

Lemma quote_body_braces (c0 : N) (s : jsstring) :
  c0 = OPEN_BRACE \/ c0 = CLOSE_BRACE ->
  existsb (N.eqb c0) (quote_body s) = existsb (N.eqb c0) s.
Proof.
  intros Hc. remember (List.length s) as n eqn:Hn. revert s Hn.
  induction n as [n IH] using lt_wf_ind. intros s Hn.
  destruct s as [|c r]; [reflexivity|].
  cbn [quote_body].
  assert (existsb (N.eqb c0) (quote_unit c ++ quote_body r) =
          existsb (N.eqb c0) (c :: r)) as Plain.
  { rewrite existsb_app, quote_unit_braces by exact Hc. cbn [existsb].
    f_equal. apply (IH (List.length r)); [subst n; cbn; lia | reflexivity]. }
  destruct (is_high_surrogate c); [|exact Plain].
  destruct r as [|d r'].
  - rewrite quote_unit_braces by exact Hc. cbn [existsb].
    symmetry. apply orb_false_r.
  - destruct (is_low_surrogate d); [|exact Plain].
    cbn [existsb]. f_equal. f_equal.
    apply (IH (List.length r')); [subst n; cbn; lia | reflexivity].
Qed.

Lemma quote_braces (c0 : N) (s : jsstring) :
  c0 = OPEN_BRACE \/ c0 = CLOSE_BRACE ->
  includes (quote s) c0 = includes s c0.
Proof.
  intros Hc. unfold includes, quote. cbn [existsb].
  rewrite existsb_app, quote_body_braces by exact Hc. cbn [existsb].
  destruct Hc as [->| ->]; cbn; rewrite ?orb_false_r; reflexivity.
Qed.

(** The units of the text of a number: digits, signs, the point, the
    exponent mark and the letters of [NaN] and [Infinity]. *)
Lemma digits_n_units (k : nat) (s : Z) :
  Forall (fun u => (43 <= u <= 121)%N) (digits_n k s).
Proof.
  induction k as [|k IH]; cbn [digits_n]; constructor; [|exact IH].
  pose proof (Z.mod_pos_bound (s / 10 ^ Z.of_nat k) 10 ltac:(lia)). lia.
Qed.

Lemma Forall_firstn_units (P : N -> Prop) (n : nat) (l : jsstring) :
  Forall P l -> Forall P (firstn n l).
Proof.
  intros H. revert n. induction H as [|x l Hx Hl IH]; intros [|n]; cbn [firstn];
    constructor; auto.
Qed.

Lemma Forall_skipn_units (P : N -> Prop) (n : nat) (l : jsstring) :
  Forall P l -> Forall P (skipn n l).
Proof.
  intros H. revert n. induction H as [|x l Hx Hl IH]; intros [|n]; cbn [skipn];
    auto.
Qed.

Lemma zeros_units (n : Z) : Forall (fun u => (43 <= u <= 121)%N) (zeros n).
Proof.
  unfold zeros. induction (Z.to_nat n) as [|k IH]; cbn [repeat]; constructor;
    [lia | exact IH].
Qed.

Lemma layout_units (s n k : Z) :
  Forall (fun u => (43 <= u <= 121)%N) (layout s n k).
Proof.
  unfold layout.
  repeat match goal with
         | |- Forall _ (if ?b then _ else _) => destruct b
         | |- Forall _ (_ ++ _) => apply Forall_app; split
         | |- Forall _ (firstn _ _) => apply Forall_firstn_units
         | |- Forall _ (skipn _ _) => apply Forall_skipn_units
         | |- Forall _ (zeros _) => apply zeros_units
         | |- Forall _ (digits_n _ _) => apply digits_n_units
         | |- Forall _ (digits_of _) => unfold digits_of; apply digits_n_units
         | |- Forall _ (lit ?t) =>
             let v := eval vm_compute in (lit t) in
             change (lit t) with v; repeat constructor; lia
         end.
Qed.

Lemma number_text_units (x : number) :
  Forall (fun u => (43 <= u <= 121)%N) (NumberToString x).
Proof.
  destruct x as [s|s| |s m e]; cbn [NumberToString];
    try destruct (shortest_digits m e) as [[d n] k];
    repeat match goal with
           | |- Forall _ (if ?b then _ else _) => destruct b
           | |- Forall _ (_ ++ _) => apply Forall_app; split
           | |- Forall _ [] => constructor
           | |- Forall _ (layout _ _ _) => apply layout_units
           | |- Forall _ (lit ?t) =>
               let v := eval vm_compute in (lit t) in
               change (lit t) with v; repeat constructor; lia
           end.
Qed.

Lemma number_text_free (x : number) (c : N) :
  (c < 43 \/ 121 < c)%N -> includes (NumberToString x) c = false.
Proof.
  intros Hc. pose proof (number_text_units x) as H.
  unfold includes. induction H as [|u l Hu Hl IH]; [reflexivity|].
  cbn [existsb]. rewrite IH.
  destruct (N.eqb_spec c u); [lia | reflexivity].
Qed.

End TextUnits.

(** ** A tool result cut short *)

Section CutTexts.

Import JSON.

Lemma lastIndexOf_head (c : N) (r : jsstring) :
  includes r c = false -> lastIndexOf (c :: r) c = 0.
Proof.
  intros H. unfold lastIndexOf. cbn [lastIndexOf_from].
  apply (lastIndexOf_from_none c r (0 + 1)) in H; [|lia].
  rewrite H. change (-1 =? -1) with true. cbv iota.
  rewrite N.eqb_refl. reflexivity.
Qed.

Lemma lastIndexOf_last (c : N) (s : jsstring) :
  lastIndexOf (s ++ [c]) c = JSStr.length s.
Proof.
  rewrite (lastIndexOf_in_suffix c s [c] 0); [lia | | discriminate].
  apply lastIndexOf_head. reflexivity.
Qed.

Lemma endsWith_last (c : N) (s : jsstring) : endsWith (s ++ [c]) c = true.
Proof.
  unfold endsWith. rewrite rev_app_distr. cbn. apply N.eqb_refl.
Qed.

Lemma substring_drop_last (s : jsstring) (c : N) :
  substring (s ++ [c]) 0 (JSStr.length (s ++ [c]) - 1) = s.
Proof.
  rewrite length_app_Z. change (JSStr.length [c]) with 1.
  replace (JSStr.length s + 1 - 1) with (JSStr.length s + 0) by lia.
  rewrite substring_prefix_app by (cbn; lia).
  cbn [Z.to_nat firstn]. apply app_nil_r.
Qed.

(** A member whose value is the last thing in the text. *)
Lemma parse_members_cut (f : nat) (acc : list (jsstring * JSValue))
  (body key r1 : jsstring) (v : JSValue) (rest : jsstring) :
  parse_string_body body = Some (key, 58%N :: r1) ->
  parse_value f r1 = POk v rest ->
  skip_ws rest = [] ->
  parse_members (S f) acc (QUOTE :: body) = PErr.
Proof.
  intros Hk Hv Hr. rewrite parse_members_eq.
  change (skip_ws (QUOTE :: body)) with (QUOTE :: body).
  change (N.eqb QUOTE QUOTE) with true. cbv iota.
  rewrite Hk. change (skip_ws (58%N :: r1)) with (58%N :: r1).
  change (N.eqb 58 58) with true. cbv iota.
  rewrite Hv, Hr. reflexivity.
Qed.

(** After the [output] member of a stringified result, the parser goes on
    with the other members. *)
Lemma parse_after_output (f : nat) (o rest : jsstring) :
  parse_value (S (S (S f))) (qlit "{'output':" ++ quote o ++ 44%N :: rest)
  = parse_members (S f) [(lit "output", JString o)] rest.
Proof.
  change (qlit "{'output':" ++ quote o ++ 44%N :: rest)
    with (OPEN_BRACE :: QUOTE :: (qlit "output':" ++ quote o ++ 44%N :: rest)).
  rewrite parse_value_object.
  destruct (parse_quote o (44%N :: rest)) as [body [Eb Pb]].
  rewrite Eb.
  apply (parse_members_more (S f) []
           (qlit "output':" ++ QUOTE :: body) (lit "output") (QUOTE :: body)
           (JString o) (44%N :: rest) rest
           eq_refl (parse_value_string _ _ _ _ Pb) eq_refl).
Qed.

Variables (o : jsstring) (a b : JSNum.number).
Hypothesis Ha : reads_back a.
Hypothesis Hb : reads_back b.

(** The stringified result without its last brace: what comes before the
    metadata object, and that object. *)
Lemma tool_result_text_cut :
  tool_result_text o a b =
  ((qlit "{'output':" ++ quote o ++ qlit ",'metadata':") ++
   (qlit "{'exit_code':" ++ JSNum.NumberToString a ++
    qlit ",'duration_seconds':" ++ JSNum.NumberToString b ++ [CLOSE_BRACE])) ++
  [CLOSE_BRACE].
Proof.
  unfold tool_result_text.
  generalize (JSNum.NumberToString a) (JSNum.NumberToString b) (quote o).
  intros na nb qo.
  repeat (rewrite <- app_assoc; cbn [app]). reflexivity.
Qed.

Lemma metadata_text_parses :
  JSON.parse (qlit "{'exit_code':" ++ JSNum.NumberToString a ++
              qlit ",'duration_seconds':" ++ JSNum.NumberToString b ++
              [CLOSE_BRACE])
  = Ok (JObject [ (lit "exit_code", JNumber a);
                  (lit "duration_seconds", JNumber b) ]).
Proof.
  apply (parse_of_run 4 _ _ []); [|reflexivity].
  apply (parse_metadata_text a b Ha Hb 0 []).
Qed.

Lemma metadata_text_one_open_brace :
  lastIndexOf (qlit "{'exit_code':" ++ JSNum.NumberToString a ++
               qlit ",'duration_seconds':" ++ JSNum.NumberToString b ++
               [CLOSE_BRACE]) OPEN_BRACE = 0.
Proof.
  change (qlit "{'exit_code':" ++ JSNum.NumberToString a ++
          qlit ",'duration_seconds':" ++ JSNum.NumberToString b ++
          [CLOSE_BRACE])
    with (OPEN_BRACE :: (qlit "'exit_code':" ++ JSNum.NumberToString a ++
                         qlit ",'duration_seconds':" ++
                         JSNum.NumberToString b ++ [CLOSE_BRACE])).
  apply lastIndexOf_head.
  rewrite !includes_app.
  rewrite !number_text_free by (right; reflexivity). reflexivity.
Qed.

(** The decoder on the stringified result without its last brace. *)
Lemma missing_last_brace :
  let meta := qlit "{'exit_code':" ++ JSNum.NumberToString a ++
              qlit ",'duration_seconds':" ++ JSNum.NumberToString b ++
              [CLOSE_BRACE] in
  let raw := (qlit "{'output':" ++ quote o ++ qlit ",'metadata':") ++ meta in
  JSON.parse raw = Throw SyntaxError /\
  truncated_guard raw = false /\
  extract_guard raw = true /\
  possibleJson raw = meta /\
  recovery_outcome raw = Exhausted SyntaxError /\
  decode_result raw =
    {| output := JString MSG_FAILED; metadata := FAILURE_METADATA |}.
Proof.
  intros meta raw.
  set (pre := qlit "{'output':" ++ quote o ++ qlit ",'metadata':") in *.
  assert (exists m', meta = m' ++ [CLOSE_BRACE]) as [m' Hm'].
  { exists (qlit "{'exit_code':" ++ JSNum.NumberToString a ++
            qlit ",'duration_seconds':" ++ JSNum.NumberToString b).
    subst meta. rewrite <- !app_assoc. reflexivity. }
  assert (2 <= JSStr.length meta) as Lm.
  { subst meta. rewrite length_app_Z.
    change (JSStr.length (qlit "{'exit_code':")) with 13.
    pose proof (length_nonneg (JSNum.NumberToString a ++
                  qlit ",'duration_seconds':" ++ JSNum.NumberToString b ++
                  [CLOSE_BRACE])). lia. }
  assert (lastIndexOf raw OPEN_BRACE = JSStr.length pre) as Lo.
  { subst raw. rewrite (lastIndexOf_in_suffix OPEN_BRACE pre meta 0);
      [lia | apply metadata_text_one_open_brace | discriminate]. }
  assert (lastIndexOf raw CLOSE_BRACE = JSStr.length pre + JSStr.length meta - 1)
    as Lc.
  { subst raw. rewrite Hm', app_assoc, lastIndexOf_last.
    rewrite !length_app_Z. change (JSStr.length [CLOSE_BRACE]) with 1. lia. }
  pose proof (length_nonneg pre) as Lp.
  assert (JSON.parse raw = Throw SyntaxError) as Pr.
  { apply (parse_of_failed_run 7).
    subst raw pre. rewrite <- !app_assoc.
    change (qlit ",'metadata':" ++ meta)
      with (44%N :: QUOTE :: (qlit "metadata':" ++ meta)).
    rewrite parse_after_output.
    apply (parse_members_cut 4 _ (qlit "metadata':" ++ meta) (lit "metadata")
             meta _ [] eq_refl (parse_metadata_text a b Ha Hb 0 []) eq_refl). }
  assert (truncated_guard raw = false) as Gt.
  { destruct (truncated_guard raw) eqn:G; [|reflexivity].
    apply truncated_guard_spec in G. lia. }
  assert (extract_guard raw = true) as Ge.
  { apply extract_guard_spec. lia. }
  assert (possibleJson raw = meta) as Pj.
  { unfold possibleJson.
    change (lastIndexOf raw OPEN_BRACE) with (lastIndexOf_from OPEN_BRACE raw 0)
      at 1.
    rewrite (find_start_is_last_open raw 0 0 ltac:(lia));
      [| fold (lastIndexOf raw OPEN_BRACE); lia
       | fold (lastIndexOf raw OPEN_BRACE) (lastIndexOf raw CLOSE_BRACE); lia ].
    fold (lastIndexOf raw OPEN_BRACE). rewrite Lo, Lc.
    replace (JSStr.length pre + JSStr.length meta - 1 + 1)
      with (JSStr.length pre + JSStr.length meta) by lia.
    apply substring_suffix_app. }
  assert (direct_result raw = Throw SyntaxError) as Dr.
  { unfold direct_result. rewrite Pr. reflexivity. }
  assert (extract_result raw = None) as Xr.
  { unfold extract_result. rewrite Pj. subst meta.
    rewrite metadata_text_parses. reflexivity. }
  assert (recovery_outcome raw = Exhausted SyntaxError) as Ro.
  { unfold recovery_outcome. rewrite Dr, Gt, Ge, Xr.
    destruct (0 <? JSStr.length raw); reflexivity. }
  repeat split; try assumption.
  unfold decode_result, stages_result. rewrite Ro.
  unfold fallback_result, possibleTruncation.
  subst raw. rewrite Hm', app_assoc, endsWith_last.
  rewrite andb_false_r. reflexivity.
Qed.

End CutTexts.

(** X4. A stringified tool result that lost its last close brace is not
    recovered, whatever its output and its numbers: line 69 does not hold
    (the brace of the metadata object comes after the last open brace), so
    the close-brace patch is not tried; the extraction takes the metadata
    object alone, which has no [output]; and the call answers with the
    message [Failed to parse JSON result] and exit code 1. *)
Theorem missing_last_brace_not_recovered (o : jsstring) (a b : JSNum.number)
  (env : Env) :
  JSNum.is_real a = true ->
  JSNum.is_real b = true ->
  let text := tool_result_text o a b in
  let raw := substring text 0 (JSStr.length text - 1) in
  JSON.serialize (tool_result_value o a b) = Some text /\
  text = raw ++ [CLOSE_BRACE] /\
  truncated_guard raw = false /\
  JSON.parse (possibleJson raw) =
    Ok (JObject [ (lit "exit_code", JNumber a);
                  (lit "duration_seconds", JNumber b) ]) /\
  snd (parseToolCallOutput raw env) =
    Ok {| output := JString MSG_FAILED; metadata := FAILURE_METADATA |}.
Proof.
  intros Ra Rb text raw.
  pose proof (number_reads_back a Ra) as Ha.
  pose proof (number_reads_back b Rb) as Hb.
  destruct (missing_last_brace o a b Ha Hb) as [_ [Gt [_ [Pj [_ Dr]]]]].
  assert (raw = (qlit "{'output':" ++ JSON.quote o ++ qlit ",'metadata':") ++
                (qlit "{'exit_code':" ++ JSNum.NumberToString a ++
                 qlit ",'duration_seconds':" ++ JSNum.NumberToString b ++
                 [CLOSE_BRACE])) as Hraw.
  { subst raw text. rewrite tool_result_text_cut. apply substring_drop_last. }
  clearbody raw. subst raw.
  split; [apply serialize_tool_result; assumption|].
  split; [apply tool_result_text_cut|].
  split; [exact Gt|]. split.
  - rewrite Pj. apply metadata_text_parses; assumption.
  - rewrite parseToolCallOutput_outcome. f_equal. exact Dr.
Qed.

(** The payload of the test script without its last brace. *)
Lemma missing_last_brace_not_recovered_witness :
  JSNum.is_real (JSNum.of_Z 0) = true /\
  JSNum.is_real (JSNum.of_decimal false 1234 (-3)) = true /\
  snd (parseToolCallOutput
         (substring (tool_result_text (lit "ok") (JSNum.of_Z 0)
                       (JSNum.of_decimal false 1234 (-3))) 0
            (JSStr.length (tool_result_text (lit "ok") (JSNum.of_Z 0)
                             (JSNum.of_decimal false 1234 (-3))) - 1))
         DEBUG_ON) =
    Ok {| output := JString MSG_FAILED; metadata := FAILURE_METADATA |}.
Proof.
  assert (JSNum.is_real (JSNum.of_Z 0) = true) as H0
    by (vm_compute; reflexivity).
  assert (JSNum.is_real (JSNum.of_decimal false 1234 (-3)) = true) as H1
    by (vm_compute; reflexivity).
  split; [exact H0|]. split; [exact H1|].
  exact (proj2 (proj2 (proj2 (proj2
    (missing_last_brace_not_recovered (lit "ok") _ _ DEBUG_ON H0 H1))))).
Defined.

(** ** The close-brace patch on a result cut after its output *)

Section OutputOnly.

Import JSON.

Lemma endsWith_includes (c : N) (s : jsstring) :
  endsWith s c = true -> includes s c = true.
Proof.
  unfold endsWith, includes. intros H.
  destruct (rev s) as [|x r] eqn:E; [discriminate|].
  apply N.eqb_eq in H. subst x.
  apply existsb_exists. exists c. split; [|apply N.eqb_refl].
  apply in_rev. rewrite E. now left.
Qed.

Variable o : jsstring.

Lemma output_only_parse_fails :
  JSON.parse (qlit "{'output':" ++ quote o) = Throw SyntaxError.
Proof.
  apply (parse_of_failed_run 3).
  change (qlit "{'output':" ++ quote o)
    with (OPEN_BRACE :: QUOTE :: (qlit "output':" ++ quote o)).
  rewrite parse_value_object.
  destruct (parse_quote o []) as [body [Eb Pb]]. rewrite app_nil_r in Eb.
  rewrite Eb.
  apply (parse_members_cut 1 [] (qlit "output':" ++ QUOTE :: body)
           (lit "output") (QUOTE :: body) (JString o) []
           eq_refl (parse_value_string _ _ _ _ Pb) eq_refl).
Qed.

Lemma output_only_patched :
  JSON.parse ((qlit "{'output':" ++ quote o) ++ [CLOSE_BRACE])
  = Ok (JObject [(lit "output", JString o)]).
Proof.
  apply (parse_of_run 3 _ _ []); [|reflexivity].
  rewrite <- app_assoc.
  change (qlit "{'output':" ++ quote o ++ [CLOSE_BRACE])
    with (OPEN_BRACE :: QUOTE :: (qlit "output':" ++ quote o ++ [CLOSE_BRACE])).
  rewrite parse_value_object.
  destruct (parse_quote o [CLOSE_BRACE]) as [body [Eb Pb]].
  rewrite Eb.
  apply (parse_members_last 1 [] (qlit "output':" ++ QUOTE :: body)
           (lit "output") (QUOTE :: body) (JString o) [CLOSE_BRACE] []
           eq_refl (parse_value_string _ _ _ _ Pb) eq_refl).
Qed.

End OutputOnly.

(** X5. Where the close-brace patch works: a stringified result cut
    right after its output string (before the metadata) is recovered when
    the output holds no close brace. The call returns the output followed
    by the note of line 79, and [metadata] is [undefined]. *)
Theorem output_only_recovered (o : jsstring) (env : Env) :
  includes o CLOSE_BRACE = false ->
  let raw := qlit "{'output':" ++ JSON.quote o in
  JSON.parse raw = Throw SyntaxError /\
  truncated_guard raw = true /\
  recovery_outcome raw =
    PatchedClose {| output := JString (o ++ NOTE_FIXED);
                    metadata := JUndefined |} /\
  snd (parseToolCallOutput raw env) =
    Ok {| output := JString (o ++ NOTE_FIXED); metadata := JUndefined |}.
Proof.
  intros Ho raw.
  pose proof (output_only_parse_fails o) as Pr. fold raw in Pr.
  assert (truncated_guard raw = true) as Gt.
  { apply truncated_guard_spec.
    assert (lastIndexOf raw CLOSE_BRACE = -1) as Lc.
    { apply lastIndexOf_none. subst raw. rewrite includes_app.
      rewrite quote_braces by (right; reflexivity). rewrite Ho. reflexivity. }
    pose proof (lastIndexOf_range OPEN_BRACE raw) as Ro.
    assert (lastIndexOf raw OPEN_BRACE <> -1) as Lo.
    { intros E. apply lastIndexOf_none in E. subst raw.
      rewrite includes_app in E. discriminate E. }
    lia. }
  assert (recovery_outcome raw =
          PatchedClose {| output := JString (o ++ NOTE_FIXED);
                          metadata := JUndefined |}) as Ro.
  { unfold recovery_outcome, direct_result. rewrite Pr, Gt.
    assert ((0 <? JSStr.length raw) = true) as ->.
    { subst raw. rewrite length_app_Z.
      change (JSStr.length (qlit "{'output':")) with 10.
      pose proof (length_nonneg (JSON.quote o)). apply Z.ltb_lt. lia. }
    unfold patch_result. subst raw. rewrite output_only_patched. reflexivity. }
  split; [exact Pr|]. split; [exact Gt|]. split; [exact Ro|].
  rewrite parseToolCallOutput_outcome. unfold decode_result, stages_result.
  rewrite Ro. reflexivity.
Qed.

Lemma output_only_recovered_witness :
  includes (lit "total 0") CLOSE_BRACE = false /\
  snd (parseToolCallOutput (qlit "{'output':" ++ JSON.quote (lit "total 0"))
                           DEBUG_OFF) =
    Ok {| output := JString (lit "total 0" ++ NOTE_FIXED);
          metadata := JUndefined |}.
Proof.
  split; [reflexivity|].
  exact (proj2 (proj2 (proj2
    (output_only_recovered (lit "total 0") DEBUG_OFF eq_refl)))).
Defined.

(** ** A result cut inside its metadata *)

Section CutInMetadata.

Import JSON.

(** The text after the output member is [rest]; neither it nor it with a
    close brace added can be read as the other members of the object. *)
Lemma cut_in_metadata (o rest : jsstring) :
  (forall acc, parse_members 12 acc rest = PErr) ->
  (forall acc, parse_members 12 acc (rest ++ [CLOSE_BRACE]) = PErr) ->
  includes rest CLOSE_BRACE = false ->
  includes rest OPEN_BRACE = true ->
  decode_result (qlit "{'output':" ++ quote o ++ 44%N :: rest) =
    {| output := JString MSG_TRUNCATED; metadata := FAILURE_METADATA |}.
Proof.
  intros H1 H2 Hc Ho.
  set (raw := qlit "{'output':" ++ quote o ++ 44%N :: rest).
  set (pre := qlit "{'output':" ++ quote o).
  assert (raw = pre ++ 44%N :: rest) as Hraw
    by (subst raw pre; rewrite <- app_assoc; reflexivity).
  assert (JSON.parse raw = Throw SyntaxError) as Pr.
  { apply (parse_of_failed_run 14). subst raw.
    rewrite parse_after_output. apply H1. }
  assert (JSON.parse (raw ++ [CLOSE_BRACE]) = Throw SyntaxError) as Pf.
  { apply (parse_of_failed_run 14). subst raw.
    replace ((qlit "{'output':" ++ quote o ++ 44%N :: rest) ++ [CLOSE_BRACE])
      with (qlit "{'output':" ++ quote o ++ 44%N :: (rest ++ [CLOSE_BRACE]))
      by (rewrite <- !app_assoc; reflexivity).
    rewrite parse_after_output. apply H2. }
  assert (includes (44%N :: rest) OPEN_BRACE = true) as Ho' by exact Ho.
  assert (includes (44%N :: rest) CLOSE_BRACE = false) as Hc' by exact Hc.
  assert (truncated_guard raw = true) as Gt.
  { apply truncated_guard_spec. rewrite Hraw.
    pose proof (lastIndexOf_range OPEN_BRACE (44%N :: rest)) as Ro.
    assert (lastIndexOf (44%N :: rest) OPEN_BRACE <> -1) as Lo.
    { intros E. apply lastIndexOf_none in E. rewrite Ho' in E. discriminate E. }
    rewrite (lastIndexOf_in_suffix OPEN_BRACE pre (44%N :: rest) _ eq_refl Lo).
    rewrite (lastIndexOf_not_in_suffix CLOSE_BRACE pre (44%N :: rest))
      by (apply lastIndexOf_none; exact Hc').
    pose proof (lastIndexOf_range CLOSE_BRACE pre) as Rc.
    pose proof (length_nonneg pre). lia. }
  pose proof (guards_exclusive raw Gt) as Ge.
  assert (possibleTruncation raw = true) as Pt.
  { apply possibleTruncation_spec. rewrite Hraw. split; [|split].
    - destruct pre; discriminate.
    - rewrite endsWith_app by discriminate.
      destruct (endsWith (44%N :: rest) CLOSE_BRACE) eqn:E; [|reflexivity].
      apply endsWith_includes in E. rewrite Hc' in E. discriminate E.
    - rewrite includes_app, Ho'. apply orb_true_r. }
  unfold decode_result, stages_result, recovery_outcome, direct_result,
    patch_result, fallback_result.
  rewrite Pr, Gt, Ge, Pf, Pt.
  destruct (0 <? JSStr.length raw); reflexivity.
Qed.

End CutInMetadata.

(** ** The test script *)

Section TestScript.

Import JSON DebugJsonTest.

Lemma test_numbers_text :
  JSNum.NumberToString (JSNum.of_Z 0) = lit "0" /\
  JSNum.NumberToString (JSNum.of_decimal false 1234 (-3)) = lit "1.234".
Proof. split; vm_compute; reflexivity. Qed.

Lemma test_numbers_real :
  JSNum.is_real (JSNum.of_Z 0) = true /\
  JSNum.is_real (JSNum.of_decimal false 1234 (-3)) = true.
Proof. split; vm_compute; reflexivity. Qed.

(** Lines 119-125: the text that is generated. *)
Lemma generateTestOutput_text (rnd : nat -> Z) (length : Z) :
  generateTestOutput rnd length =
  tool_result_text (longOutput rnd length) (JSNum.of_Z 0)
                   (JSNum.of_decimal false 1234 (-3)).
Proof.
  destruct test_numbers_real as [R0 R1].
  pose proof (serialize_tool_result (longOutput rnd length) _ _
                (number_reads_back _ R0) (number_reads_back _ R1)) as S.
  unfold generateTestOutput, stringify_object.
  unfold tool_result_value in S. rewrite S. reflexivity.
Qed.

Lemma test_text_tail (o : jsstring) :
  tool_result_text o (JSNum.of_Z 0) (JSNum.of_decimal false 1234 (-3)) =
  (qlit "{'output':" ++ quote o) ++
  qlit ",'metadata':{'exit_code':0,'duration_seconds':1.234}}".
Proof.
  destruct test_numbers_text as [E0 E1].
  unfold tool_result_text. rewrite E0, E1, <- app_assoc. reflexivity.
Qed.

(** Lines 70-78 on a generated text. *)
Lemma test_truncatedJsons (o : jsstring) :
  truncatedJsons (tool_result_text o (JSNum.of_Z 0)
                    (JSNum.of_decimal false 1234 (-3))) =
  [ (qlit "{'output':" ++ quote o) ++
      qlit ",'metadata':{'exit_code':0,'duration_seconds':1.234}";
    (qlit "{'output':" ++ quote o) ++
      qlit ",'metadata':{'exit_code':0,'duration_seconds':1.";
    (qlit "{'output':" ++ quote o) ++
      qlit ",'metadata':{'exit_code':0,'duration_seconds':1.234}";
    (qlit "{'output':" ++ quote o) ++
      qlit ",'metadata':{'exit_code':0,'duration_seconds'" ].
Proof.
  rewrite test_text_tail.
  set (pre := qlit "{'output':" ++ quote o).
  set (tail := qlit ",'metadata':{'exit_code':0,'duration_seconds':1.234}}").
  unfold truncatedJsons, truncatedPoints. cbn [List.map].
  rewrite (lastIndexOf_in_suffix CLOSE_BRACE pre tail 52)
    by (try discriminate; vm_compute; reflexivity).
  rewrite (lastIndexOf_in_suffix QUOTE pre tail 44)
    by (try discriminate; vm_compute; reflexivity).
  rewrite length_app_Z. change (JSStr.length tail) with 53.
  replace (JSStr.length pre + 53 - 1) with (JSStr.length pre + 52) by lia.
  replace (JSStr.length pre + 53 - 5) with (JSStr.length pre + 48) by lia.
  replace (JSStr.length pre + 44 + 1) with (JSStr.length pre + 45) by lia.
  rewrite !substring_prefix_app
    by (change (JSStr.length tail) with 53; lia).
  reflexivity.
Qed.

End TestScript.

(** X6. The parsing test of the script always decodes what it generates:
    for every length and every sequence of random draws,
    [parseToolCallOutput(generateTestOutput(length))] returns the generated
    output unchanged, exit code 0 and the duration 1.234. *)
Theorem generated_output_decodes (rnd : nat -> Z) (length : Z) (env : Env) :
  snd (parseToolCallOutput (DebugJsonTest.generateTestOutput rnd length) env) =
    Ok {| output := JString (DebugJsonTest.longOutput rnd length);
          metadata :=
            JObject [ (lit "exit_code", JNumber (JSNum.of_Z 0));
                      (lit "duration_seconds",
                       JNumber (JSNum.of_decimal false 1234 (-3))) ] |}.
Proof.
  destruct test_numbers_real as [R0 R1].
  rewrite generateTestOutput_text, parseToolCallOutput_outcome.
  unfold decode_result, stages_result, recovery_outcome, direct_result.
  rewrite (parse_tool_result_text _ _ _ (number_reads_back _ R0)
             (number_reads_back _ R1)).
  reflexivity.
Qed.

(** X7. None of the four truncations of the script is recovered, for any
    generated text: cut before the last unit or at the last close brace
    (the same text), the call answers [Failed to parse JSON result]; cut
    five units before the end or after the last quotation mark, it
    answers [Response appears to be truncated]; the exit code is 1 in all
    four. The call never throws, so the script reports a recovery each
    time. *)
Theorem test_truncations_not_recovered (rnd : nat -> Z) (length : Z)
  (env : Env) :
  List.map (fun truncatedJson => snd (parseToolCallOutput truncatedJson env))
           (DebugJsonTest.truncatedJsons
              (DebugJsonTest.generateTestOutput rnd length)) =
  [ Ok {| output := JString MSG_FAILED; metadata := FAILURE_METADATA |};
    Ok {| output := JString MSG_TRUNCATED; metadata := FAILURE_METADATA |};
    Ok {| output := JString MSG_FAILED; metadata := FAILURE_METADATA |};
    Ok {| output := JString MSG_TRUNCATED; metadata := FAILURE_METADATA |} ].
Proof.
  destruct test_numbers_real as [R0 R1].
  destruct test_numbers_text as [E0 E1].
  rewrite generateTestOutput_text, test_truncatedJsons.
  set (o := DebugJsonTest.longOutput rnd length).
  cbn [List.map]. rewrite !parseToolCallOutput_outcome.
  assert (decode_result
            ((qlit "{'output':" ++ JSON.quote o) ++
             qlit ",'metadata':{'exit_code':0,'duration_seconds':1.234}") =
          {| output := JString MSG_FAILED; metadata := FAILURE_METADATA |}) as D1.
  { destruct (missing_last_brace o _ _ (number_reads_back _ R0)
                (number_reads_back _ R1)) as [_ [_ [_ [_ [_ D]]]]].
    rewrite E0, E1 in D. rewrite <- D. f_equal.
    rewrite <- !app_assoc. reflexivity. }
  assert (decode_result
            ((qlit "{'output':" ++ JSON.quote o) ++
             qlit ",'metadata':{'exit_code':0,'duration_seconds':1.") =
          {| output := JString MSG_TRUNCATED; metadata := FAILURE_METADATA |})
    as D2.
  { rewrite <- app_assoc.
    apply (cut_in_metadata o
             (qlit "'metadata':{'exit_code':0,'duration_seconds':1."));
      try (intros acc; vm_compute; reflexivity); reflexivity. }
  assert (decode_result
            ((qlit "{'output':" ++ JSON.quote o) ++
             qlit ",'metadata':{'exit_code':0,'duration_seconds'") =
          {| output := JString MSG_TRUNCATED; metadata := FAILURE_METADATA |})
    as D4.
  { rewrite <- app_assoc.
    apply (cut_in_metadata o
             (qlit "'metadata':{'exit_code':0,'duration_seconds'"));
      try (intros acc; vm_compute; reflexivity); reflexivity. }
  rewrite D1, D2, D4. reflexivity.
Qed.

(** ** The size of a generated output *)

Section Generator.

Import DebugJsonTest.

Variable rnd : nat -> Z.
Hypothesis rnd_range : forall k, 0 <= rnd k < 62.

Lemma charAt_length (s : jsstring) (i : Z) :
  0 <= i < JSStr.length s -> JSStr.length (charAt s i) = 1.
Proof.
  intros Hi. unfold charAt.
  destruct (Z.leb_spec 0 i); [|lia]. destruct (Z.ltb_spec i (JSStr.length s)); [|lia].
  cbn [andb]. unfold JSStr.length in *.
  rewrite length_firstn, length_skipn. lia.
Qed.

Lemma chunk_length (k n : nat) : JSStr.length (chunk rnd k n) = Z.of_nat n.
Proof.
  revert k. induction n as [|n IH]; intros k; [reflexivity|].
  cbn [chunk]. rewrite length_app_Z, IH, charAt_length; [lia|].
  change (JSStr.length chars) with 62. apply rnd_range.
Qed.

Lemma fill_length (length : Z) (turns k : nat) (cur : jsstring) :
  length - 100 - JSStr.length cur <= Z.of_nat turns ->
  JSStr.length (fill rnd turns k cur length) =
  JSStr.length cur +
  81 * ((Z.max 0 (length - 100 - JSStr.length cur) + 80) / 81).
Proof.
  revert k cur. induction turns as [|t IH]; intros k cur Ht; cbn [fill].
  - rewrite Z.max_l by lia. change ((0 + 80) / 81) with 0. lia.
  - destruct (Z.ltb_spec (JSStr.length cur) (length - 100)) as [Hlt|Hge].
    + rewrite IH; rewrite !length_app_Z, chunk_length;
        change (JSStr.length [NEWLINE]) with 1; [|lia].
      change (Z.of_nat 80) with 80.
      set (d := length - 100 - JSStr.length cur) in *.
      replace (length - 100 - (JSStr.length cur + (80 + 1))) with (d - 81)
        by (subst d; lia).
      rewrite (Z.max_r 0 d) by lia.
      destruct (Z.le_gt_cases d 81) as [Hs|Hl].
      * rewrite (Z.max_l 0 (d - 81)) by lia. change ((0 + 80) / 81) with 0.
        replace ((d + 80) / 81) with 1; [lia|].
        apply Z.div_unique with (r := d - 1); lia.
      * rewrite (Z.max_r 0 (d - 81)) by lia.
        replace (d + 80) with ((d - 81 + 80) + 1 * 81) by lia.
        rewrite Z.div_add by lia. lia.
    + rewrite Z.max_l by lia. change ((0 + 80) / 81) with 0. lia.
Qed.

End Generator.

(** X8. The output that [generateTestOutput(length)] builds (lines
    106-116) is made of lines of 80 drawn units and a line feed: its
    length is 81 times the number of lines, the least number that reaches
    [length - 100] (none when [length] is at most 100). So the loop ends
    with at least [max(0, length - 100)] units and fewer than 81 more
    than that. *)
Theorem generated_output_length (rnd : nat -> Z) (length : Z) :
  (forall k, 0 <= rnd k < 62) ->
  JSStr.length (DebugJsonTest.longOutput rnd length) =
    81 * ((Z.max 0 (length - 100) + 80) / 81) /\
  Z.max 0 (length - 100) <= JSStr.length (DebugJsonTest.longOutput rnd length)
    < Z.max 0 (length - 100) + 81.
Proof.
  intros Hr.
  assert (JSStr.length (DebugJsonTest.longOutput rnd length) =
          81 * ((Z.max 0 (length - 100) + 80) / 81)) as E.
  { unfold DebugJsonTest.longOutput.
    rewrite (fill_length rnd Hr length) by (cbn; lia).
    change (JSStr.length []) with 0. rewrite Z.sub_0_r. lia. }
  split; [exact E|]. rewrite E.
  pose proof (Z.div_mod (Z.max 0 (length - 100) + 80) 81 ltac:(lia)) as D.
  pose proof (Z.mod_pos_bound (Z.max 0 (length - 100) + 80) 81 ltac:(lia)) as B.
  lia.
Qed.

(** The first size of the script, with every draw equal to zero: twelve
    lines. *)
Lemma generated_output_length_witness :
  (forall k : nat, 0 <= (fun _ : nat => 0) k < 62) /\
  JSStr.length (DebugJsonTest.longOutput (fun _ => 0) 1000) =
    81 * ((Z.max 0 (1000 - 100) + 80) / 81).
Proof.
  split; [intros k; lia|].
  exact (proj1 (generated_output_length (fun _ => 0) 1000
                  (fun k => conj (Z.le_refl 0) eq_refl))).
Defined.

(** ** The arguments decoder *)

Section ArgumentsText.

Import JSON.

(** The text of an array of strings. *)
Lemma serialize_string_array (l : list jsstring) :
  serialize (JArray (List.map JString l))
  = Some (lit "[" ++ string_elements l ++ lit "]").
Proof.
  cbn [serialize]. f_equal. f_equal. f_equal.
  destruct l as [|s r]; [reflexivity|].
  cbn [List.map string_elements app serialize]. f_equal.
  induction r as [|x r IH]; [reflexivity|].
  cbn [List.map flat_map serialize]. rewrite <- app_assoc. f_equal. f_equal.
  exact IH.
Qed.

(** The elements of a non-empty array, up to the bracket. *)
Lemma parse_string_elements (l : list jsstring) (f : nat) (acc : list JSValue)
  (s : jsstring) (tail : jsstring) :
  (List.length l < f)%nat ->
  parse_elements (S f) acc
    (quote s ++ flat_map (fun x => lit "," ++ quote x) l ++
     CLOSE_BRACKET :: tail)
  = POk (JArray (rev acc ++ JString s :: List.map JString l)) tail.
Proof.
  revert f acc s. induction l as [|x r IH]; intros f acc s Hf.
  - cbn [flat_map app List.map]. rewrite parse_elements_eq.
    destruct f as [|f]; [lia|].
    destruct (parse_quote s (CLOSE_BRACKET :: tail)) as [body [Eb Pb]].
    rewrite Eb, (parse_value_string _ _ _ _ Pb).
    change (skip_ws (CLOSE_BRACKET :: tail)) with (CLOSE_BRACKET :: tail).
    change (N.eqb CLOSE_BRACKET 44) with false.
    change (N.eqb CLOSE_BRACKET CLOSE_BRACKET) with true. cbv iota.
    reflexivity.
  - cbn [flat_map List.map]. rewrite parse_elements_eq.
    destruct f as [|f]; [cbn in Hf; lia|].
    rewrite <- !app_assoc.
    change (lit "," ++ quote x ++ flat_map (fun x0 => lit "," ++ quote x0) r ++
            CLOSE_BRACKET :: tail)
      with (44%N :: (quote x ++ flat_map (fun x0 => lit "," ++ quote x0) r ++
                     CLOSE_BRACKET :: tail)).
    destruct (parse_quote s
                (44%N :: (quote x ++ flat_map (fun x0 => lit "," ++ quote x0) r ++
                          CLOSE_BRACKET :: tail))) as [body [Eb Pb]].
    rewrite Eb, (parse_value_string _ _ _ _ Pb).
    match goal with
    | |- context [skip_ws (44%N :: ?t)] =>
        change (skip_ws (44%N :: t)) with (44%N :: t)
    end.
    change (N.eqb 44 44) with true. cbv iota.
    rewrite IH by (cbn in Hf; lia).
    cbn [rev]. rewrite <- app_assoc. reflexivity.
Qed.

(** An array of strings, followed by [tail]. *)
Lemma parse_string_array (l : list jsstring) (f : nat) (tail : jsstring) :
  (List.length l < f)%nat ->
  parse_value (S (S f)) (lit "[" ++ string_elements l ++ CLOSE_BRACKET :: tail)
  = POk (JArray (List.map JString l)) tail.
Proof.
  intros Hf. rewrite parse_value_eq.
  change (lit "[" ++ string_elements l ++ CLOSE_BRACKET :: tail)
    with (OPEN_BRACKET :: (string_elements l ++ CLOSE_BRACKET :: tail)).
  match goal with
  | |- context [skip_ws (OPEN_BRACKET :: ?t)] =>
      change (skip_ws (OPEN_BRACKET :: t)) with (OPEN_BRACKET :: t)
  end.
  change (N.eqb OPEN_BRACKET OPEN_BRACE) with false.
  change (N.eqb OPEN_BRACKET OPEN_BRACKET) with true. cbv iota.
  destruct l as [|s r].
  - cbn [string_elements app].
    change (skip_ws (CLOSE_BRACKET :: tail)) with (CLOSE_BRACKET :: tail).
    change (N.eqb CLOSE_BRACKET CLOSE_BRACKET) with true. reflexivity.
  - cbn [string_elements]. rewrite <- app_assoc.
    destruct (parse_quote s (flat_map (fun x => lit "," ++ quote x) r ++
                             CLOSE_BRACKET :: tail)) as [body [Eb Pb]].
    assert (skip_ws (quote s ++ flat_map (fun x => lit "," ++ quote x) r ++
                     CLOSE_BRACKET :: tail) =
            quote s ++ flat_map (fun x => lit "," ++ quote x) r ++
            CLOSE_BRACKET :: tail) as Ws by (rewrite Eb; reflexivity).
    rewrite Ws, Eb. cbv iota.
    change (N.eqb QUOTE CLOSE_BRACKET) with false. cbv iota.
    rewrite <- Eb.
    rewrite parse_string_elements by (cbn in Hf; lia). reflexivity.
Qed.

End ArgumentsText.

Section ArgumentsTrace.

(** Unfolding of sequencing, on the trace side. *)
Ltac trace_step :=
  rewrite ?trace_bind, ?trace_try_catch, ?outcome_bind, ?outcome_try_catch;
  cbn [snd fst lift log spawn ret throw when getenv_DEBUG app].

Lemma parseToolCallArguments_trace (raw : jsstring) (env : Env) :
  fst (parseToolCallArguments raw env) =
  match JSON.parse raw with
  | Ok _ => []
  | Throw _ => [Console (LFailedToParseArguments raw)]
  end.
Proof.
  unfold parseToolCallArguments. repeat trace_step.
  destruct (JSON.parse raw) as [json|e]; repeat trace_step; [|reflexivity].
  assert (negb match typeof json with TObject => true | _ => false end ||
          match json with JNull | JUndefined => true | _ => false end
          = negb (is_container json)) as -> by (destruct json; reflexivity).
  destruct (is_container json) eqn:Ec; cbn [negb]; [|reflexivity].
  repeat trace_step.
  rewrite !(get_property_field json _ Ec). repeat trace_step.
  destruct (toStringArray (field json (lit "cmd")));
    [|destruct (toStringArray (field json (lit "command")))];
    repeat trace_step; reflexivity.
Qed.

End ArgumentsTrace.

(** X9. [parseToolCallArguments] never throws and starts no file write;
    its answer does not depend on the environment. It prints one line,
    [Failed to parse toolCall.arguments], exactly when the text is not
    JSON: a text that is JSON but no command (not an object, or without
    an array of strings under [cmd] or [command]) is refused silently. *)
Theorem arguments_decoder_silent (raw : jsstring) (env : Env) :
  parseToolCallArguments raw env =
    (match JSON.parse raw with
     | Ok _ => []
     | Throw _ => [Console (LFailedToParseArguments raw)]
     end,
     Ok (arguments_result raw)) /\
  spawned (fst (parseToolCallArguments raw env)) = [] /\
  (forall json, JSON.parse raw = Ok json ->
                fst (parseToolCallArguments raw env) = []) /\
  (forall e, JSON.parse raw = Throw e ->
             parseToolCallArguments raw env =
               ([Console (LFailedToParseArguments raw)], Ok None)).
Proof.
  assert (parseToolCallArguments raw env =
          (match JSON.parse raw with
           | Ok _ => []
           | Throw _ => [Console (LFailedToParseArguments raw)]
           end, Ok (arguments_result raw))) as E.
  { rewrite <- (parseToolCallArguments_trace raw env),
      <- (parseToolCallArguments_outcome raw env).
    destruct (parseToolCallArguments raw env); reflexivity. }
  split; [exact E|]. rewrite E. cbn [fst].
  split; [destruct (JSON.parse raw); reflexivity|].
  split.
  - intros json H. rewrite H. reflexivity.
  - intros e H. unfold arguments_result. rewrite H. reflexivity.
Qed.

(** ** Which command is taken *)

Section ArgumentsChoice.

Lemma toStringArray_iff (v : JSValue) (l : list jsstring) :
  toStringArray v = Some l <-> v = JArray (List.map JString l).
Proof.
  split; [apply toStringArray_spec|]. intros ->. apply toStringArray_strings.
Qed.

Lemma field_of_object (props : list (jsstring * JSValue)) (k : jsstring) :
  field (JObject props) k =
  match prop_get props k with Some x => x | None => JUndefined end.
Proof. unfold field. cbn [get_property]. destruct (prop_get props k); reflexivity. Qed.

End ArgumentsChoice.

(** X10. Which array [parseToolCallArguments] takes from a JSON object:
    [cmd] when it is an array of strings, whatever [command] holds;
    otherwise [command] when that is an array of strings; otherwise the
    call returns [undefined]. An array counts only if every item is a
    string, and the strings are returned in their order. *)
Theorem arguments_command_choice (raw : jsstring) (env : Env)
  (props : list (jsstring * JSValue)) :
  JSON.parse raw = Ok (JObject props) ->
  (forall l, prop_get props (lit "cmd") = Some (JArray (List.map JString l)) ->
     exists d, snd (parseToolCallArguments raw env) = Ok (Some d) /\ cmd d = l) /\
  (forall l, toStringArray (field (JObject props) (lit "cmd")) = None ->
     prop_get props (lit "command") = Some (JArray (List.map JString l)) ->
     exists d, snd (parseToolCallArguments raw env) = Ok (Some d) /\ cmd d = l) /\
  (toStringArray (field (JObject props) (lit "cmd")) = None ->
   toStringArray (field (JObject props) (lit "command")) = None ->
   snd (parseToolCallArguments raw env) = Ok None) /\
  (forall v, toStringArray v = None <->
             forall l, v <> JArray (List.map JString l)).
Proof.
  intros Hp. rewrite parseToolCallArguments_outcome.
  unfold arguments_result. rewrite Hp. cbn [is_container].
  split; [|split; [|split]].
  - intros l Hc. rewrite (field_of_object props (lit "cmd")), Hc.
    rewrite toStringArray_strings. eexists. split; reflexivity.
  - intros l Hn Hc. rewrite Hn.
    rewrite (field_of_object props (lit "command")), Hc.
    rewrite toStringArray_strings. eexists. split; reflexivity.
  - intros H1 H2. rewrite H1, H2. reflexivity.
  - intros v. split.
    + intros H l E. apply toStringArray_iff in E. congruence.
    + intros H. destruct (toStringArray v) as [l|] eqn:E; [|reflexivity].
      apply toStringArray_iff in E. exfalso. exact (H l E).
Qed.

(** Both keys hold an array of strings: [cmd] is taken. *)
Lemma arguments_command_choice_witness :
  JSON.parse (qlit "{'command':['b'],'cmd':['a','-l']}") =
    Ok (JObject [ (lit "command", JArray [JString (lit "b")]);
                  (lit "cmd", JArray [JString (lit "a"); JString (lit "-l")]) ]) /\
  exists d,
    snd (parseToolCallArguments (qlit "{'command':['b'],'cmd':['a','-l']}")
                                DEBUG_OFF) = Ok (Some d) /\
    cmd d = [lit "a"; lit "-l"].
Proof.
  assert (JSON.parse (qlit "{'command':['b'],'cmd':['a','-l']}") =
          Ok (JObject [ (lit "command", JArray [JString (lit "b")]);
                        (lit "cmd", JArray [JString (lit "a");
                                            JString (lit "-l")]) ])) as H
    by (vm_compute; reflexivity).
  split; [exact H|].
  exact (proj1 (arguments_command_choice _ DEBUG_OFF _ H)
               [lit "a"; lit "-l"] eq_refl).
Defined.

(** ** Round trip of a command *)

Section ArgumentsRoundTrip.

Import JSON.

Lemma serialize_object3 (k1 k2 k3 : jsstring) (v1 v2 v3 : JSValue)
  (t1 : jsstring) :
  serialize v1 = Some t1 ->
  serialize (JObject [(k1, v1); (k2, v2); (k3, v3)]) =
  Some (lit "{" ++ quote k1 ++ lit ":" ++ t1 ++
        match serialize v2 with
        | Some t => lit "," ++ quote k2 ++ lit ":" ++ t
        | None => []
        end ++
        match serialize v3 with
        | Some t => lit "," ++ quote k3 ++ lit ":" ++ t
        | None => []
        end ++ lit "}").
Proof.
  intros H1. cbn [serialize]. rewrite H1.
  destruct (serialize v2) as [t2|], (serialize v3) as [t3|]; f_equal;
    cbn [app]; repeat (rewrite <- app_assoc; cbn [app]); reflexivity.
Qed.

Variable d : ExecInput.
Hypothesis Ht : forall t, timeoutInMillis d = Some t -> JSNum.is_real t = true.

Lemma serialize_exec_input (key : jsstring) :
  serialize (exec_input_value key d) = Some (exec_input_text key d).
Proof.
  unfold exec_input_value, exec_input_text.
  rewrite (serialize_object3 _ _ _ _ _ _ _ (serialize_string_array (cmd d))).
  f_equal.
  destruct (workdir d) as [w|], (timeoutInMillis d) as [t|] eqn:Et;
    cbn [serialize];
    try (pose proof (reads_back_finite t (number_reads_back t (Ht t eq_refl)))
           as ->);
    cbn [app]; repeat (rewrite <- app_assoc; cbn [app]); reflexivity.
Qed.

End ArgumentsRoundTrip.

Section ArgumentsMembers.

Import JSON.

Lemma prop_set_new (acc : list (jsstring * JSValue)) (k : jsstring)
  (v : JSValue) :
  prop_get acc k = None -> prop_set acc k v = acc ++ [(k, v)].
Proof.
  induction acc as [|[k' v'] r IH]; [reflexivity|].
  cbn [prop_get prop_set]. destruct (JSStr.eqb k' k); [discriminate|].
  intros H. cbn [app]. f_equal. exact (IH H).
Qed.

(** The member [timeout], the last of the object. *)
Lemma parse_timeout_member (f : nat) (acc : list (jsstring * JSValue))
  (t : JSNum.number) :
  reads_back t ->
  prop_get acc (lit "timeout") = None ->
  parse_members (S (S f)) acc
    (QUOTE :: (qlit "timeout':" ++ JSNum.NumberToString t ++ [CLOSE_BRACE]))
  = POk (JObject (acc ++ [(lit "timeout", JNumber t)])) [].
Proof.
  intros Rt Hacc.
  destruct (reads_back_in_context t CLOSE_BRACE [] f Rt (or_intror eq_refl))
    as [rt [Pt St]].
  rewrite (parse_members_last (S f) acc
             (qlit "timeout':" ++ JSNum.NumberToString t ++ [CLOSE_BRACE])
             (lit "timeout") (JSNum.NumberToString t ++ [CLOSE_BRACE])
             (JNumber t) (rt ++ [CLOSE_BRACE]) [] eq_refl Pt St).
  rewrite prop_set_new by exact Hacc. reflexivity.
Qed.

(** The member [workdir], the last of the object or followed by another. *)
Lemma parse_workdir_member_last (f : nat) (acc : list (jsstring * JSValue))
  (w : jsstring) :
  prop_get acc (lit "workdir") = None ->
  parse_members (S (S f)) acc
    (QUOTE :: (qlit "workdir':" ++ quote w ++ [CLOSE_BRACE]))
  = POk (JObject (acc ++ [(lit "workdir", JString w)])) [].
Proof.
  intros Hacc.
  destruct (parse_quote w [CLOSE_BRACE]) as [body [Eb Pb]]. rewrite Eb.
  rewrite (parse_members_last (S f) acc
             (qlit "workdir':" ++ QUOTE :: body) (lit "workdir")
             (QUOTE :: body) (JString w) [CLOSE_BRACE] [] eq_refl
             (parse_value_string _ _ _ _ Pb) eq_refl).
  rewrite prop_set_new by exact Hacc. reflexivity.
Qed.

Lemma parse_workdir_member_more (f : nat) (acc : list (jsstring * JSValue))
  (w rest : jsstring) :
  prop_get acc (lit "workdir") = None ->
  parse_members (S (S f)) acc
    (QUOTE :: (qlit "workdir':" ++ quote w ++ 44%N :: rest))
  = parse_members (S f) (acc ++ [(lit "workdir", JString w)]) rest.
Proof.
  intros Hacc.
  destruct (parse_quote w (44%N :: rest)) as [body [Eb Pb]]. rewrite Eb.
  rewrite (parse_members_more (S f) acc
             (qlit "workdir':" ++ QUOTE :: body) (lit "workdir")
             (QUOTE :: body) (JString w) (44%N :: rest) rest eq_refl
             (parse_value_string _ _ _ _ Pb) eq_refl).
  rewrite prop_set_new by exact Hacc. reflexivity.
Qed.

(** The members after the command, which the first member of the object
    is: the text from the unit after the array on. *)
Lemma parse_members_after_command (l : list jsstring) (w : option jsstring)
  (t : option JSNum.number) (body key : jsstring) (rest : jsstring) :
  parse_string_body body =
    Some (key, 58%N :: (lit "[" ++ string_elements l ++ CLOSE_BRACKET :: rest)) ->
  (key = lit "cmd" \/ key = lit "command") ->
  (forall x, t = Some x -> reads_back x) ->
  rest =
    match w with
    | Some w => qlit ",'workdir':" ++ quote w
    | None => []
    end ++
    match t with
    | Some t => qlit ",'timeout':" ++ JSNum.NumberToString t
    | None => []
    end ++ lit "}" ->
  parse_members (S (S (S (S (List.length l))))) [] (QUOTE :: body) =
  POk (JObject
         ((key, JArray (List.map JString l)) ::
          match w with
          | Some w => [(lit "workdir", JString w)]
          | None => []
          end ++
          match t with
          | Some t => [(lit "timeout", JNumber t)]
          | None => []
          end)) [].
Proof.
  intros Hk Hkey Ht ->.
  pose proof (fun tail => parse_string_array l (S (List.length l)) tail
                            ltac:(lia)) as Pa.
  assert (prop_get [(key, JArray (List.map JString l))] (lit "workdir") = None
          /\ prop_get [(key, JArray (List.map JString l))] (lit "timeout") = None)
    as [Kw Kt] by (destruct Hkey as [->| ->]; split; reflexivity).
  destruct w as [w|], t as [t|]; cbn [app] in Hk |- *.
  - rewrite <- app_assoc in Hk.
    set (r2 := QUOTE :: (qlit "workdir':" ++ quote w ++ 44%N :: QUOTE ::
                 (qlit "timeout':" ++ JSNum.NumberToString t ++ [CLOSE_BRACE]))).
    change (qlit ",'workdir':" ++ quote w ++
            qlit ",'timeout':" ++ JSNum.NumberToString t ++ lit "}")
      with (44%N :: r2) in Hk.
    rewrite (parse_members_more _ [] body key _ _ (44%N :: r2) r2 Hk (Pa _)
               eq_refl).
    subst r2. cbn [prop_set].
    rewrite parse_workdir_member_more by exact Kw.
    rewrite parse_timeout_member; [reflexivity | apply Ht; reflexivity|].
    cbn [app prop_get]. destruct Hkey as [->| ->]; reflexivity.
  - set (r2 := QUOTE :: (qlit "workdir':" ++ quote w ++ [CLOSE_BRACE])).
    change (qlit ",'workdir':" ++ quote w ++ lit "}") with (44%N :: r2) in Hk.
    rewrite (parse_members_more _ [] body key _ _ (44%N :: r2) r2 Hk (Pa _)
               eq_refl).
    subst r2. cbn [prop_set].
    rewrite parse_workdir_member_last by exact Kw. reflexivity.
  - set (r2 := QUOTE :: (qlit "timeout':" ++ JSNum.NumberToString t ++
                         [CLOSE_BRACE])).
    change (qlit ",'timeout':" ++ JSNum.NumberToString t ++ lit "}")
      with (44%N :: r2) in Hk.
    rewrite (parse_members_more _ [] body key _ _ (44%N :: r2) r2 Hk (Pa _)
               eq_refl).
    subst r2. cbn [prop_set].
    rewrite parse_timeout_member; [reflexivity | apply Ht; reflexivity|].
    exact Kt.
  - change (lit "}") with [CLOSE_BRACE] in Hk.
    rewrite (parse_members_last _ [] body key _ _ [CLOSE_BRACE] [] Hk (Pa _)
               eq_refl).
    reflexivity.
Qed.

End ArgumentsMembers.

Section ArgumentsParse.

Import JSON.

Lemma parse_exec_input_text (key : jsstring) (d : ExecInput) :
  (key = lit "cmd" \/ key = lit "command") ->
  (forall t, timeoutInMillis d = Some t -> JSNum.is_real t = true) ->
  JSON.parse (exec_input_text key d) =
  Ok (JObject
        ((key, JArray (List.map JString (cmd d))) ::
         match workdir d with
         | Some w => [(lit "workdir", JString w)]
         | None => []
         end ++
         match timeoutInMillis d with
         | Some t => [(lit "timeout", JNumber t)]
         | None => []
         end)).
Proof.
  intros Hkey Ht.
  set (rest := match workdir d with
               | Some w => qlit ",'workdir':" ++ quote w
               | None => []
               end ++
               match timeoutInMillis d with
               | Some t => qlit ",'timeout':" ++ JSNum.NumberToString t
               | None => []
               end ++ lit "}").
  set (body := quote_body key ++ QUOTE :: 58%N ::
               (lit "[" ++ string_elements (cmd d) ++ CLOSE_BRACKET :: rest)).
  assert (exec_input_text key d = OPEN_BRACE :: QUOTE :: body) as E.
  { unfold exec_input_text. fold rest. subst body.
    generalize (string_elements (cmd d)) rest. intros el r.
    destruct Hkey as [->| ->]; reflexivity. }
  rewrite E.
  apply (parse_of_run (S (S (S (S (S (List.length (cmd d))))))) _ _ []);
    [|reflexivity].
  rewrite parse_value_object.
  apply (parse_members_after_command (cmd d) (workdir d) (timeoutInMillis d)
           body key rest).
  - subst body. apply parse_quote_body.
  - exact Hkey.
  - intros x Hx. apply number_reads_back. now apply Ht.
  - reflexivity.
Qed.

End ArgumentsParse.

(** X11. Round trip of a command: for every list of strings, every
    optional working directory and every optional timeout that is a real
    number, the text [JSON.stringify] writes for
    [{ cmd, workdir, timeout }] (or with the key [command]) is decoded by
    [parseToolCallArguments] into the same three fields, and nothing is
    printed. *)
Theorem exec_input_round_trip (key : jsstring) (d : ExecInput) (env : Env) :
  (key = lit "cmd" \/ key = lit "command") ->
  (forall t, timeoutInMillis d = Some t -> JSNum.is_real t = true) ->
  JSON.serialize (exec_input_value key d) = Some (exec_input_text key d) /\
  parseToolCallArguments (exec_input_text key d) env = ([], Ok (Some d)).
Proof.
  intros Hkey Ht.
  split; [now apply serialize_exec_input|].
  pose proof (parse_exec_input_text key d Hkey Ht) as P.
  pose proof (parseToolCallArguments_trace (exec_input_text key d) env) as T.
  pose proof (parseToolCallArguments_outcome (exec_input_text key d) env) as O.
  rewrite P in T.
  assert (arguments_result (exec_input_text key d) = Some d) as R.
  { unfold arguments_result. rewrite P. cbn [is_container].
    rewrite !field_of_object.
    destruct d as [l w t]. cbn [cmd workdir timeoutInMillis].
    destruct Hkey as [->| ->], w as [w|], t as [t|];
      cbn [app prop_get];
      repeat match goal with
             | |- context [JSStr.eqb (lit ?a) (lit ?b)] =>
                 let v := eval vm_compute in (JSStr.eqb (lit a) (lit b)) in
                 change (JSStr.eqb (lit a) (lit b)) with v; cbv iota
             end;
      rewrite ?toStringArray_strings; reflexivity. }
  rewrite R in O.
  destruct (parseToolCallArguments (exec_input_text key d) env) as [tr res].
  cbn [fst snd] in T, O. subst. reflexivity.
Qed.

(** A command with a working directory and a timeout of two minutes. *)
Lemma exec_input_round_trip_witness :
  (lit "command" = lit "cmd" \/ lit "command" = lit "command") /\
  (forall t,
     timeoutInMillis {| cmd := [lit "ls"; lit "-la"];
                        workdir := Some (lit "/tmp");
                        timeoutInMillis := Some (JSNum.of_Z 120000) |} = Some t ->
     JSNum.is_real t = true) /\
  parseToolCallArguments
    (exec_input_text (lit "command")
       {| cmd := [lit "ls"; lit "-la"];
          workdir := Some (lit "/tmp");
          timeoutInMillis := Some (JSNum.of_Z 120000) |}) DEBUG_OFF
  = ([], Ok (Some {| cmd := [lit "ls"; lit "-la"];
                     workdir := Some (lit "/tmp");
                     timeoutInMillis := Some (JSNum.of_Z 120000) |})).
Proof.
  assert (forall t,
            timeoutInMillis {| cmd := [lit "ls"; lit "-la"];
                               workdir := Some (lit "/tmp");
                               timeoutInMillis := Some (JSNum.of_Z 120000) |}
              = Some t -> JSNum.is_real t = true) as H
    by (intros t E; injection E as <-; vm_compute; reflexivity).
  split; [right; reflexivity|]. split; [exact H|].
  exact (proj2 (exec_input_round_trip (lit "command") _ DEBUG_OFF
                  (or_intror eq_refl) H)).
Defined.

(** ** The diagnostic recorder: sizes and previews *)

Section RecorderSizes.

Import DebugLogger.

Lemma utf8_length_bounds (s : jsstring) :
  JSStr.length s <= utf8_length s <= 3 * JSStr.length s.
Proof.
  remember (List.length s) as n eqn:Hn. revert s Hn.
  induction n as [n IH] using lt_wf_ind. intros s Hn.
  destruct s as [|c r]; [cbn; lia|].
  pose proof (IH (List.length r) ltac:(subst n; cbn; lia) r eq_refl) as Hr.
  assert (JSStr.length (c :: r) = 1 + JSStr.length r) as Lc
    by (unfold JSStr.length; cbn [List.length]; lia).
  cbn [utf8_length]. rewrite Lc.
  destruct (N.ltb c 128); [lia|].
  destruct (N.ltb c 2048); [lia|].
  destruct (JSON.is_high_surrogate c); [|lia].
  destruct r as [|d r']; [cbn in *; lia|].
  destruct (JSON.is_low_surrogate d); [|lia].
  pose proof (IH (List.length r') ltac:(subst n; cbn; lia) r' eq_refl) as Hr'.
  assert (JSStr.length (d :: r') = 1 + JSStr.length r') as Ld
    by (unfold JSStr.length; cbn [List.length]; lia).
  lia.
Qed.

Lemma utf8_length_ascii (s : jsstring) :
  Forall (fun c => (c < 128)%N) s -> utf8_length s = JSStr.length s.
Proof.
  intros H. induction H as [|c r Hc Hr IH]; [reflexivity|].
  cbn [utf8_length]. destruct (N.ltb_spec c 128); [|lia].
  rewrite IH. unfold JSStr.length. cbn [List.length]. lia.
Qed.

End RecorderSizes.

(** X12. The sizes [getSizeInfo] reports (debug-logger.ts, lines
    148-158): the byte count of the UTF-8 encoding lies between the
    length of the string and three times that length, and equals the
    length for ASCII text; the token estimate is the length divided by
    four, rounded up; an empty string has size zero. *)
Theorem getSizeInfo_bounds (str : jsstring) :
  JSStr.length str <= bytes (DebugLogger.getSizeInfo str)
    <= 3 * JSStr.length str /\
  (Forall (fun c => (c < 128)%N) str ->
   bytes (DebugLogger.getSizeInfo str) = JSStr.length str) /\
  4 * (tokens (DebugLogger.getSizeInfo str) - 1) < JSStr.length str
    <= 4 * tokens (DebugLogger.getSizeInfo str) /\
  DebugLogger.getSizeInfo [] =
    {| bytes := 0; kb := S754_zero false; tokens := 0 |}.
Proof.
  unfold DebugLogger.getSizeInfo. cbn [bytes tokens].
  split; [apply utf8_length_bounds|].
  split; [apply utf8_length_ascii|].
  split; [|reflexivity].
  pose proof (Z.div_mod (JSStr.length str + 3) 4 ltac:(lia)) as D.
  pose proof (Z.mod_pos_bound (JSStr.length str + 3) 4 ltac:(lia)) as B.
  lia.
Qed.

Section RecorderSample.

Lemma substring_from_suffix (s : jsstring) (n : Z) :
  0 <= n <= JSStr.length s ->
  substring_from s n = skipn (Z.to_nat n) s.
Proof.
  intros Hn. unfold substring_from, substring, clamp.
  rewrite (Z.max_l n 0), (Z.min_l n), (Z.max_l (JSStr.length s) 0), Z.min_id,
    (Z.min_l n), (Z.max_r n) by lia.
  apply firstn_all2. rewrite length_skipn. unfold JSStr.length in *. lia.
Qed.

End RecorderSample.

(** X13. The preview the recorder keeps of a text (debug-logger.ts,
    lines 23-28 and 53-58) never holds more than 1000 units: a text of at
    most 1000 units is kept whole, a longer one is kept as its first 500
    and its last 500 units. *)
Theorem sample_bounded (s : jsstring) :
  match DebugLogger.sample s with
  | Whole t => t = s /\ JSStr.length s <= 1000
  | HeadTail start stop =>
      1000 < JSStr.length s /\
      JSStr.length start = 500 /\ JSStr.length stop = 500 /\
      exists middle, s = start ++ middle ++ stop
  end.
Proof.
  unfold DebugLogger.sample.
  destruct (Z.ltb_spec 1000 (JSStr.length s)) as [Hl|Hs]; [|split; [reflexivity | lia]].
  rewrite substring_prefix by lia.
  rewrite substring_from_suffix by lia.
  split; [exact Hl|].
  assert (JSStr.length (firstn (Z.to_nat 500) s) = 500) as L1.
  { unfold JSStr.length in *. rewrite length_firstn. lia. }
  assert (JSStr.length (skipn (Z.to_nat (JSStr.length s - 500)) s) = 500) as L2.
  { unfold JSStr.length in *. rewrite length_skipn. lia. }
  split; [exact L1|]. split; [exact L2|].
  exists (firstn (Z.to_nat (JSStr.length s - 1000)) (skipn (Z.to_nat 500) s)).
  rewrite <- (firstn_skipn (Z.to_nat 500) s) at 1. f_equal.
  rewrite <- (firstn_skipn (Z.to_nat (JSStr.length s - 1000))
                (skipn (Z.to_nat 500) s)) at 1.
  f_equal. rewrite skipn_skipn. f_equal.
  unfold JSStr.length in *. lia.
Qed.

(** ** The diagnostic recorder: the analysis of an output *)

Section Analyzer.

Import DebugLogger.

Variable env : Env.
Hypothesis Hon : debug_enabled env = true.

Lemma log_issues_trace (issues : list Issue) :
  fst (fold_right (fun issue k => bind (log (LDebugIssue issue)) (fun _ => k))
                  (ret tt) issues env)
  = List.map (fun issue => Console (LDebugIssue issue)) issues.
Proof.
  induction issues as [|i r IH]; [reflexivity|].
  cbn [fold_right List.map]. rewrite trace_bind. cbn [snd fst log app].
  f_equal. exact IH.
Qed.

(** Everything a call does when the switch is on. *)
Lemma analyzeToolCallOutput_trace (functionName argsString output : jsstring) :
  exists data,
    ad_potential_issues data = potential_issues output /\
    fst (analyzeToolCallOutput functionName argsString output env) =
      [ Console (LDebugAnalysisFor functionName);
        Console (LDebugSizes (JSStr.length argsString) (JSStr.length output)) ] ++
      match potential_issues output with
      | [] => []
      | _ :: _ =>
          Console LDebugIssuesDetected ::
          List.map (fun issue => Console (LDebugIssue issue))
                   (potential_issues output)
      end ++
      [ Spawn (TWriteToLogFile (lit "tool-call-analysis") (DAnalysis data)) ] ++
      match potential_issues output with
      | [] => []
      | _ :: _ => [ Spawn (TWriteRawContent (lit "problematic-tool-output") output) ]
      end.
Proof.
  unfold debug_enabled in Hon.
  exists {| ad_functionName := functionName;
            ad_argumentsLength := JSStr.length argsString;
            ad_outputLength := JSStr.length output;
            ad_potential_issues := potential_issues output;
            ad_size_arguments := getSizeInfo argsString;
            ad_size_output := getSizeInfo output |}.
  split; [reflexivity|].
  unfold analyzeToolCallOutput. rewrite trace_bind.
  cbn [snd fst getenv_DEBUG app]. rewrite Hon. cbn [negb].
  fold (potential_issues output).
  repeat (rewrite ?trace_bind, ?outcome_bind; cbn [snd fst log app]).
  destruct (potential_issues output) as [|i r] eqn:E.
  - cbn [negb when]. cbn [snd fst ret spawn app]. reflexivity.
  - cbn [negb when].
    repeat (rewrite ?trace_bind, ?outcome_bind; cbn [snd fst log app]).
    rewrite (log_issues_outcome (i :: r)), (log_issues_trace (i :: r)).
    cbn [snd fst ret spawn app List.map].
    rewrite <- ?app_assoc. reflexivity.
Qed.

Lemma truncated_issue_test (output : jsstring) :
  negb (indexOf output OPEN_BRACE =? -1) &&
  (lastIndexOf output CLOSE_BRACE <? lastIndexOf output OPEN_BRACE)
  = truncated_guard output.
Proof.
  unfold truncated_guard.
  pose proof (lastIndexOf_range OPEN_BRACE output) as Ro.
  pose proof (lastIndexOf_range CLOSE_BRACE output) as Rc.
  assert ((indexOf output OPEN_BRACE =? -1) =
          (lastIndexOf output OPEN_BRACE =? -1)) as ->.
  { destruct (Z.eqb_spec (indexOf output OPEN_BRACE) (-1)) as [E|E],
             (Z.eqb_spec (lastIndexOf output OPEN_BRACE) (-1)) as [E'|E'];
      try reflexivity; exfalso.
    - apply indexOf_none in E. apply E'. now apply lastIndexOf_none.
    - apply lastIndexOf_none in E'. apply E. now apply indexOf_none. }
  destruct (Z.eqb_spec (lastIndexOf output OPEN_BRACE) (-1));
    cbn [negb andb]; [reflexivity|].
  destruct (Z.eqb_spec (lastIndexOf output CLOSE_BRACE) (-1));
    destruct (Z.ltb_spec (lastIndexOf output CLOSE_BRACE)
                (lastIndexOf output OPEN_BRACE)); cbn [orb]; try reflexivity; lia.
Qed.

Lemma truncated_issue_guard (output : jsstring) :
  In IssueTruncated (potential_issues output) <-> truncated_guard output = true.
Proof.
  unfold potential_issues. rewrite truncated_issue_test, !in_app_iff.
  destruct (truncated_guard output).
  - split; [reflexivity|]. intros _. right. left. now left.
  - split; [|discriminate].
    intros [H|[H|[H|H]]];
      repeat match type of H with
             | In _ (if ?b then _ else _) => destruct b
             end;
      cbn [In] in H; intuition discriminate.
Qed.

Lemma control_count (s : jsstring) :
  (0 <? Z.of_nat (List.length (filter is_control s))) = existsb is_control s.
Proof.
  induction s as [|c r IH]; [reflexivity|].
  cbn [filter existsb]. destruct (is_control c); [|exact IH].
  cbn [List.length orb]. apply Z.ltb_lt. lia.
Qed.

Lemma issues_none (output : jsstring) :
  potential_issues output = [] <->
  JSStr.length output <= 100000 /\
  truncated_guard output = false /\
  JSStr.count OPEN_BRACE output = JSStr.count CLOSE_BRACE output /\
  existsb is_control output = false.
Proof.
  unfold potential_issues. rewrite truncated_issue_test, control_count.
  destruct (Z.ltb_spec 100000 (JSStr.length output));
    destruct (truncated_guard output);
    destruct (Z.eqb_spec (JSStr.count OPEN_BRACE output)
                (JSStr.count CLOSE_BRACE output));
    destruct (existsb is_control output);
    cbn [negb app]; split; try discriminate; try (intros _; repeat split; lia);
    intros [H1 [H2 [H3 H4]]]; try discriminate; try lia; try reflexivity.
Qed.

End Analyzer.

(** X14. The analysis of an output and the result decoder agree on what
    a truncated text is: with the switch on, [analyzeToolCallOutput]
    reports [JSON appears to be truncated] (debug-logger.ts, line 110)
    exactly when the test before the close-brace patch (parsers.ts, line
    69) holds for that output. *)
Theorem analyzer_agrees_with_patch_guard (functionName argsString output : jsstring)
  (env : Env) :
  debug_enabled env = true ->
  (In (Console (LDebugIssue IssueTruncated))
      (fst (DebugLogger.analyzeToolCallOutput functionName argsString output env))
   <-> truncated_guard output = true).
Proof.
  intros Hon.
  destruct (analyzeToolCallOutput_trace env Hon functionName argsString output)
    as [data [_ ->]].
  rewrite <- truncated_issue_guard.
  rewrite !in_app_iff. cbn [In]. split.
  - intros [[H|[H|[]]]|[H|[[H|[]]|H]]]; try discriminate H.
    + destruct (potential_issues output) as [|i r]; [contradiction|].
      destruct H as [H|H]; [discriminate H|].
      apply in_map_iff in H. destruct H as [x [Hx Hin]].
      injection Hx as ->. exact Hin.
    + destruct (potential_issues output) as [|i r]; [contradiction|].
      destruct H as [H|[]]. discriminate H.
  - intros H. right. left.
    destruct (potential_issues output) as [|i r] eqn:E; [contradiction|].
    right. apply in_map_iff. exists IssueTruncated. split; [reflexivity | exact H].
Qed.

Lemma analyzer_agrees_with_patch_guard_witness :
  debug_enabled DEBUG_ON = true /\
  (In (Console (LDebugIssue IssueTruncated))
      (fst (DebugLogger.analyzeToolCallOutput (lit "shell") (lit "{}")
              PAYLOAD_NO_FIELDS DEBUG_ON))
   <-> truncated_guard PAYLOAD_NO_FIELDS = true).
Proof.
  split; [reflexivity|].
  exact (analyzer_agrees_with_patch_guard (lit "shell") (lit "{}")
           PAYLOAD_NO_FIELDS DEBUG_ON eq_refl).
Defined.

(** X15. When the analysis saves the raw output: with the switch on,
    [analyzeToolCallOutput] starts the write of
    [problematic-tool-output] exactly when the output is longer than
    100000 units, or passes the truncation test, or has different numbers
    of open and close braces, or holds a control character. A line feed
    is a control character, so every output of more than one line is
    saved. *)
Theorem analyzer_saves_raw_output (functionName argsString output : jsstring)
  (env : Env) :
  debug_enabled env = true ->
  (In (Spawn (TWriteRawContent (lit "problematic-tool-output") output))
      (fst (DebugLogger.analyzeToolCallOutput functionName argsString output env))
   <-> (100000 < JSStr.length output \/
        truncated_guard output = true \/
        JSStr.count OPEN_BRACE output <> JSStr.count CLOSE_BRACE output \/
        existsb DebugLogger.is_control output = true)) /\
  (In NEWLINE output ->
   In (Spawn (TWriteRawContent (lit "problematic-tool-output") output))
      (fst (DebugLogger.analyzeToolCallOutput functionName argsString output env))).
Proof.
  intros Hon.
  destruct (analyzeToolCallOutput_trace env Hon functionName argsString output)
    as [data [_ ->]].
  assert (In (Spawn (TWriteRawContent (lit "problematic-tool-output") output))
             ([ Console (LDebugAnalysisFor functionName);
                Console (LDebugSizes (JSStr.length argsString)
                                     (JSStr.length output)) ] ++
              match potential_issues output with
              | [] => []
              | _ :: _ =>
                  Console LDebugIssuesDetected ::
                  List.map (fun issue => Console (LDebugIssue issue))
                           (potential_issues output)
              end ++
              [ Spawn (TWriteToLogFile (lit "tool-call-analysis")
                                       (DAnalysis data)) ] ++
              match potential_issues output with
              | [] => []
              | _ :: _ =>
                  [ Spawn (TWriteRawContent (lit "problematic-tool-output")
                                            output) ]
              end)
          <-> potential_issues output <> []) as K.
  { rewrite !in_app_iff. cbn [In]. split.
    - intros [[H|[H|[]]]|[H|[[H|[]]|H]]]; try discriminate H.
      + destruct (potential_issues output) as [|i r]; [contradiction|].
        discriminate.
      + destruct (potential_issues output) as [|i r]; [contradiction|].
        discriminate.
    - intros H. right. right. right.
      destruct (potential_issues output) as [|i r]; [contradiction|].
      now left. }
  assert (potential_issues output <> [] <->
          (100000 < JSStr.length output \/
           truncated_guard output = true \/
           JSStr.count OPEN_BRACE output <> JSStr.count CLOSE_BRACE output \/
           existsb DebugLogger.is_control output = true)) as N.
  { rewrite issues_none. split.
    - intros H.
      destruct (Z.le_gt_cases (JSStr.length output) 100000) as [L|L];
        [|left; lia].
      destruct (truncated_guard output) eqn:G; [right; left; reflexivity|].
      destruct (Z.eq_dec (JSStr.count OPEN_BRACE output)
                  (JSStr.count CLOSE_BRACE output)) as [Ec|Ec];
        [|right; right; left; exact Ec].
      destruct (existsb DebugLogger.is_control output) eqn:X;
        [right; right; right; reflexivity|].
      exfalso. apply H.
      split; [exact L | split; [reflexivity | split; [exact Ec | reflexivity]]].
    - intros H [H1 [H2 [H3 H4]]].
      destruct H as [H|[H|[H|H]]]; [lia | congruence | contradiction | congruence]. }
  split; [rewrite K; exact N|].
  intros Hnl. apply K, N. right. right. right.
  apply existsb_exists. exists NEWLINE. split; [exact Hnl | reflexivity].
Qed.

(** A listing of two lines, and nothing else wrong with it. *)
Lemma analyzer_saves_raw_output_witness :
  debug_enabled DEBUG_ON = true /\
  In NEWLINE (lit "a" ++ [NEWLINE] ++ lit "b") /\
  In (Spawn (TWriteRawContent (lit "problematic-tool-output")
                              (lit "a" ++ [NEWLINE] ++ lit "b")))
     (fst (DebugLogger.analyzeToolCallOutput (lit "shell") (lit "{}")
             (lit "a" ++ [NEWLINE] ++ lit "b") DEBUG_ON)).
Proof.
  assert (In NEWLINE (lit "a" ++ [NEWLINE] ++ lit "b")) as H
    by (right; left; reflexivity).
  split; [reflexivity|]. split; [exact H|].
  exact (proj2 (analyzer_saves_raw_output (lit "shell") (lit "{}")
                  (lit "a" ++ [NEWLINE] ++ lit "b") DEBUG_ON eq_refl) H).
Defined.

(** ** The failure message and the error report *)

Section FailureMessage.

Lemma truncated_guard_possibleTruncation (raw : jsstring) :
  truncated_guard raw = true -> possibleTruncation raw = true.
Proof.
  intros G. apply truncated_guard_spec in G. destruct G as [Ho Hlt].
  apply possibleTruncation_spec.
  assert (includes raw OPEN_BRACE = true) as Io.
  { destruct (includes raw OPEN_BRACE) eqn:E; [reflexivity|].
    apply lastIndexOf_none in E. contradiction. }
  split; [|split; [|exact Io]].
  - intros ->. discriminate Io.
  - destruct (endsWith raw CLOSE_BRACE) eqn:E; [|reflexivity]. exfalso.
    unfold endsWith in E.
    destruct (rev raw) as [|x r] eqn:Er; [discriminate|].
    apply N.eqb_eq in E. subst x.
    assert (raw = rev r ++ [CLOSE_BRACE]) as ->.
    { rewrite <- (rev_involutive raw), Er. reflexivity. }
    rewrite lastIndexOf_last in Hlt.
    pose proof (lastIndexOf_range OPEN_BRACE (rev r ++ [CLOSE_BRACE])) as R.
    rewrite (lastIndexOf_not_in_suffix OPEN_BRACE (rev r) [CLOSE_BRACE] eq_refl)
      in Hlt, Ho.
    pose proof (lastIndexOf_range OPEN_BRACE (rev r)) as R'. lia.
Qed.

End FailureMessage.

(** X16. The test before the close-brace patch (line 69) and the test
    that picks the failure message (lines 154-156) are consistent: when
    the patch is tried on a text, the call returns the text parsed as it
    is, or the patched result, or the message
    [Response appears to be truncated]; it never answers
    [Failed to parse JSON result]. *)
Theorem patch_attempt_never_generic_failure (raw : jsstring) (env : Env) :
  truncated_guard raw = true ->
  possibleTruncation raw = true /\
  ((exists r, direct_result raw = Ok r) \/
   snd (parseToolCallOutput raw env) <>
     Ok {| output := JString MSG_FAILED; metadata := FAILURE_METADATA |}).
Proof.
  intros G. pose proof (truncated_guard_possibleTruncation raw G) as Pt.
  split; [exact Pt|].
  destruct (direct_result raw) as [r|e] eqn:D; [left; exists r; reflexivity|].
  right.
  rewrite parseToolCallOutput_outcome.
  unfold decode_result, stages_result, recovery_outcome. rewrite D, G.
  rewrite (guards_exclusive raw G).
  assert (forall r, patch_result raw = Some r ->
                    r <> {| output := JString MSG_FAILED;
                            metadata := FAILURE_METADATA |}) as Np.
  { intros r P E. apply patch_result_shape in P. destruct P as [s Hs].
    rewrite E in Hs. cbn [output] in Hs. injection Hs as Hs.
    apply (f_equal (@rev N)) in Hs. rewrite rev_app_distr in Hs.
    vm_compute in Hs. discriminate Hs. }
  destruct (0 <? JSStr.length raw).
  - destruct (patch_result raw) as [r|] eqn:P.
    + intros E. injection E as E. exact (Np r eq_refl E).
    + unfold fallback_result. rewrite Pt. intros E. injection E as E.
      vm_compute in E. discriminate E.
  - unfold fallback_result. rewrite Pt. intros E. injection E as E.
    vm_compute in E. discriminate E.
Qed.

(** A text cut inside its only object. *)
Lemma patch_attempt_never_generic_failure_witness :
  truncated_guard PAYLOAD_NO_FIELDS = true /\
  possibleTruncation PAYLOAD_NO_FIELDS = true.
Proof.
  split; [reflexivity|].
  exact (proj1 (patch_attempt_never_generic_failure PAYLOAD_NO_FIELDS DEBUG_OFF
                  eq_refl)).
Defined.

Section ErrorReport.

Ltac no_report :=
  repeat first
    [ apply absent_bind; [|intros ?]
    | apply absent_try_catch; [|intros ?]
    | (cbn [fst lift log spawn ret throw when getenv_DEBUG In];
       solve [ intros [] | intros [H|[]]; discriminate H ])
    | match goal with
      | |- context [when ?b _] => unfold when; destruct b
      | |- context [if ?b then _ else _] => destruct b
      | |- context [match ?x with _ => _ end] => destruct x
      end ].

Lemma decode_stages_no_report (raw : jsstring) (env : Env) (info : ErrorInfo) :
  ~ In (Spawn (TWriteErrorLog info)) (fst (decode_stages raw env)).
Proof.
  unfold decode_stages, direct_decode, recover, close_brace_patch,
    extract_object, DebugLogger.logJsonParseAttempt.
  no_report.
Qed.

Lemma fallback_report (raw : jsstring) (err : JSError) (env : Env)
  (info : ErrorInfo) :
  In (Spawn (TWriteErrorLog info)) (fst (fallback raw err env)) ->
  info = {| ei_error := err;
            ei_rawOutput := raw;
            ei_outputLength := JSStr.length raw;
            ei_outputStart := substring raw 0 500;
            ei_outputEnd :=
              if 500 <? JSStr.length raw
              then substring_from raw (JSStr.length raw - 500)
              else [];
            ei_openBrace := indexOf raw OPEN_BRACE;
            ei_closeBrace := lastIndexOf raw CLOSE_BRACE;
            ei_possibleTruncation := possibleTruncation raw |}.
Proof.
  unfold fallback. cbn [ei_possibleTruncation].
  repeat (rewrite ?trace_bind, ?outcome_bind;
          cbn [snd fst log spawn ret when app]).
  destruct (possibleTruncation raw);
    repeat (rewrite ?trace_bind, ?outcome_bind;
            cbn [snd fst log spawn ret when app]);
    cbn [In]; intros H;
    repeat match type of H with
           | _ \/ _ => destruct H as [H|H]
           end; try discriminate H; try contradiction;
    injection H as <-; reflexivity.
Qed.

Lemma substring_head (s : jsstring) (n : Z) :
  0 <= n -> substring s 0 n = firstn (Z.to_nat n) s.
Proof.
  intros Hn. destruct (Z.le_gt_cases n (JSStr.length s)) as [L|L].
  - apply substring_prefix. lia.
  - unfold substring, clamp.
    pose proof (length_nonneg s) as Ls.
    rewrite (Z.max_l 0 0), (Z.min_l 0), (Z.max_l n 0), (Z.min_r n),
      (Z.min_l 0), (Z.max_r 0) by lia.
    rewrite Z.sub_0_r. cbn [Z.to_nat skipn].
    unfold JSStr.length in *.
    rewrite !firstn_all2 by lia. reflexivity.
Qed.

End ErrorReport.

(** X17. What the error report of a failed call holds (parsers.ts, lines
    138-157 and 167): the whole text and its length; its first 500 units
    (the whole text when it is shorter); its last 500 units when it is
    longer than 500, nothing otherwise; and the truncation flag, which is
    the one that picks the message the call returns. A call that starts
    the report returns a failure message. *)
Theorem error_report_contents (raw : jsstring) (env : Env) (info : ErrorInfo) :
  In (Spawn (TWriteErrorLog info)) (fst (parseToolCallOutput raw env)) ->
  ei_rawOutput info = raw /\
  ei_outputLength info = JSStr.length raw /\
  (exists rest, raw = ei_outputStart info ++ rest) /\
  JSStr.length (ei_outputStart info) = Z.min 500 (JSStr.length raw) /\
  (exists before, raw = before ++ ei_outputEnd info) /\
  JSStr.length (ei_outputEnd info) = (if 500 <? JSStr.length raw then 500 else 0) /\
  (ei_openBrace info = -1 <-> includes raw OPEN_BRACE = false) /\
  snd (parseToolCallOutput raw env) =
    Ok {| output := JString (if ei_possibleTruncation info
                             then MSG_TRUNCATED else MSG_FAILED);
          metadata := FAILURE_METADATA |}.
Proof.
  intros H.
  assert (exists err, stages_result raw = Throw err /\
                      In (Spawn (TWriteErrorLog info))
                         (fst (fallback raw err env))) as [err [Hs Hf]].
  { unfold parseToolCallOutput in H. rewrite trace_try_catch in H.
    rewrite decode_stages_outcome in H.
    destruct (stages_result raw) as [r|err].
    - exfalso. exact (decode_stages_no_report raw env info H).
    - exists err. split; [reflexivity|].
      apply in_app_iff in H. destruct H as [H|H]; [|exact H].
      exfalso. exact (decode_stages_no_report raw env info H). }
  apply fallback_report in Hf. subst info.
  cbn [ei_rawOutput ei_outputLength ei_outputStart ei_outputEnd ei_openBrace
       ei_possibleTruncation].
  pose proof (length_nonneg raw) as Lr.
  split; [reflexivity|]. split; [reflexivity|].
  rewrite substring_head by lia.
  split; [exists (skipn (Z.to_nat 500) raw); symmetry; apply firstn_skipn|].
  split.
  { unfold JSStr.length in *. rewrite length_firstn. lia. }
  split.
  { destruct (Z.ltb_spec 500 (JSStr.length raw)).
    - rewrite substring_from_suffix by lia.
      exists (firstn (Z.to_nat (JSStr.length raw - 500)) raw).
      symmetry. apply firstn_skipn.
    - exists raw. symmetry. apply app_nil_r. }
  split.
  { destruct (Z.ltb_spec 500 (JSStr.length raw)); [|reflexivity].
    rewrite substring_from_suffix by lia.
    unfold JSStr.length in *. rewrite length_skipn. lia. }
  split; [apply indexOf_none|].
  rewrite parseToolCallOutput_outcome. unfold decode_result. rewrite Hs.
  reflexivity.
Qed.

(** The empty text: the report is started and the call answers with the
    generic message. *)
Lemma error_report_contents_witness :
  exists info,
    In (Spawn (TWriteErrorLog info)) (fst (parseToolCallOutput [] DEBUG_OFF)) /\
    ei_rawOutput info = [] /\
    snd (parseToolCallOutput [] DEBUG_OFF) =
      Ok {| output := JString (if ei_possibleTruncation info
                               then MSG_TRUNCATED else MSG_FAILED);
            metadata := FAILURE_METADATA |}.
Proof.
  eexists.
  assert (In (Spawn (TWriteErrorLog
                {| ei_error := SyntaxError;
                   ei_rawOutput := [];
                   ei_outputLength := 0;
                   ei_outputStart := [];
                   ei_outputEnd := [];
                   ei_openBrace := -1;
                   ei_closeBrace := -1;
                   ei_possibleTruncation := false |}))
             (fst (parseToolCallOutput [] DEBUG_OFF))) as H
    by (vm_compute; repeat (first [left; reflexivity | right])).
  split; [exact H|].
  pose proof (error_report_contents [] DEBUG_OFF _ H) as K.
  split; [exact (proj1 K)|].
  exact (proj2 (proj2 (proj2 (proj2 (proj2 (proj2 (proj2 K))))))).
Defined.

(** ** Model names (model-utils.ts) *)

Section ModelNames.

Import ModelUtils.

Lemma jsstring_eqb_eq (a b : jsstring) : JSStr.eqb a b = true <-> a = b.
Proof.
  unfold JSStr.eqb. destruct (list_eq_dec N.eq_dec a b); split; auto; discriminate.
Qed.

Lemma own_entry_in (m : list (jsstring * jsstring)) (k v : jsstring) :
  own_entry m k = Some v -> In (k, v) m.
Proof.
  induction m as [|[k' v'] r IH]; cbn [own_entry]; [discriminate|].
  destruct (JSStr.eqb k' k) eqn:E.
  - apply jsstring_eqb_eq in E. subst k'. intros H. injection H as ->. now left.
  - intros H. right. exact (IH H).
Qed.

Lemma existsb_eqb_in (x : jsstring) (l : list jsstring) :
  existsb (JSStr.eqb x) l = true <-> In x l.
Proof.
  rewrite existsb_exists. split.
  - intros [y [Hy E]]. apply jsstring_eqb_eq in E. now subst.
  - intros H. exists x. split; [exact H|]. now apply jsstring_eqb_eq.
Qed.

End ModelNames.

(** X18. [mapToDeepSeekModel] (model-utils.ts, lines 12-22): each of the
    six names of the table is mapped to a recommended model; a name that
    is neither in the table nor a member of [Object.prototype] is
    returned unchanged; the function is idempotent on the strings it
    returns. For a member name of [Object.prototype], such as
    [constructor] or [toString], the lookup finds the inherited member
    and the function returns it in place of a model name. *)
Theorem mapToDeepSeekModel_spec :
  (forall k v, In (k, v) ModelUtils.modelMap ->
     ModelUtils.mapToDeepSeekModel k = ModelUtils.MName v /\
     In v ModelUtils.RECOMMENDED_MODELS) /\
  (forall m, ModelUtils.own_entry ModelUtils.modelMap m = None ->
     ~ In m ModelUtils.OBJECT_PROTOTYPE_NAMES ->
     ModelUtils.mapToDeepSeekModel m = ModelUtils.MName m) /\
  (forall m s, ModelUtils.mapToDeepSeekModel m = ModelUtils.MName s ->
     ModelUtils.mapToDeepSeekModel s = ModelUtils.MName s) /\
  (forall m, In m ModelUtils.OBJECT_PROTOTYPE_NAMES ->
     ModelUtils.mapToDeepSeekModel m = ModelUtils.MInherited m) /\
  ModelUtils.mapToDeepSeekModel [] = ModelUtils.MName [].
Proof.
  split; [|split; [|split; [|split]]].
  - intros k v H. cbn [ModelUtils.modelMap In] in H.
    repeat (destruct H as [H|H]; [injection H as <- <-; split;
                                  [reflexivity | cbn; auto]|]).
    contradiction.
  - intros m Hn Hi. unfold ModelUtils.mapToDeepSeekModel. rewrite Hn.
    destruct (existsb (JSStr.eqb m) ModelUtils.OBJECT_PROTOTYPE_NAMES) eqn:E;
      [|reflexivity].
    apply existsb_eqb_in in E. contradiction.
  - intros m s. unfold ModelUtils.mapToDeepSeekModel at 1.
    destruct (ModelUtils.own_entry ModelUtils.modelMap m) as [v|] eqn:E.
    + apply own_entry_in in E. cbn [ModelUtils.modelMap In] in E.
      repeat (destruct E as [E|E]; [injection E as <- <-; intros H;
                                    injection H as <-; reflexivity|]).
      contradiction.
    + destruct (existsb (JSStr.eqb m) ModelUtils.OBJECT_PROTOTYPE_NAMES) eqn:X;
        [discriminate|].
      intros H. injection H as <-.
      unfold ModelUtils.mapToDeepSeekModel. rewrite E, X. reflexivity.
  - intros m H. cbn [ModelUtils.OBJECT_PROTOTYPE_NAMES In] in H.
    repeat (destruct H as [H|H]; [subst m; reflexivity|]).
    contradiction.
  - reflexivity.
Qed.

(** ** The list of models *)

Section ModelList.

Import ModelUtils.

Lemma str_leb_total (a b : jsstring) :
  str_leb a b = false -> str_leb b a = true.
Proof.
  revert b. induction a as [|x a IH]; intros [|y b]; cbn [str_leb];
    try discriminate; try reflexivity.
  destruct (N.ltb_spec x y); [discriminate|].
  destruct (N.ltb_spec y x); [reflexivity|].
  apply IH.
Qed.

Lemma insert_sorted_perm (x : jsstring) (l : list jsstring) :
  Permutation (x :: l) (insert_sorted x l).
Proof.
  induction l as [|y r IH]; cbn [insert_sorted]; [apply Permutation_refl|].
  destruct (str_leb x y); [apply Permutation_refl|].
  apply perm_trans with (y :: x :: r); [apply perm_swap|].
  apply perm_skip. exact IH.
Qed.

Lemma sort_perm (l : list jsstring) : Permutation l (sort l).
Proof.
  induction l as [|x r IH]; cbn [sort]; [apply perm_nil|].
  apply perm_trans with (x :: sort r); [now apply perm_skip|].
  apply insert_sorted_perm.
Qed.

Lemma insert_sorted_hd (x y : jsstring) (l : list jsstring) :
  HdRel (fun a b => str_leb a b = true) y l ->
  str_leb y x = true ->
  HdRel (fun a b => str_leb a b = true) y (insert_sorted x l).
Proof.
  intros H Hyx. destruct l as [|z r]; cbn [insert_sorted].
  - now constructor.
  - destruct (str_leb x z); constructor; [exact Hyx|].
    now inversion H.
Qed.

Lemma insert_sorted_sorted (x : jsstring) (l : list jsstring) :
  Sorted (fun a b => str_leb a b = true) l ->
  Sorted (fun a b => str_leb a b = true) (insert_sorted x l).
Proof.
  intros H. induction H as [|y r Hr IH Hd]; cbn [insert_sorted].
  - repeat constructor.
  - destruct (str_leb x y) eqn:E.
    + constructor; [now constructor|]. now constructor.
    + constructor; [exact IH|].
      apply insert_sorted_hd; [exact Hd|]. now apply str_leb_total.
Qed.

Lemma sort_sorted (l : list jsstring) :
  Sorted (fun a b => str_leb a b = true) (sort l).
Proof.
  induction l as [|x r IH]; cbn [sort]; [constructor|].
  now apply insert_sorted_sorted.
Qed.

Lemma model_ids_in (listed : list JSValue) (id : jsstring) :
  In id (model_ids listed) <->
  exists props, In (JObject props) listed /\
                prop_get props (lit "id") = Some (JString id).
Proof.
  unfold model_ids. rewrite in_flat_map. split.
  - intros [model [Hm Hid]]. destruct model as [| | | | | |props]; try contradiction.
    destruct (prop_get props (lit "id")) as [[| | | |s| |]|] eqn:E;
      try contradiction.
    destruct Hid as [<-|[]]. exists props. split; assumption.
  - intros [props [Hm E]]. exists (JObject props). split; [exact Hm|].
    rewrite E. now left.
Qed.

End ModelList.

(** X19. [fetchModels] (model-utils.ts, lines 34-61) never resolves to an
    empty list, and the list is always in the order of the code units:
    without an API key, or when the listing throws, or when it yields no
    model with a string [id], it is the two recommended models; otherwise
    it is the listed identifiers, sorted, each as often as it was listed.
    Only a listing that throws calls [console.warn]. *)
Theorem fetchModels_spec (apiKey : option jsstring)
  (listing : Exc (list JSValue)) :
  snd (ModelUtils.fetchModels apiKey listing) <> [] /\
  Sorted (fun a b => ModelUtils.str_leb a b = true)
         (snd (ModelUtils.fetchModels apiKey listing)) /\
  (truthy apiKey = false ->
   ModelUtils.fetchModels apiKey listing = (false, ModelUtils.RECOMMENDED_MODELS)) /\
  (forall e, truthy apiKey = true -> listing = Throw e ->
   ModelUtils.fetchModels apiKey listing = (true, ModelUtils.RECOMMENDED_MODELS)) /\
  (forall listed, truthy apiKey = true -> listing = Ok listed ->
   fst (ModelUtils.fetchModels apiKey listing) = false /\
   (ModelUtils.model_ids listed = [] ->
    snd (ModelUtils.fetchModels apiKey listing) = ModelUtils.RECOMMENDED_MODELS) /\
   (ModelUtils.model_ids listed <> [] ->
    Permutation (ModelUtils.model_ids listed)
                (snd (ModelUtils.fetchModels apiKey listing)) /\
    forall id, In id (snd (ModelUtils.fetchModels apiKey listing)) <->
               exists props, In (JObject props) listed /\
                             prop_get props (lit "id") = Some (JString id))).
Proof.
  assert (Sorted (fun a b => ModelUtils.str_leb a b = true)
                 ModelUtils.RECOMMENDED_MODELS) as Sr
    by (repeat constructor).
  unfold ModelUtils.fetchModels.
  destruct (truthy apiKey) eqn:K; cbn [negb].
  2:{ split; [discriminate|]. split; [exact Sr|].
      split; [reflexivity|]. split; intros; discriminate. }
  destruct listing as [listed|e].
  2:{ cbn [snd]. split; [discriminate|]. split; [exact Sr|].
      split; [discriminate|]. split; [reflexivity|]. intros; discriminate. }
  cbn [snd fst].
  destruct (ModelUtils.model_ids listed) as [|x r] eqn:E.
  - cbn [List.length Z.of_nat]. change (0 <? 0) with false. cbv iota.
    split; [discriminate|]. split; [exact Sr|].
    split; [discriminate|]. split; [intros; discriminate|].
    intros l _ H. injection H as <-. rewrite E.
    split; [reflexivity|]. split; [reflexivity|]. intros C. contradiction.
  - assert ((0 <? Z.of_nat (List.length (x :: r))) = true) as ->
      by (apply Z.ltb_lt; cbn [List.length]; lia).
    split.
    { intros C. pose proof (ModelUtils.sort (x :: r)) as _.
      pose proof (sort_perm (x :: r)) as P. rewrite C in P.
      apply Permutation_sym, Permutation_nil in P. discriminate P. }
    split; [apply sort_sorted|].
    split; [discriminate|]. split; [intros; discriminate|].
    intros l _ H. injection H as <-. rewrite E.
    split; [reflexivity|]. split; [discriminate|]. intros _.
    split; [apply sort_perm|].
    intros id. rewrite <- model_ids_in, E. split.
    + apply Permutation_in. apply Permutation_sym, sort_perm.
    + apply Permutation_in. apply sort_perm.
Qed.

(** X20. [isModelSupportedForResponses] (model-utils.ts, lines 85-122):
    a model that is [undefined], blank, one of the six names of the
    table or a recommended model is supported whatever the list of
    models. The answer is [false] only when the name is not blank, is not
    mapped to a recommended model, and the race gave a list that is not
    empty and does not hold the mapped name; a timeout or an exception
    never rejects a model. Without an API key the list is the recommended
    models, so every other name is rejected once the list is there. *)
Theorem model_support_spec :
  (forall raced, ModelUtils.isModelSupportedForResponses None raced = true) /\
  (forall m raced, ModelUtils.trim m = [] ->
     ModelUtils.isModelSupportedForResponses (Some m) raced = true) /\
  (forall m raced,
     In m (List.map fst ModelUtils.modelMap ++ ModelUtils.RECOMMENDED_MODELS) ->
     ModelUtils.isModelSupportedForResponses (Some m) raced = true) /\
  (forall m raced,
     ModelUtils.isModelSupportedForResponses (Some m) raced = false <->
     ModelUtils.trim m <> [] /\
     ModelUtils.includes_mapped ModelUtils.RECOMMENDED_MODELS
       (ModelUtils.mapToDeepSeekModel m) = false /\
     exists models, raced = Ok models /\ models <> [] /\
       ModelUtils.includes_mapped models (ModelUtils.mapToDeepSeekModel m)
       = false) /\
  (forall m apiKey listing, truthy apiKey = false ->
     ModelUtils.isModelSupportedForResponses (Some m)
       (Ok (snd (ModelUtils.fetchModels apiKey listing)))
     = JSStr.eqb (ModelUtils.trim m) [] ||
       ModelUtils.includes_mapped ModelUtils.RECOMMENDED_MODELS
         (ModelUtils.mapToDeepSeekModel m)).
Proof.
  split; [reflexivity|].
  split.
  { intros m raced H. unfold ModelUtils.isModelSupportedForResponses.
    rewrite H. reflexivity. }
  split.
  { intros m raced H.
    cbn [ModelUtils.modelMap ModelUtils.RECOMMENDED_MODELS List.map fst app In]
      in H.
    repeat (destruct H as [H|H]; [subst m; reflexivity|]). contradiction. }
  split.
  { intros m raced. unfold ModelUtils.isModelSupportedForResponses.
    destruct (JSStr.eqb (ModelUtils.trim m) []) eqn:T.
    { apply jsstring_eqb_eq in T. split; [discriminate|]. tauto. }
    assert (ModelUtils.trim m <> []) as Nt.
    { intros E. apply jsstring_eqb_eq in E. congruence. }
    destruct (ModelUtils.includes_mapped ModelUtils.RECOMMENDED_MODELS
                (ModelUtils.mapToDeepSeekModel m)) eqn:R.
    { split; [discriminate|]. intros [_ [C _]]. discriminate C. }
    destruct raced as [models|e].
    - destruct models as [|x r].
      + cbn [List.length Nat.eqb]. split; [discriminate|].
        intros [_ [_ [l [E [N _]]]]]. injection E as <-. contradiction.
      + cbn [List.length Nat.eqb]. split.
        * intros H. split; [exact Nt|]. split; [reflexivity|].
          exists (x :: r). split; [reflexivity|]. split; [discriminate | exact H].
        * intros [_ [_ [l [E [_ H]]]]]. injection E as <-. exact H.
    - split; [discriminate|]. intros [_ [_ [l [E _]]]]. discriminate E. }
  intros m apiKey listing K.
  unfold ModelUtils.fetchModels. rewrite K. cbn [negb snd].
  unfold ModelUtils.isModelSupportedForResponses.
  destruct (JSStr.eqb (ModelUtils.trim m) []); [reflexivity|].
  cbn [orb].
  destruct (ModelUtils.includes_mapped ModelUtils.RECOMMENDED_MODELS
              (ModelUtils.mapToDeepSeekModel m)) eqn:R; [reflexivity|].
  reflexivity.
Qed.

(** ** The cache of the list *)

Section ModelCache.

Import ModelUtils.

Variable apiKey : option jsstring.

Lemma run_cached (calls : list (Call * Exc (list JSValue)))
  (models : list jsstring) :
  snd (run apiKey calls (Some models)) = O /\
  Forall (fun l => l = models) (fst (run apiKey calls (Some models))).
Proof.
  induction calls as [|[[|] listing] rest [IHn IHl]]; cbn [run].
  - split; [reflexivity | constructor].
  - cbn [preloadModels].
    destruct (run apiKey rest (Some models)) as [lists n].
    cbn [fst snd] in *. split; assumption.
  - cbn [getAvailableModels].
    destruct (run apiKey rest (Some models)) as [lists n].
    cbn [fst snd] in *. split; [assumption|]. constructor; [reflexivity | assumption].
Qed.

End ModelCache.

(** X21. The list of models is fetched once in a process (model-utils.ts,
    lines 32 and 63-76): in any sequence of calls of [preloadModels] and
    [getAvailableModels] that starts with no promise, [fetchModels] is
    called by the first call and by no other, and every call of
    [getAvailableModels] resolves to the list of that first fetch,
    whatever the service would answer later. *)
Theorem models_fetched_once (apiKey : option jsstring)
  (first : ModelUtils.Call * Exc (list JSValue))
  (rest : list (ModelUtils.Call * Exc (list JSValue))) :
  ModelUtils.run apiKey [] None = ([], O) /\
  snd (ModelUtils.run apiKey (first :: rest) None) = 1%nat /\
  Forall (fun l => l = snd (ModelUtils.fetchModels apiKey (snd first)))
         (fst (ModelUtils.run apiKey (first :: rest) None)).
Proof.
  split; [reflexivity|].
  destruct first as [[|] listing]; cbn [ModelUtils.run snd].
  - cbn [ModelUtils.preloadModels ModelUtils.getAvailableModels].
    destruct (run_cached apiKey rest
                (snd (ModelUtils.fetchModels apiKey listing))) as [Hn Hl].
    destruct (ModelUtils.run apiKey rest
                (Some (snd (ModelUtils.fetchModels apiKey listing))))
      as [lists n].
    cbn [fst snd] in *. subst n. split; [reflexivity | exact Hl].
  - cbn [ModelUtils.getAvailableModels].
    destruct (run_cached apiKey rest
                (snd (ModelUtils.fetchModels apiKey listing))) as [Hn Hl].
    destruct (ModelUtils.run apiKey rest
                (Some (snd (ModelUtils.fetchModels apiKey listing))))
      as [lists n].
    cbn [fst snd] in *. subst n. split; [reflexivity|].
    constructor; [reflexivity | exact Hl].
Qed.

(** ** The text that failed to parse is kept *)

Section FailedText.

Variable env : Env.
Hypothesis Hon : debug_enabled env = true.

Lemma in_spawned (task : Task) (t : list Effect) :
  In (Spawn task) t <-> In task (spawned t).
Proof.
  unfold spawned. rewrite in_flat_map. split.
  - intros H. exists (Spawn task). split; [exact H | now left].
  - intros [e [He Ht]]. destruct e as [line|task']; [contradiction|].
    destruct Ht as [->|[]]. exact He.
Qed.

(** What a recorded parse attempt starts when the switch is on. *)
Lemma logJsonParseAttempt_spawned (s : jsstring) (success : bool)
  (error : option JSError) :
  exists data,
    spawned (fst (DebugLogger.logJsonParseAttempt s success error env)) =
    TWriteToLogFile (if success then lit "json-parse-success"
                     else lit "json-parse-error") (DParseAttempt data) ::
    (if success then [] else [TWriteRawContent (lit "failed-json-raw") s]).
Proof.
  unfold debug_enabled in Hon. unfold DebugLogger.logJsonParseAttempt.
  eexists. rewrite trace_bind. cbn [snd fst getenv_DEBUG app]. rewrite Hon.
  cbn [negb].
  repeat (rewrite ?trace_bind, ?outcome_bind; cbn [snd fst log spawn ret app]).
  destruct success, error;
    repeat (rewrite ?trace_bind, ?outcome_bind;
            cbn [snd fst log spawn ret app when negb]);
    reflexivity.
Qed.

Lemma direct_decode_spawned (raw : jsstring) :
  ~ In (TWriteRawContent (lit "failed-json-raw") raw)
       (spawned (fst (direct_decode raw env))).
Proof.
  unfold direct_decode.
  repeat (rewrite ?trace_bind, ?outcome_bind; cbn [snd fst lift ret app]).
  destruct (JSON.parse raw) as [parsed|e]; [|intros []].
  repeat (rewrite ?trace_bind, ?outcome_bind; cbn [snd fst lift ret app]).
  destruct (destructure_output_metadata parsed) as [[o m]|e]; [|intros []].
  repeat (rewrite ?trace_bind, ?outcome_bind; cbn [snd fst lift ret app]).
  rewrite logJsonParseAttempt_outcome. rewrite app_nil_r.
  destruct (logJsonParseAttempt_spawned raw true None) as [data ->].
  intros [H|[]]. discriminate H.
Qed.

End FailedText.

(** X22. With the switch on, the text that could not be decoded as it is
    is always kept: [parseToolCallOutput] starts the write of
    [failed-json-raw] with the whole text exactly when the first stage
    (lines 51-55) throws, whatever the recovery does afterwards. *)
Theorem failed_text_is_kept (raw : jsstring) (env : Env) :
  debug_enabled env = true ->
  (In (Spawn (TWriteRawContent (lit "failed-json-raw") raw))
      (fst (parseToolCallOutput raw env))
   <-> exists e, direct_result raw = Throw e).
Proof.
  intros Hon.
  assert (spawned (fst (decode_stages raw env)) =
          spawned (fst (direct_decode raw env)) ++
          match direct_result raw with
          | Ok _ => []
          | Throw e => spawned (fst (recover raw e env))
          end) as Sd.
  { unfold decode_stages.
    repeat (rewrite ?trace_bind, ?outcome_bind;
            cbn [snd fst getenv_DEBUG app]).
    assert (snd (when (truthy (env_DEBUG env)) (log (LAttemptingToParse raw)) env)
            = Ok tt) as -> by (destruct (truthy (env_DEBUG env)); reflexivity).
    rewrite trace_try_catch, direct_decode_outcome, !spawned_app.
    assert (spawned (fst (when (truthy (env_DEBUG env))
                               (log (LAttemptingToParse raw)) env)) = []) as ->
      by (destruct (truthy (env_DEBUG env)); reflexivity).
    destruct (direct_result raw); cbn [app];
      rewrite ?spawned_app, ?app_nil_r; reflexivity. }
  assert (forall e, spawned (fst (fallback raw e env)) <> [] /\
                    ~ In (TWriteRawContent (lit "failed-json-raw") raw)
                         (spawned (fst (fallback raw e env)))) as Sf.
  { intros e. destruct (fallback_spawns raw e env) as [info [-> _]].
    split; [discriminate|]. intros [H|[]]. discriminate H. }
  rewrite in_spawned. unfold parseToolCallOutput.
  rewrite trace_try_catch, decode_stages_outcome.
  split.
  - intros H. destruct (direct_result raw) as [r|e] eqn:D; [|exists e; reflexivity].
    exfalso.
    assert (stages_result raw = Ok r) as Hs
      by (unfold stages_result, recovery_outcome; rewrite D; reflexivity).
    rewrite Hs, Sd, app_nil_r in H.
    exact (direct_decode_spawned env Hon raw H).
  - intros [e D].
    assert (In (TWriteRawContent (lit "failed-json-raw") raw)
               (spawned (fst (decode_stages raw env)))) as K.
    { rewrite Sd, D. apply in_or_app. right.
      unfold recover. rewrite trace_bind, logJsonParseAttempt_outcome.
      rewrite spawned_app. apply in_or_app. left.
      destruct (logJsonParseAttempt_spawned env Hon raw false (Some e))
        as [data ->].
      right. left. reflexivity. }
    destruct (stages_result raw); [exact K|].
    rewrite spawned_app. apply in_or_app. left. exact K.
Qed.

(** The empty text, which the first stage cannot read. *)
Lemma failed_text_is_kept_witness :
  debug_enabled DEBUG_ON = true /\
  (In (Spawn (TWriteRawContent (lit "failed-json-raw") []))
      (fst (parseToolCallOutput [] DEBUG_ON))
   <-> exists e, direct_result [] = Throw e).
Proof.
  split; [reflexivity|].
  exact (failed_text_is_kept [] DEBUG_ON eq_refl).
Defined.
